(** * news-aggregator: the feed store, loader, translation batcher and
      view projection of [static/app.js]

    The script keeps its state in module-level variables and changes them
    from [async] functions whose only suspension points are the network
    calls ([fetch] and [response.json()]).  The embedding below keeps that
    shape:

    - the module-level variables are the fields of [AppState]; the two
      feed variables hold references to arrays, and the arrays live in a
      store, so that assigning a variable, copying an array and pushing
      to an array are three different things, as they are in the script;
    - every function of the script is a program of the free monad [prog],
      whose instructions are the reads and writes of the state, the two
      suspension points, [throw], and a ghost [Tell] that records what was
      written to the page;
    - [run] executes a program to its end against a scripted backend (one
      task at a time), and [Loop.step] is the event loop in which several
      suspended tasks are resumed in any order.

    Not modelled in the feed pipeline: the [lang] key of [localStorage]
    and the HTML text of a card ([createNewsCard], [escapeHtml]): a
    rendered card is identified with the item it shows and the locale it
    is shown in.  Feed items are values: the script reads their fields and
    never writes to them.

    The theme toggle, the time label of a card and the settings form
    read and write state of their own (the form starts a load of the feed
    when a save is answered, and does nothing else to it).  They are
    embedded on their own, as functions on the state they use, in the
    modules [Theme], [TimeAgo] and [Settings]; what the browser does
    there (trimming, parsing a date, the value of an input read back from
    its markup, the order of the inputs in the document) is a parameter
    of these functions. *)

From Stdlib Require Import String List Arith Bool Lia PeanoNat Sorted ZArith.
Import ListNotations.
Open Scope string_scope.
Open Scope list_scope.
Open Scope nat_scope.

Set Implicit Arguments.

(** ** Data *)

(** A feed item as the backend produces it ([item.url], [item.source],
    ...); the optional fields are the ones the script tests for presence. *)
Record FeedItem : Type := mkItem {
  url          : string;
  source       : string;
  source_name  : string;
  title        : string;
  description  : option string;
  author       : option string;
  published_at : option string;
  fetched_at   : string
}.

(** [currentLang]: the script compares it with ['en'] and ['ru'] only and
    writes nothing else to it.  It starts as what [localStorage] holds
    under ['lang']; a stored value other than these two, for which
    [translations[currentLang]] is undefined, so that [loadNews] and
    [translateNews] throw when they write their first message, is outside
    the model. *)
Inductive lang : Type := En | Ru.

(** What [newsGrid.innerHTML] holds.  [translations[currentLang]] supplies
    the wording, hence the locale in every message. *)
Inductive view : Type :=
| Blank
| Loading (t : lang)
| LoadError (t : lang)
| Translating (t : lang) (progress : option nat)
| NoNews (t : lang)
| Cards (t : lang) (items : list FeedItem).

(** A reference to an array of the store: its index there. *)
Definition ref : Type := nat.

(** The module-level variables of the script that the feed pipeline uses,
    and [arrays], the arrays the script has created so far. *)
Record AppState : Type := mkState {
  currentFilter    : string;
  newsData         : ref;
  originalNewsData : ref;
  currentLang      : lang;
  newsGrid         : view;
  arrays           : list (list FeedItem)
}.

Definition set_currentFilter (f : string) (s : AppState) : AppState :=
  mkState f (newsData s) (originalNewsData s) (currentLang s) (newsGrid s)
          (arrays s).
Definition set_newsData (r : ref) (s : AppState) : AppState :=
  mkState (currentFilter s) r (originalNewsData s) (currentLang s) (newsGrid s)
          (arrays s).
Definition set_originalNewsData (r : ref) (s : AppState) : AppState :=
  mkState (currentFilter s) (newsData s) r (currentLang s) (newsGrid s)
          (arrays s).
Definition set_currentLang (l : lang) (s : AppState) : AppState :=
  mkState (currentFilter s) (newsData s) (originalNewsData s) l (newsGrid s)
          (arrays s).
Definition set_newsGrid (v : view) (s : AppState) : AppState :=
  mkState (currentFilter s) (newsData s) (originalNewsData s) (currentLang s) v
          (arrays s).
Definition set_arrays (h : list (list FeedItem)) (s : AppState) : AppState :=
  mkState (currentFilter s) (newsData s) (originalNewsData s) (currentLang s)
          (newsGrid s) h.

(** The elements of the array [r] refers to. *)
Definition deref (s : AppState) (r : ref) : list FeedItem :=
  nth r (arrays s) [].

(** The two snapshots, as sequences of items. *)
Definition display (s : AppState) : list FeedItem := deref s (newsData s).
Definition original (s : AppState) : list FeedItem := deref s (originalNewsData s).

(** The array at [r] replaced by [l]; the other arrays stay. *)
Fixpoint store (h : list (list FeedItem)) (r : ref) (l : list FeedItem)
  : list (list FeedItem) :=
  match h, r with
  | [], _ => []
  | _ :: h', 0 => l :: h'
  | x :: h', S r' => x :: store h' r' l
  end.

(** Both feed variables refer to arrays of the store. *)
Definition well_formed (s : AppState) : Prop :=
  newsData s < length (arrays s) /\ originalNewsData s < length (arrays s).

(** The state the script starts in: [let newsData = []] and
    [let originalNewsData = []] are two arrays; filter ['all']. *)
Definition initial (l : lang) : AppState :=
  mkState "all" 0 1 l Blank [[]; []].

(** The value [response.json()] resolves to, as far as the script looks at
    it: [data.items] throws on [null]; on any other value it is either
    falsy (absent, [null], [0], an empty string, [false]) or the array of
    items.  A truthy [items] that is not an array is outside this model. *)
Inductive json : Type :=
| JNull
| JData (items : option (list FeedItem)).

(** A [Response]: the HTTP status, and the body, [None] when it is not
    JSON (then [response.json()] rejects). *)
Record response : Type := mkResponse {
  status : nat;
  body   : option json
}.

(** The two requests of the pipeline: [fetch('/api/news...')] and
    [fetch('/api/translate', {items, target_lang})]; the body of the
    second holds the elements the batch has when it is sent. *)
Inductive request : Type :=
| GetNews (force_refresh : bool)
| PostTranslate (items : list FeedItem) (target_lang : string).

(** What a run leaves behind for an observer. *)
Inductive event : Type :=
| EvFetch (req : request)
| EvView (v : view)
| EvConsoleError.

(** ** Programs *)

Inductive prog (A : Type) : Type :=
| Ret (a : A)
| Throw
| Spin
| Get (k : AppState -> prog A)
| Put (s : AppState) (k : prog A)
| Tell (e : event) (k : prog A)
| Fetch (req : request) (k : option response -> prog A)
| ReadJson (r : response) (k : option json -> prog A).

Arguments Ret {A} a.
Arguments Throw {A}.
Arguments Spin {A}.
Arguments Get {A} k.
Arguments Put {A} s k.
Arguments Tell {A} e k.
Arguments Fetch {A} req k.
Arguments ReadJson {A} r k.

Fixpoint bind {A B : Type} (p : prog A) (f : A -> prog B) : prog B :=
  match p with
  | Ret a => f a
  | Throw => Throw
  | Spin => Spin
  | Get k => Get (fun s => bind (k s) f)
  | Put s k => Put s (bind k f)
  | Tell e k => Tell e (bind k f)
  | Fetch req k => Fetch req (fun r => bind (k r) f)
  | ReadJson r k => ReadJson r (fun d => bind (k d) f)
  end.

(** [try { p } catch (error) { h }]: [Spin] is not an exception and goes
    through. *)
Fixpoint try_catch {A : Type} (p : prog A) (h : prog A) : prog A :=
  match p with
  | Ret a => Ret a
  | Throw => h
  | Spin => Spin
  | Get k => Get (fun s => try_catch (k s) h)
  | Put s k => Put s (try_catch k h)
  | Tell e k => Tell e (try_catch k h)
  | Fetch req k => Fetch req (fun r => try_catch (k r) h)
  | ReadJson r k => ReadJson r (fun d => try_catch (k d) h)
  end.

Declare Scope prog_scope.
Delimit Scope prog_scope with prog.
Bind Scope prog_scope with prog.
Notation "x <- p ;; q" := (bind p (fun x => q))
  (at level 61, p at next level, right associativity) : prog_scope.
Notation "p ;; q" := (bind p (fun _ => q))
  (at level 61, right associativity) : prog_scope.
Open Scope prog_scope.

Definition get : prog AppState := Get (fun s => Ret s).
Definition modify (f : AppState -> AppState) : prog unit :=
  Get (fun s => Put (f s) (Ret tt)).

(** A new array with the elements [l]: an array literal, a spread
    [[...a]], the [items] of a parsed body.  Its reference is the next
    free index of the store. *)
Definition new_array (l : list FeedItem) : prog ref :=
  Get (fun s => Put (set_arrays (arrays s ++ [l]) s) (Ret (length (arrays s)))).

(** [a.push(...l)]: the array [a] refers to grows in place. *)
Definition array_push (a : ref) (l : list FeedItem) : prog unit :=
  modify (fun s => set_arrays (store (arrays s) a (deref s a ++ l)) s).

(** [newsGrid.innerHTML = ...] *)
Definition set_view (v : view) : prog unit :=
  modify (set_newsGrid v) ;; Tell (EvView v) (Ret tt).

(** [console.error(...)] *)
Definition console_error : prog unit := Tell EvConsoleError (Ret tt).

(** [await fetch(...)]: a rejected promise is thrown at the [await]. *)
Definition fetch (req : request) : prog response :=
  Fetch req (fun r => match r with Some resp => Ret resp | None => Throw end).

(** [await response.json()] *)
Definition response_json (r : response) : prog json :=
  ReadJson r (fun d => match d with Some j => Ret j | None => Throw end).

(** [data.items]: a TypeError on [null]. *)
Definition data_items (data : json) : prog (option (list FeedItem)) :=
  match data with
  | JNull => Throw
  | JData items => Ret items
  end.

(** [x || dflt] on an [items] value. *)
Definition or_else (x : option (list FeedItem)) (dflt : list FeedItem) : list FeedItem :=
  match x with
  | Some l => l
  | None => dflt
  end.

(** The elements of [a.slice(b, e)] for [0 <= b <= e], [l] being those
    of [a]. *)
Definition slice (b e : nat) (l : list FeedItem) : list FeedItem :=
  firstn (e - b) (skipn b l).

(** ** The view projection ([renderNews]) *)

(** [const filtered = currentFilter === 'all' ? newsData
      : newsData.filter(item => item.source === currentFilter)]: read,
    not stored. *)
Definition filtered (f : string) (data : list FeedItem) : list FeedItem :=
  if String.eqb f "all" then data
  else filter (fun item => String.eqb (source item) f) data.

Definition renderNews : prog unit :=
  s <- get ;;
  let t := currentLang s in
  let shown := filtered (currentFilter s) (display s) in
  if Nat.eqb (length shown) 0
  then set_view (NoNews t)
  else set_view (Cards t shown).

(** A concrete [Math.round(a / n * 100)] for running examples: the exact
    quotient rounded half up.  The script computes it in doubles; the
    development only relies on the two properties stated in section
    [Progress] below. *)
Definition exact_pct (a n : nat) : nat := (200 * a + n) / (2 * n).

Section App.

(** [round_pct a n] stands for [Math.round(a / n * 100)]. *)
Variable round_pct : nat -> nat -> nat.

(** ** The translation batcher ([translateNews]) *)

Definition batchSize : nat := 10.

(** The [for] loop.  [i] is the loop variable, [translatedItems] the array
    the loop pushes to, [t] the wording captured before the loop.  The loop
    test reads the module variable anew at each turn, as the script does.
    The batch is a fresh array that is only read, so its elements stand
    for it.  [fuel] bounds the number of turns: [translateNews] supplies
    the length of the original, which is enough whenever the original is
    not replaced by a longer one while the loop is suspended ([Spin]
    stands for a loop that would go on). *)
Fixpoint translate_loop (fuel i : nat) (t : lang) (translatedItems : ref)
  : prog unit :=
  s <- get ;;
  if i <? length (original s) then
    match fuel with
    | 0 => Spin
    | S fuel' =>
        let batch := slice i (i + batchSize) (original s) in
        resp <- fetch (PostTranslate batch "ru") ;;
        data <- response_json resp ;;
        items <- data_items data ;;
        array_push translatedItems (or_else items batch) ;;
        s' <- get ;;
        let progress :=
          Nat.min 100 (round_pct (i + batchSize) (length (original s'))) in
        set_view (Translating t (Some progress)) ;;
        translate_loop fuel' (i + batchSize) t translatedItems
    end
  else Ret tt.

Definition translateNews : prog unit :=
  s <- get ;;
  let t := currentLang s in
  set_view (Translating t None) ;;
  try_catch
    (translatedItems <- new_array [] ;;
     translate_loop (length (original s)) 0 t translatedItems ;;
     modify (set_newsData translatedItems) ;;
     renderNews)
    (console_error ;;
     s <- get ;;
     copy <- new_array (original s) ;;
     modify (set_newsData copy) ;;
     renderNews).

(** ** The feed loader ([loadNews]) *)

Definition loadNews (forceRefresh : bool) : prog unit :=
  try_catch
    (s <- get ;;
     set_view (Loading (currentLang s)) ;;
     resp <- fetch (GetNews forceRefresh) ;;
     data <- response_json resp ;;
     items <- data_items data ;;
     fetched <- new_array (or_else items []) ;;
     modify (set_originalNewsData fetched) ;;
     s <- get ;;
     copy <- new_array (original s) ;;
     modify (set_newsData copy) ;;
     s <- get ;;
     match currentLang s with
     | Ru => translateNews
     | En => renderNews
     end)
    (console_error ;;
     s <- get ;;
     set_view (LoadError (currentLang s))).

(** ** The handlers of [setupEventListeners] *)

(** [langBtn] click. *)
Definition onLangClick : prog unit :=
  s <- get ;;
  let newLang := match currentLang s with En => Ru | Ru => En end in
  modify (set_currentLang newLang) ;;
  s <- get ;;
  match newLang with
  | Ru =>
      if 0 <? length (original s) then translateNews else Ret tt
  | En =>
      copy <- new_array (original s) ;;
      modify (set_newsData copy) ;;
      renderNews
  end.

(** A filter button's click; [f] is [btn.dataset.source]. *)
Definition onFilterClick (f : string) : prog unit :=
  modify (set_currentFilter f) ;;
  renderNews.

(** [refreshBtn] click. *)
Definition onRefreshClick : prog unit := loadNews true.

(** [DOMContentLoaded]. *)
Definition onPageLoad : prog unit := loadNews false.

End App.

(** ** Running one task to its end *)

(** The backend as the script meets it: the answer to the [n]-th [fetch]
    of the run, [None] when the promise rejects. *)
Definition backend : Type := nat -> request -> option response.

Record world : Type := mkWorld {
  vars  : AppState;
  calls : nat;
  trace : list event
}.

Inductive outcome (A : Type) : Type :=
| Returned (a : A)
| Thrown
| Diverged.

Arguments Returned {A} a.
Arguments Thrown {A}.
Arguments Diverged {A}.

Fixpoint run {A : Type} (be : backend) (p : prog A) (w : world) : outcome A * world :=
  match p with
  | Ret a => (Returned a, w)
  | Throw => (Thrown, w)
  | Spin => (Diverged, w)
  | Get k => run be (k (vars w)) w
  | Put s k => run be k (mkWorld s (calls w) (trace w))
  | Tell e k => run be k (mkWorld (vars w) (calls w) (trace w ++ [e]))
  | Fetch req k =>
      run be (k (be (calls w) req))
          (mkWorld (vars w) (S (calls w)) (trace w ++ [EvFetch req]))
  | ReadJson r k => run be (k (body r)) w
  end.

(** ** The event loop: several tasks in flight *)

Module Loop.

(** A task stopped at one of its two suspension points, with what it will
    do with the answer. *)
Inductive suspended : Type :=
| OnFetch (req : request) (k : option response -> prog unit)
| OnJson (r : response) (k : option json -> prog unit).

Inductive paused : Type :=
| Done (o : outcome unit)
| Waiting (sus : suspended).

(** One turn of a task: everything up to its next suspension point runs
    without interruption. *)
Fixpoint advance (p : prog unit) (s : AppState) (tr : list event)
  : paused * AppState * list event :=
  match p with
  | Ret a => (Done (Returned a), s, tr)
  | Throw => (Done Thrown, s, tr)
  | Spin => (Done Diverged, s, tr)
  | Get k => advance (k s) s tr
  | Put s' k => advance k s' tr
  | Tell e k => advance k s (tr ++ [e])
  | Fetch req k => (Waiting (OnFetch req k), s, tr ++ [EvFetch req])
  | ReadJson r k => (Waiting (OnJson r k), s, tr)
  end.

(** What the outside world can do: the user's clicks, the page load, a
    response (or a network failure) for the pending [fetch] of a task, the
    body of a response having been read. *)
Inductive input : Type :=
| PageLoad
| LangClick
| FilterClick (f : string)
| RefreshClick
| Reply (id : nat) (r : option response)
| BodyRead (id : nat).

(** [started] and [origin] are ghost: the script keeps no record of them. *)
Record task : Type := mkTask {
  tid     : nat;
  started : nat;
  origin  : input;
  waiting : suspended
}.

(** [clock] counts the inputs handled so far; [latest_request] is the
    clock value at the most recent load or locale switch (ghost as well). *)
Record machine : Type := mkMachine {
  mstate         : AppState;
  mtrace         : list event;
  tasks          : list task;
  clock          : nat;
  latest_request : nat
}.

Definition boot (s : AppState) : machine := mkMachine s [] [] 0 0.

Fixpoint find_task (id : nat) (ts : list task) : option task :=
  match ts with
  | [] => None
  | t :: ts' => if Nat.eqb (tid t) id then Some t else find_task id ts'
  end.

Definition remove_task (id : nat) (ts : list task) : list task :=
  filter (fun t => negb (Nat.eqb (tid t) id)) ts.

Section WithRound.

Variable round_pct : nat -> nat -> nat.

Definition handler (i : input) : option (prog unit) :=
  match i with
  | PageLoad => Some (onPageLoad round_pct)
  | LangClick => Some (onLangClick round_pct)
  | FilterClick f => Some (onFilterClick f)
  | RefreshClick => Some (onRefreshClick round_pct)
  | Reply _ _ => None
  | BodyRead _ => None
  end.

(** Does the input start a load or a locale switch? *)
Definition is_request (i : input) : bool :=
  match i with
  | PageLoad | LangClick | RefreshClick => true
  | _ => false
  end.

(** Take the turn [p] of task [id] and file what is left of it. *)
Definition turn (m : machine) (id birth : nat) (o : input) (p : prog unit)
                (latest : nat) : machine :=
  match advance p (mstate m) (mtrace m) with
  | (Done _, s, tr) => mkMachine s tr (remove_task id (tasks m)) (S (clock m)) latest
  | (Waiting sus, s, tr) =>
      mkMachine s tr (remove_task id (tasks m) ++ [mkTask id birth o sus])
                (S (clock m)) latest
  end.

Definition step (m : machine) (i : input) : machine :=
  match i with
  | Reply id r =>
      match find_task id (tasks m) with
      | Some (mkTask _ birth o (OnFetch _ k)) =>
          turn m id birth o (k r) (latest_request m)
      | _ => m
      end
  | BodyRead id =>
      match find_task id (tasks m) with
      | Some (mkTask _ birth o (OnJson r k)) =>
          turn m id birth o (k (body r)) (latest_request m)
      | _ => m
      end
  | _ =>
      match handler i with
      | Some p =>
          turn m (clock m) (clock m) i p
               (if is_request i then clock m else latest_request m)
      | None => m
      end
  end.

Definition exec (m : machine) (ins : list input) : machine :=
  fold_left step ins m.

(** A translation started by a locale switch that a later load or locale
    switch has superseded. *)
Definition stale_translation (m : machine) (id : nat) : Prop :=
  exists t, find_task id (tasks m) = Some t /\
            origin t = LangClick /\
            started t < latest_request m.

(** The guard the specification asks for: whatever a superseded
    translation receives, it leaves the display alone. *)
Definition stale_results_discarded : Prop :=
  forall (s : AppState) (ins : list input) (id : nat) (i : input),
    let m := exec (boot s) ins in
    stale_translation m id ->
    (i = BodyRead id \/ exists r, i = Reply id r) ->
    display (mstate (step m i)) = display (mstate m).

End WithRound.

End Loop.

(** ** Sample data *)

Module Sample.

Definition digit (n : nat) : string :=
  String (Ascii.ascii_of_nat (48 + n mod 10)) EmptyString.

Definition item (n : nat) : FeedItem :=
  mkItem ("https://news.example/" ++ digit (n / 10) ++ digit n)
         (if Nat.even n then "reddit" else "rss")
         "feed" ("Title " ++ digit (n / 10) ++ digit n)
         None None None "2024-01-01T00:00:00Z".

Definition items (n : nat) : list FeedItem := map item (seq 0 n).

(** What a well-behaved translation endpoint does to an item. *)
Definition ru (it : FeedItem) : FeedItem :=
  mkItem (url it) (source it) (source_name it) ("RU: " ++ title it)
         (description it) (author it) (published_at it) (fetched_at it).

Definition ok (d : json) : option response := Some (mkResponse 200 (Some d)).

(** Translates every batch; serves [feed] as the news. *)
Definition translating (feed : list FeedItem) : backend :=
  fun _ req =>
    match req with
    | GetNews _ => ok (JData (Some feed))
    | PostTranslate batch _ => ok (JData (Some (map ru batch)))
    end.

(** As [translating], but the [k]-th call of the run meets a network
    failure. *)
Definition failing_at (k : nat) (feed : list FeedItem) : backend :=
  fun n req => if Nat.eqb n k then None else translating feed n req.

(** Answers every translation request with the first item only. *)
Definition truncating : backend :=
  fun _ req =>
    match req with
    | GetNews _ => ok (JData None)
    | PostTranslate batch _ => ok (JData (Some (map ru (firstn 1 batch))))
    end.

(** Answers every translation request with the batch turned round. *)
Definition reversing : backend :=
  fun _ req =>
    match req with
    | GetNews _ => ok (JData None)
    | PostTranslate batch _ => ok (JData (Some (map ru (rev batch))))
    end.

(** Every request is answered by [r]. *)
Definition constant (r : option response) : backend := fun _ _ => r.

(** A state whose original holds [orig] and whose display is a copy. *)
Definition state (orig : list FeedItem) (l : lang) : AppState :=
  mkState "all" 0 1 l Blank [orig; orig].

Definition start (orig : list FeedItem) (l : lang) : world :=
  mkWorld (state orig l) 0 [].

End Sample.

(** ** The turns of the translation loop, as data *)

(** The [data.items || batch] of one turn, [None] when the turn throws:
    the [fetch] rejects, the body is not JSON, or the body is [null]. *)
Definition batch_reply (be : backend) (n : nat) (batch : list FeedItem)
  : option (list FeedItem) :=
  match be n (PostTranslate batch "ru") with
  | Some r =>
      match body r with
      | Some (JData its) => Some (or_else its batch)
      | _ => None
      end
  | None => None
  end.

Section Turns.

Variable round_pct : nat -> nat -> nat.
Variable be : backend.
Variable t : lang.
Variable orig : list FeedItem.

(** A loop that is at index [i] when the run has made [c] calls: the
    batch, the answer and the progress of its [m]-th turn from there. *)
Definition batch_from (i m : nat) : list FeedItem :=
  slice (i + m * batchSize) (i + m * batchSize + batchSize) orig.

Definition reply_from (i c m : nat) : option (list FeedItem) :=
  batch_reply be (c + m) (batch_from i m).

Definition answer_from (i c m : nat) : list FeedItem :=
  match reply_from i c m with
  | Some l => l
  | None => []
  end.

Definition progress_from (i m : nat) : nat :=
  Nat.min 100 (round_pct (i + m * batchSize + batchSize) (length orig)).

Definition turn_events (i m : nat) : list event :=
  [ EvFetch (PostTranslate (batch_from i m) "ru");
    EvView (Translating t (Some (progress_from i m))) ].

Definition answers (i c n : nat) : list FeedItem :=
  flat_map (answer_from i c) (seq 0 n).

Definition events (i n : nat) : list event :=
  flat_map (turn_events i) (seq 0 n).

End Turns.

(** The progress values a trace shows. *)
Definition progress_of (tr : list event) : list nat :=
  flat_map (fun e => match e with
                     | EvView (Translating _ (Some p)) => [p]
                     | _ => []
                     end) tr.

(** The requests a trace shows. *)
Definition requests_of (tr : list event) : list request :=
  flat_map (fun e => match e with EvFetch req => [req] | _ => [] end) tr.

(** What [renderNews] writes to the page in state [s], and the state it
    leaves. *)
Definition rendering (s : AppState) : view :=
  let shown := filtered (currentFilter s) (display s) in
  if Nat.eqb (length shown) 0 then NoNews (currentLang s)
  else Cards (currentLang s) shown.

Definition rendered (s : AppState) : AppState := set_newsGrid (rendering s) s.

(** [newsData = a], for [a] a new array with the elements [l]. *)
Definition assign_display (l : list FeedItem) (s : AppState) : AppState :=
  set_newsData (length (arrays s)) (set_arrays (arrays s ++ [l]) s).

(** [originalNewsData = a], for [a] a new array with the elements [l]. *)
Definition assign_original (l : list FeedItem) (s : AppState) : AppState :=
  set_originalNewsData (length (arrays s)) (set_arrays (arrays s ++ [l]) s).

(** [a.push(...l)] and a change of the page, as a change of state. *)
Definition pushed (a : ref) (l : list FeedItem) (v : view) (s : AppState)
  : AppState :=
  set_newsGrid v (set_arrays (store (arrays s) a (deref s a ++ l)) s).

(** The store of [s'] is the store of [s] with new arrays after it: no
    array of [s] has changed. *)
Definition extends (s s' : AppState) : Prop :=
  exists more, arrays s' = arrays s ++ more.

(** From [s] to [s'] the variable [originalNewsData] has not been
    assigned, no array of [s] has been written to, and so the original
    has the elements it had. *)
Definition keeps_original (s s' : AppState) : Prop :=
  originalNewsData s' = originalNewsData s /\
  extends s s' /\
  original s' = original s.

(** The world after the [fetch] of a turn at index [i], and after the
    whole turn when the answer is [its]. *)
Definition after_fetch (i : nat) (w : world) : world :=
  mkWorld (vars w) (S (calls w))
          (trace w ++ [EvFetch (PostTranslate
             (slice i (i + batchSize) (original (vars w))) "ru")]).

Definition after_turn (round_pct : nat -> nat -> nat) (t : lang) (i : nat)
    (a : ref) (its : list FeedItem) (w : world) : world :=
  let s := set_arrays (store (arrays (vars w)) a (deref (vars w) a ++ its))
                      (vars w) in
  let p := Nat.min 100 (round_pct (i + batchSize) (length (original s))) in
  mkWorld (set_newsGrid (Translating t (Some p)) s) (S (calls w))
          (trace w ++ [EvFetch (PostTranslate
             (slice i (i + batchSize) (original (vars w))) "ru");
             EvView (Translating t (Some p))]).

(** How the loop started at index [i], pushing to [a], in world [w]
    ended, [r], after [n] answered turns: it ran out of items, or the
    turn after threw. *)
Definition loop_ends (round_pct : nat -> nat -> nat) (be : backend) (t : lang)
    (i : nat) (a : ref) (w : world) (n : nat) (r : outcome unit * world) : Prop :=
  let orig := original (vars w) in
  (forall m, m < n ->
     i + m * batchSize < length orig /\ reply_from be orig i (calls w) m <> None) /\
  vars (snd r) =
    pushed a (answers be orig i (calls w) n) (newsGrid (vars (snd r))) (vars w) /\
  ((length orig <= i + n * batchSize /\
    fst r = Returned tt /\
    calls (snd r) = calls w + n /\
    trace (snd r) = trace w ++ events round_pct t orig i n)
   \/
   (i + n * batchSize < length orig /\
    reply_from be orig i (calls w) n = None /\
    fst r = Thrown /\
    calls (snd r) = calls w + S n /\
    trace (snd r) =
      trace w ++ events round_pct t orig i n
              ++ [EvFetch (PostTranslate (batch_from orig i n) "ru")])).

(** How [translateNews], started in world [w], ended after [n] answered
    batches: with every batch answered, the display is the new array of
    the answers; with batch [n] failing, that array is left behind and
    the display is a new copy of the original. *)
Definition translate_ends (round_pct : nat -> nat -> nat) (be : backend)
    (w : world) (n : nat) (r : outcome unit * world) : Prop :=
  let orig := original (vars w) in
  let t := currentLang (vars w) in
  let got := answers be orig 0 (calls w) n in
  (forall m, m < n ->
     m * batchSize < length orig /\ reply_from be orig 0 (calls w) m <> None) /\
  fst r = Returned tt /\
  ((length orig <= n * batchSize /\
    vars (snd r) = rendered (assign_display got (vars w)) /\
    calls (snd r) = calls w + n /\
    trace (snd r) =
      trace w ++ [EvView (Translating t None)] ++ events round_pct t orig 0 n
              ++ [EvView (newsGrid (vars (snd r)))])
   \/
   (n * batchSize < length orig /\
    reply_from be orig 0 (calls w) n = None /\
    vars (snd r) =
      rendered (assign_display orig
                  (set_arrays (arrays (vars w) ++ [got]) (vars w))) /\
    calls (snd r) = calls w + S n /\
    trace (snd r) =
      trace w ++ [EvView (Translating t None)] ++ events round_pct t orig 0 n
              ++ [EvFetch (PostTranslate (batch_from orig 0 n) "ru");
                  EvConsoleError;
                  EvView (newsGrid (vars (snd r)))])).

(** ** Notions the statements use *)

(** The events a run of [p] from [w] adds to the trace. *)
Definition emitted (A : Type) (be : backend) (p : prog A) (w : world) : list event :=
  skipn (length (trace w)) (trace (snd (run be p w))).

(** The number of turns the loop makes over [l] when no turn throws. *)
Definition batch_count (l : list FeedItem) : nat :=
  (length l + (batchSize - 1)) / batchSize.

(** The translation endpoint's side of its contract: the items it returns
    for a batch carry the urls of the batch, in the same order. *)
Definition honours_contract (be : backend) : Prop :=
  forall (n : nat) (batch : list FeedItem) (target : string)
         (r : response) (l : list FeedItem),
    be n (PostTranslate batch target) = Some r ->
    body r = Some (JData (Some l)) ->
    map url l = map url batch.

(** The items of the complete batches once turn [k] is over, and the
    progress the specification gives for that turn. *)
Definition processed (orig : list FeedItem) (k : nat) : nat :=
  Nat.min (k * batchSize + batchSize) (length orig).

Definition claimed_progress (round_pct : nat -> nat -> nat)
    (orig : list FeedItem) (k : nat) : nat :=
  Nat.min 100 (round_pct (processed orig k) (length orig)).

(** A load that fails: the [fetch] rejects, or the body is not JSON. *)
Definition load_failure (r : option response) : Prop :=
  r = None \/ exists st, r = Some (mkResponse st None).

(** [l1] is [l2] with some elements left out, the others in their order. *)
Inductive subseq (A : Type) : list A -> list A -> Prop :=
| subseq_nil : subseq [] []
| subseq_skip (x : A) (l1 l2 : list A) : subseq l1 l2 -> subseq l1 (x :: l2)
| subseq_keep (x : A) (l1 l2 : list A) : subseq l1 l2 -> subseq (x :: l1) (x :: l2).

(** The display a run would leave if each failed batch were replaced by
    its own items and the loop went on: the behaviour the specification
    describes, for comparison with the script's. *)
Definition spec_display (be : backend) (orig : list FeedItem) (c : nat)
  : list FeedItem :=
  flat_map (fun m => match reply_from be orig 0 c m with
                     | Some l => l
                     | None => batch_from orig 0 m
                     end)
           (seq 0 (batch_count orig)).

(** The world in which [loadNews] goes on once the payload [d] has been
    stored: the loading message is on the page, one request has been
    made, the original is a new array holding [d] and the display a new
    copy of it. *)
Definition loaded (d : list FeedItem) (forceRefresh : bool) (w : world) : world :=
  let t := currentLang (vars w) in
  mkWorld (assign_display d
             (assign_original d (set_newsGrid (Loading t) (vars w))))
          (S (calls w))
          (trace w ++ [EvView (Loading t); EvFetch (GetNews forceRefresh)]).

(** The world [loadNews] ends in when it takes its [catch]. *)
Definition load_failed (forceRefresh : bool) (w : world) : world :=
  let t := currentLang (vars w) in
  mkWorld (set_newsGrid (LoadError t) (vars w))
          (S (calls w))
          (trace w ++ [EvView (Loading t); EvFetch (GetNews forceRefresh);
                       EvConsoleError; EvView (LoadError t)]).

(** * The rest of the page: theme, time labels, settings form *)

(** ** The theme toggle ([applyTheme], the [themeBtn] handler) *)

Module Theme.

(** [themeBtn.textContent]: the sun or the moon. *)
Inductive icon : Type := Sun | Moon.

(** What the theme code reads and writes: the module variable, the
    ['theme'] key of [localStorage] ([None]: no such key), the
    [data-theme] attribute of the root element ([None]: no attribute) and
    the text of the button. *)
Record Page : Type := mkPage {
  currentTheme : string;
  stored       : option string;
  data_theme   : option string;
  themeBtn     : icon
}.

Definition set_currentTheme (t : string) (p : Page) : Page :=
  mkPage t (stored p) (data_theme p) (themeBtn p).
Definition set_stored (v : option string) (p : Page) : Page :=
  mkPage (currentTheme p) v (data_theme p) (themeBtn p).
Definition set_data_theme (a : option string) (p : Page) : Page :=
  mkPage (currentTheme p) (stored p) a (themeBtn p).
Definition set_themeBtn (i : icon) (p : Page) : Page :=
  mkPage (currentTheme p) (stored p) (data_theme p) i.

(** [localStorage.getItem(key) || dflt]: an absent key gives [null], and
    the empty string is falsy too. *)
Definition stored_or (v : option string) (dflt : string) : string :=
  match v with
  | Some s => if String.eqb s "" then dflt else s
  | None => dflt
  end.

Definition applyTheme (theme : string) (p : Page) : Page :=
  let p1 :=
    if String.eqb theme "light"
    then set_themeBtn Sun (set_data_theme (Some "light") p)
    else set_themeBtn Moon (set_data_theme None p) in
  set_currentTheme theme (set_stored (Some theme) p1).

(** The page when the script has been read: [currentTheme] initialised
    from the store; the attribute and the button are as the document has
    them. *)
Definition init (v attr : option string) (btn : icon) : Page :=
  mkPage (stored_or v "dark") v attr btn.

(** The theme part of the [DOMContentLoaded] handler. *)
Definition onContentLoaded (p : Page) : Page := applyTheme (currentTheme p) p.

(** [themeBtn] click. *)
Definition onThemeClick (p : Page) : Page :=
  let newTheme := if String.eqb (currentTheme p) "dark" then "light" else "dark" in
  applyTheme newTheme p.

(** The page after [n] clicks. *)
Fixpoint clicks (n : nat) (p : Page) : Page :=
  match n with
  | 0 => p
  | S n' => onThemeClick (clicks n' p)
  end.

(** What the user sees of the theme. *)
Definition look (p : Page) : option string * icon := (data_theme p, themeBtn p).

End Theme.

(** ** Time labels ([formatTimeAgo], and its call in [createNewsCard]) *)

Module TimeAgo.

(** The text [formatTimeAgo] returns: the empty string, one of the four
    phrases of the locale with its count, or the date in the locale's
    format ([None]: the text of an invalid date). *)
Inductive label : Type :=
| NoLabel
| JustNow (t : lang)
| MinutesAgo (t : lang) (n : Z)
| HoursAgo (t : lang) (n : Z)
| DaysAgo (t : lang) (n : Z)
| LocaleDate (t : lang) (date : option Z).

Section Clock.

(** [parse s] is the time value of [new Date(s)], in milliseconds since
    the epoch, [None] when it is [NaN]; [now] is that of [new Date()]. *)
Variable parse : string -> option Z.
Variable now : Z.

(** Time values are integers below [2^53], so [now - date] is exact, and
    on such a value [Math.floor(diffMs / d)] is the floor of the exact
    quotient for the three divisors used.  On an invalid date every
    comparison with [NaN] is false and the last [return] is taken. *)
Definition formatTimeAgo (currentLang : lang) (dateString : string) : label :=
  if String.eqb dateString "" then NoLabel else
  match parse dateString with
  | None => LocaleDate currentLang None
  | Some date =>
      let diffMs := (now - date)%Z in
      let diffMins := (diffMs / 60000)%Z in
      let diffHours := (diffMs / 3600000)%Z in
      let diffDays := (diffMs / 86400000)%Z in
      match currentLang with
      | Ru =>
          if (diffMins <? 1)%Z then JustNow Ru
          else if (diffMins <? 60)%Z then MinutesAgo Ru diffMins
          else if (diffHours <? 24)%Z then HoursAgo Ru diffHours
          else if (diffDays <? 30)%Z then DaysAgo Ru diffDays
          else LocaleDate Ru (Some date)
      | En =>
          if (diffMins <? 1)%Z then JustNow En
          else if (diffMins <? 60)%Z then MinutesAgo En diffMins
          else if (diffHours <? 24)%Z then HoursAgo En diffHours
          else if (diffDays <? 30)%Z then DaysAgo En diffDays
          else LocaleDate En (Some date)
      end
  end.

(** [item.published_at || item.fetched_at]. *)
Definition date_of (item : FeedItem) : string :=
  match published_at item with
  | Some s => if String.eqb s "" then fetched_at item else s
  | None => fetched_at item
  end.

(** The [timeAgo] of [createNewsCard]. *)
Definition card_time (currentLang : lang) (item : FeedItem) : label :=
  formatTimeAgo currentLang (date_of item).

End Clock.

(** The count a label shows, if it shows one. *)
Definition count (l : label) : option Z :=
  match l with
  | MinutesAgo _ n | HoursAgo _ n | DaysAgo _ n => Some n
  | _ => None
  end.

End TimeAgo.

(** ** The settings form *)

Module Settings.

(** An entry of [config.rss_feeds].  A field that is missing counts as
    the empty string: the script only tests it for truth and passes it
    to [escapeHtml], which treat the two alike. *)
Record Feed : Type := mkFeed {
  name : string;
  url  : string
}.

(** An element of a string array: [None] is a hole, which an assignment
    beyond the end of an array leaves behind. *)
Definition cell : Type := option string.

(** [config], as far as the form uses it: a JSON object whose three keys
    hold arrays when they are present ([None]: the key is absent, so
    that reading it gives [undefined]). *)
Record Config : Type := mkConfig {
  subreddits          : option (list cell);
  rss_feeds           : option (list Feed);
  hackernews_keywords : option (list cell)
}.

Definition set_subreddits (v : option (list cell)) (c : Config) : Config :=
  mkConfig v (rss_feeds c) (hackernews_keywords c).
Definition set_rss_feeds (v : option (list Feed)) (c : Config) : Config :=
  mkConfig (subreddits c) v (hackernews_keywords c).
Definition set_hackernews_keywords (v : option (list cell)) (c : Config) : Config :=
  mkConfig (subreddits c) (rss_feeds c) v.

(** [let config = {}]. *)
Definition empty_config : Config := mkConfig None None None.

(** The [data-type] of an input: ['subreddits'], ['rss_name'],
    ['rss_url'], ['hackernews_keywords']. *)
Inductive input_type : Type :=
| TSubreddits
| TRssName
| TRssUrl
| TKeywords.

(** The [type] argument of [addSettingsItem] and [removeSettingsItem]:
    ['subreddits'], ['rss_feeds'], ['hackernews_keywords']. *)
Inductive list_key : Type :=
| KSubreddits
| KRssFeeds
| KKeywords.

(** A [.settings-input] element: its two data attributes and what the
    field holds now. *)
Record Input : Type := mkInput {
  data_type  : input_type;
  data_index : nat;
  value      : string
}.

(** The form: [config], the inputs of the three list containers, and
    whether [modalOverlay] has the class [active]. *)
Record Page : Type := mkPage {
  config         : Config;
  subredditsList : list Input;
  rssFeedsList   : list Input;
  keywordsList   : list Input;
  modalOverlay   : bool
}.

Definition set_config (c : Config) (p : Page) : Page :=
  mkPage c (subredditsList p) (rssFeedsList p) (keywordsList p) (modalOverlay p).
Definition set_modalOverlay (b : bool) (p : Page) : Page :=
  mkPage (config p) (subredditsList p) (rssFeedsList p) (keywordsList p) b.

(** How a function of the form ends: normally, or by a [TypeError] on
    reading a property of [undefined]; either way with the state it has
    reached. *)
Inductive result (A : Type) : Type :=
| Ok (a : A)
| TypeError (a : A).

(** What the form does to the outside. *)
Inductive effect : Type :=
| GetConfig
| PostConfig (body : Config)
| ConsoleError
| Alert
| LoadNews (forceRefresh : bool).

(** *** Arrays *)

(** [x || []]. *)
Definition or_empty (A : Type) (x : option (list A)) : list A :=
  match x with
  | Some l => l
  | None => []
  end.

(** Is a string truthy? *)
Definition truthy (s : string) : bool := negb (String.eqb s "").

(** [a[i] = v]: inside the array the element is replaced; at its end the
    array grows by one; beyond, it grows with holes in between. *)
Fixpoint array_set (a : list cell) (i : nat) (v : string) : list cell :=
  match i, a with
  | 0, [] => [Some v]
  | 0, _ :: a' => Some v :: a'
  | S i', [] => None :: array_set [] i' v
  | S i', x :: a' => x :: array_set a' i' v
  end.

(** The array with its element [i] replaced by [x] ([i] inside it). *)
Fixpoint replace (A : Type) (a : list A) (i : nat) (x : A) : list A :=
  match a, i with
  | [], _ => []
  | _ :: a', 0 => x :: a'
  | y :: a', S i' => y :: replace a' i' x
  end.

(** [a.splice(index, 1)] for an index that is not negative. *)
Definition splice1 (A : Type) (a : list A) (index : nat) : list A :=
  firstn index a ++ skipn (S index) a.

(** [a.filter(s => s)] on strings: holes are skipped, empty strings
    dropped. *)
Definition keep_truthy (a : list cell) : list cell :=
  filter (fun c => match c with Some s => truthy s | None => false end) a.

(** [a.filter(f => f.name && f.url)]. *)
Definition keep_named (a : list Feed) : list Feed :=
  filter (fun f => truthy (name f) && truthy (url f)) a.

Section Form.

(** [trim s] is [s.trim()].  [attribute_value s] is the value a browser
    gives an input written as [value="${escapeHtml(s)}"] for a non-empty
    [s].  [document_order] arranges the inputs of the three containers as
    [querySelectorAll('.settings-input')] lists them.

    [escapeHtml] leaves a double quote as it is, so a string that holds
    one ends the attribute early and may bring markup of its own; the
    rows below are those of strings that do not. *)
Variable trim : string -> string.
Variable attribute_value : string -> string.
Variable document_order : list Input -> list Input -> list Input -> list Input.

(** The value of an input written as [value="${escapeHtml(text)}"]:
    [escapeHtml] returns the empty string for an empty text. *)
Definition input_value (text : string) : string :=
  if String.eqb text "" then "" else attribute_value text.

(** *** [renderSettingsLists] *)

(** The inputs of a list of strings, from index [i] on: [map] skips the
    holes and [join] writes nothing for them. *)
Fixpoint string_rows (ty : input_type) (i : nat) (a : list cell) : list Input :=
  match a with
  | [] => []
  | Some s :: a' => mkInput ty i (input_value s) :: string_rows ty (S i) a'
  | None :: a' => string_rows ty (S i) a'
  end.

(** The inputs of the feeds: a name and a url for each. *)
Fixpoint feed_rows (i : nat) (a : list Feed) : list Input :=
  match a with
  | [] => []
  | f :: a' =>
      mkInput TRssName i (input_value (name f)) ::
      mkInput TRssUrl i (input_value (url f)) :: feed_rows (S i) a'
  end.

Definition renderSettingsLists (p : Page) : Page :=
  let c := config p in
  mkPage c
         (string_rows TSubreddits 0 (or_empty (subreddits c)))
         (feed_rows 0 (or_empty (rss_feeds c)))
         (string_rows TKeywords 0 (or_empty (hackernews_keywords c)))
         (modalOverlay p).

Definition openSettings (p : Page) : Page :=
  set_modalOverlay true (renderSettingsLists p).

Definition closeSettings (p : Page) : Page := set_modalOverlay false p.

(** *** [loadConfig] *)

(** [reply] is what the request comes to: [None] when [fetch] rejects,
    [Some None] when the body is not JSON, else the object read. *)
Definition loadConfig (reply : option (option Config)) (p : Page)
  : Page * list effect :=
  match reply with
  | Some (Some c) => (set_config c p, [GetConfig])
  | _ => (p, [GetConfig; ConsoleError])
  end.

(** *** [addSettingsItem], [removeSettingsItem] *)

Definition addSettingsItem (type : list_key) (p : Page) : Page :=
  let c := config p in
  let c' :=
    match type with
    | KSubreddits =>
        set_subreddits (Some (or_empty (subreddits c) ++ [Some ""])) c
    | KRssFeeds =>
        set_rss_feeds (Some (or_empty (rss_feeds c) ++ [mkFeed "" ""])) c
    | KKeywords =>
        set_hackernews_keywords
          (Some (or_empty (hackernews_keywords c) ++ [Some ""])) c
    end in
  renderSettingsLists (set_config c' p).

(** [index] is the one written into the [onclick] of a rendered row. *)
Definition removeSettingsItem (type : list_key) (index : nat) (p : Page)
  : result Page :=
  let c := config p in
  let spliced :=
    match type with
    | KSubreddits =>
        match subreddits c with
        | Some a => Some (set_subreddits (Some (splice1 a index)) c)
        | None => None
        end
    | KRssFeeds =>
        match rss_feeds c with
        | Some a => Some (set_rss_feeds (Some (splice1 a index)) c)
        | None => None
        end
    | KKeywords =>
        match hackernews_keywords c with
        | Some a => Some (set_hackernews_keywords (Some (splice1 a index)) c)
        | None => None
        end
    end in
  match spliced with
  | Some c' => Ok (renderSettingsLists (set_config c' p))
  | None => TypeError p
  end.

(** *** [saveSettings] *)

(** The body of the [forEach]: one input written into [config]. *)
Definition collect (input : Input) (c : Config) : result Config :=
  let index := data_index input in
  let v := trim (value input) in
  match data_type input with
  | TSubreddits =>
      match subreddits c with
      | Some a => Ok (set_subreddits (Some (array_set a index v)) c)
      | None => TypeError c
      end
  | TRssName =>
      match rss_feeds c with
      | Some a =>
          match nth_error a index with
          | Some f => Ok (set_rss_feeds (Some (replace a index (mkFeed v (url f)))) c)
          | None => TypeError c
          end
      | None => TypeError c
      end
  | TRssUrl =>
      match rss_feeds c with
      | Some a =>
          match nth_error a index with
          | Some f => Ok (set_rss_feeds (Some (replace a index (mkFeed (name f) v))) c)
          | None => TypeError c
          end
      | None => TypeError c
      end
  | TKeywords =>
      match hackernews_keywords c with
      | Some a => Ok (set_hackernews_keywords (Some (array_set a index v)) c)
      | None => TypeError c
      end
  end.

Fixpoint forEach (inputs : list Input) (c : Config) : result Config :=
  match inputs with
  | [] => Ok c
  | input :: rest =>
      match collect input c with
      | Ok c' => forEach rest c'
      | TypeError c' => TypeError c'
      end
  end.

(** The three [filter] assignments. *)
Definition drop_empty (c : Config) : result Config :=
  match subreddits c with
  | None => TypeError c
  | Some s =>
      let c1 := set_subreddits (Some (keep_truthy s)) c in
      match rss_feeds c1 with
      | None => TypeError c1
      | Some f =>
          let c2 := set_rss_feeds (Some (keep_named f)) c1 in
          match hackernews_keywords c2 with
          | None => TypeError c2
          | Some k => Ok (set_hackernews_keywords (Some (keep_truthy k)) c2)
          end
      end
  end.

Definition querySelectorAll (p : Page) : list Input :=
  document_order (subredditsList p) (rssFeedsList p) (keywordsList p).

(** [saveSettings] up to its [fetch]: the body of the request is the
    [config] of the page it returns. *)
Definition saveSettings_request (p : Page) : result Page :=
  match forEach (querySelectorAll p) (config p) with
  | TypeError c => TypeError (set_config c p)
  | Ok c =>
      match drop_empty c with
      | TypeError c' => TypeError (set_config c' p)
      | Ok c' => Ok (set_config c' p)
      end
  end.

(** [saveSettings] from the settling of its [fetch] on: [reply] is the
    response, [None] when the promise rejects.  [loadNews(true)] is
    started and not awaited. *)
Definition saveSettings_reply (reply : option response) (p : Page)
  : Page * list effect :=
  match reply with
  | Some _ => (closeSettings p, [LoadNews true])
  | None => (p, [ConsoleError; Alert])
  end.

(** A whole [saveSettings] with nothing happening while the request is
    away.  [TypeError]: the promise it returns rejects. *)
Definition saveSettings (reply : option response) (p : Page)
  : result Page * list effect :=
  match saveSettings_request p with
  | TypeError p' => (TypeError p', [])
  | Ok p' =>
      let (p'', after) := saveSettings_reply reply p' in
      (Ok p'', PostConfig (config p') :: after)
  end.

End Form.

(** *** Notions for the form *)

(** The three lists are there, without holes. *)
Definition complete (c : Config) : Prop :=
  exists s f k,
    c = mkConfig (Some (map Some s)) (Some f) (Some (map Some k)).

(** Nothing in the config would be dropped by a save. *)
Definition clean (c : Config) : Prop :=
  exists s f k,
    c = mkConfig (Some (map Some s)) (Some f) (Some (map Some k)) /\
    Forall (fun x => x <> "") s /\
    Forall (fun x => name x <> "" /\ url x <> "") f /\
    Forall (fun x => x <> "") k.

(** The strings of a config. *)
Definition strings_of (c : Config) : list string :=
  flat_map (fun x => match x with Some s => [s] | None => [] end)
           (or_empty (subreddits c)) ++
  flat_map (fun f => [name f; url f]) (or_empty (rss_feeds c)) ++
  flat_map (fun x => match x with Some s => [s] | None => [] end)
           (or_empty (hackernews_keywords c)).

(** The place in the config an input is written to: its type and index. *)
Definition slot (i : Input) : input_type * nat := (data_type i, data_index i).

Definition slots (l : list Input) : list (input_type * nat) := map slot l.

(** The inputs have the types and indices of the rows
    [renderSettingsLists] makes for the config; what they hold is up to
    the user. *)
Definition rows_match (p : Page) : Prop :=
  slots (subredditsList p) =
    map (fun i => (TSubreddits, i))
        (seq 0 (length (or_empty (subreddits (config p))))) /\
  slots (rssFeedsList p) =
    flat_map (fun i => [(TRssName, i); (TRssUrl, i)])
             (seq 0 (length (or_empty (rss_feeds (config p))))) /\
  slots (keywordsList p) =
    map (fun i => (TKeywords, i))
        (seq 0 (length (or_empty (hackernews_keywords (config p))))).

(** The feeds the inputs of [rssFeedsList] spell, taken two by two. *)
Fixpoint feeds_typed (trim : string -> string) (l : list Input) : list Feed :=
  match l with
  | n :: u :: rest => mkFeed (trim (value n)) (trim (value u)) :: feeds_typed trim rest
  | _ => []
  end.

(** What the config holds at a place ([None]: nothing, or a hole). *)
Definition read (sl : input_type * nat) (c : Config) : option string :=
  match fst sl with
  | TSubreddits =>
      match nth_error (or_empty (subreddits c)) (snd sl) with
      | Some (Some v) => Some v
      | _ => None
      end
  | TRssName => option_map name (nth_error (or_empty (rss_feeds c)) (snd sl))
  | TRssUrl => option_map url (nth_error (or_empty (rss_feeds c)) (snd sl))
  | TKeywords =>
      match nth_error (or_empty (hackernews_keywords c)) (snd sl) with
      | Some (Some v) => Some v
      | _ => None
      end
  end.

(** One of the three keys is absent. *)
Definition incomplete (c : Config) : Prop :=
  subreddits c = None \/ rss_feeds c = None \/ hackernews_keywords c = None.

(** The number of entries of a list of the config, when it is there. *)
Definition entries (type : list_key) (c : Config) : option nat :=
  match type with
  | KSubreddits => option_map (@length cell) (subreddits c)
  | KRssFeeds => option_map (@length Feed) (rss_feeds c)
  | KKeywords => option_map (@length cell) (hackernews_keywords c)
  end.

(** What the inputs of a list of strings spell. *)
Definition strings_typed (trim : string -> string) (l : list Input) : list cell :=
  map (fun i => Some (trim (value i))) l.

(** The three lists are there, with [ns], [nf] and [nk] entries. *)
Definition sized (ns nf nk : nat) (c : Config) : Prop :=
  exists s f k,
    c = mkConfig (Some s) (Some f) (Some k) /\
    length s = ns /\ length f = nf /\ length k = nk.

(** The index of an input lies inside the list it is written to. *)
Definition fits (ns nf nk : nat) (i : Input) : Prop :=
  match data_type i with
  | TSubreddits => data_index i < ns
  | TRssName | TRssUrl => data_index i < nf
  | TKeywords => data_index i < nk
  end.

(** The config the rows spell, every field trimmed, blank rows
    included; and the same without the rows a save drops. *)
Definition typed (trim : string -> string) (p : Page) : Config :=
  mkConfig (Some (strings_typed trim (subredditsList p)))
           (Some (feeds_typed trim (rssFeedsList p)))
           (Some (strings_typed trim (keywordsList p))).

Definition kept (trim : string -> string) (p : Page) : Config :=
  mkConfig (Some (keep_truthy (strings_typed trim (subredditsList p))))
           (Some (keep_named (feeds_typed trim (rssFeedsList p))))
           (Some (keep_truthy (strings_typed trim (keywordsList p)))).

(** The Add buttons of [types] clicked one after the other. *)
Fixpoint add_all (attribute_value : string -> string) (types : list list_key)
    (p : Page) : Page :=
  match types with
  | [] => p
  | type :: rest =>
      add_all attribute_value rest (addSettingsItem attribute_value type p)
  end.

(** [querySelectorAll] lists the inputs of the three containers, all of
    them and nothing else. *)
Definition lists_the_inputs
    (document_order : list Input -> list Input -> list Input -> list Input)
  : Prop :=
  forall a b c x, In x (document_order a b c) <-> In x (a ++ b ++ c).

End Settings.

(** * Properties *)

(** ** Running programs *)

Lemma run_bind (A B : Type) (be : backend) (p : prog A) (f : A -> prog B) :
  forall w,
    run be (bind p f) w =
    match run be p w with
    | (Returned a, w') => run be (f a) w'
    | (Thrown, w') => (Thrown, w')
    | (Diverged, w') => (Diverged, w')
    end.
Proof.
  induction p as [a| | |k IH|s k IH|e k IH|req k IH|r k IH]; intro w; cbn;
    auto.
Qed.

Lemma run_try_catch (A : Type) (be : backend) (p h : prog A) :
  forall w,
    run be (try_catch p h) w =
    match run be p w with
    | (Thrown, w') => run be h w'
    | other => other
    end.
Proof.
  induction p as [a| | |k IH|s k IH|e k IH|req k IH|r k IH]; intro w; cbn;
    auto.
Qed.

Lemma run_get (be : backend) (w : world) : run be get w = (Returned (vars w), w).
Proof. reflexivity. Qed.

Lemma run_modify (be : backend) (f : AppState -> AppState) (w : world) :
  run be (modify f) w = (Returned tt, mkWorld (f (vars w)) (calls w) (trace w)).
Proof. reflexivity. Qed.

Lemma run_set_view (be : backend) (v : view) (w : world) :
  run be (set_view v) w =
  (Returned tt, mkWorld (set_newsGrid v (vars w)) (calls w) (trace w ++ [EvView v])).
Proof. reflexivity. Qed.

Lemma run_console_error (be : backend) (w : world) :
  run be console_error w =
  (Returned tt, mkWorld (vars w) (calls w) (trace w ++ [EvConsoleError])).
Proof. reflexivity. Qed.

Lemma run_new_array (be : backend) (l : list FeedItem) (w : world) :
  run be (new_array l) w =
  (Returned (length (arrays (vars w))),
   mkWorld (set_arrays (arrays (vars w) ++ [l]) (vars w)) (calls w) (trace w)).
Proof. reflexivity. Qed.

Lemma run_fetch (be : backend) (req : request) (w : world) :
  run be (fetch req) w =
  let w' := mkWorld (vars w) (S (calls w)) (trace w ++ [EvFetch req]) in
  match be (calls w) req with
  | Some resp => (Returned resp, w')
  | None => (Thrown, w')
  end.
Proof. cbn. destruct (be (calls w) req); reflexivity. Qed.

Lemma run_response_json (be : backend) (resp : response) (w : world) :
  run be (response_json resp) w =
  match body resp with
  | Some j => (Returned j, w)
  | None => (Thrown, w)
  end.
Proof. cbn. destruct (body resp); reflexivity. Qed.

Lemma run_data_items (be : backend) (data : json) (w : world) :
  run be (data_items data) w =
  match data with
  | JNull => (Thrown, w)
  | JData items => (Returned items, w)
  end.
Proof. destruct data; reflexivity. Qed.

Lemma run_renderNews (be : backend) (w : world) :
  run be renderNews w =
  (Returned tt,
   mkWorld (rendered (vars w)) (calls w)
           (trace w ++ [EvView (rendering (vars w))])).
Proof.
  unfold renderNews, rendered, rendering. cbn.
  destruct (Nat.eqb _ 0); reflexivity.
Qed.

(** ** The store *)

Lemma store_length (h : list (list FeedItem)) (r : ref) (l : list FeedItem) :
  length (store h r l) = length h.
Proof.
  revert r. induction h as [|x h IH]; intros [|r]; cbn; auto.
Qed.

Lemma nth_store_same (h : list (list FeedItem)) (r : ref) (l : list FeedItem) :
  r < length h -> nth r (store h r l) [] = l.
Proof.
  revert r. induction h as [|x h IH]; intros [|r] H; cbn in *; try lia; auto.
  apply IH. lia.
Qed.

Lemma nth_store_other (h : list (list FeedItem)) (r r' : ref) (l : list FeedItem) :
  r' <> r -> nth r' (store h r l) [] = nth r' h [].
Proof.
  revert r r'. induction h as [|x h IH]; intros [|r] [|r'] H; cbn; auto;
    try contradiction.
Qed.

Lemma store_store (h : list (list FeedItem)) (r : ref) (l1 l2 : list FeedItem) :
  store (store h r l1) r l2 = store h r l2.
Proof.
  revert r. induction h as [|x h IH]; intros [|r]; cbn; auto.
  rewrite IH. reflexivity.
Qed.

Lemma store_same (h : list (list FeedItem)) (r : ref) :
  store h r (nth r h []) = h.
Proof.
  revert r. induction h as [|x h IH]; intros [|r]; cbn; auto.
  rewrite IH. reflexivity.
Qed.

Lemma store_app_mid (h rest : list (list FeedItem)) (x l : list FeedItem) :
  store (h ++ x :: rest) (length h) l = h ++ l :: rest.
Proof. induction h as [|y h IH]; cbn; [reflexivity|]. rewrite IH. reflexivity. Qed.

Lemma store_app_last (h : list (list FeedItem)) (x l : list FeedItem) :
  store (h ++ [x]) (length h) l = h ++ [l].
Proof. apply store_app_mid. Qed.

Lemma pushed_nil (a : ref) (s : AppState) :
  pushed a [] (newsGrid s) s = s.
Proof.
  unfold pushed, deref. rewrite app_nil_r, store_same.
  destruct s; reflexivity.
Qed.

Lemma pushed_pushed (a : ref) (l1 l2 : list FeedItem) (v1 v2 : view)
    (s : AppState) :
  a < length (arrays s) ->
  pushed a l2 v2 (pushed a l1 v1 s) = pushed a (l1 ++ l2) v2 s.
Proof.
  intro H. unfold pushed, deref. cbn [arrays set_newsGrid set_arrays].
  rewrite nth_store_same by exact H.
  rewrite store_store, app_assoc. reflexivity.
Qed.

Lemma original_pushed (a : ref) (l : list FeedItem) (v : view) (s : AppState) :
  a <> originalNewsData s -> original (pushed a l v s) = original s.
Proof.
  intro H. unfold original, pushed, deref.
  cbn [arrays originalNewsData set_newsGrid set_arrays].
  apply nth_store_other. auto.
Qed.

(** ** The translation loop *)

Section LoopFacts.

Variable round_pct : nat -> nat -> nat.
Variable be : backend.
Variable t : lang.

Lemma loop_exit (fuel i : nat) (a : ref) (w : world) :
  length (original (vars w)) <= i ->
  run be (translate_loop round_pct fuel i t a) w = (Returned tt, w).
Proof.
  intro H. apply Nat.ltb_ge in H.
  destruct fuel; cbn -[Nat.ltb]; rewrite H; reflexivity.
Qed.

Lemma loop_turn (fuel i : nat) (a : ref) (w : world) :
  i < length (original (vars w)) ->
  run be (translate_loop round_pct (S fuel) i t a) w =
  match batch_reply be (calls w) (slice i (i + batchSize) (original (vars w))) with
  | Some its =>
      run be (translate_loop round_pct fuel (i + batchSize) t a)
          (after_turn round_pct t i a its w)
  | None => (Thrown, after_fetch i w)
  end.
Proof.
  intro H. apply Nat.ltb_lt in H.
  cbn -[batchSize slice Nat.min Nat.ltb]. rewrite H.
  unfold batch_reply, after_turn, after_fetch.
  destruct (be (calls w) _) as [[st [[|its]|]]|] eqn:E;
    cbn -[batchSize slice Nat.min Nat.ltb]; rewrite E;
    cbn -[batchSize slice Nat.min Nat.ltb]; try reflexivity.
  rewrite <- app_assoc. reflexivity.
Qed.

End LoopFacts.

Lemma flat_map_seq_S (A : Type) (f : nat -> list A) (n : nat) :
  flat_map f (seq 0 (S n)) = f 0 ++ flat_map (fun m => f (S m)) (seq 0 n).
Proof.
  cbn. f_equal. rewrite <- seq_shift.
  rewrite !flat_map_concat_map, map_map. reflexivity.
Qed.

Section Shift.
Variable round_pct : nat -> nat -> nat.
Variable be : backend.
Variable t : lang.
Variable orig : list FeedItem.

Lemma batch_from_0 (i : nat) : batch_from orig i 0 = slice i (i + batchSize) orig.
Proof. unfold batch_from. cbn [Nat.mul]. rewrite Nat.add_0_r. reflexivity. Qed.

Lemma batch_from_shift (i m : nat) :
  batch_from orig (i + batchSize) m = batch_from orig i (S m).
Proof.
  unfold batch_from.
  replace (i + S m * batchSize) with (i + batchSize + m * batchSize) by lia.
  reflexivity.
Qed.

Lemma reply_from_shift (i c m : nat) :
  reply_from be orig (i + batchSize) (S c) m = reply_from be orig i c (S m).
Proof.
  unfold reply_from. rewrite batch_from_shift.
  replace (S c + m) with (c + S m) by lia. reflexivity.
Qed.

Lemma answers_S (i c n : nat) :
  answers be orig i c (S n) =
  answer_from be orig i c 0 ++ answers be orig (i + batchSize) (S c) n.
Proof.
  unfold answers. rewrite flat_map_seq_S. f_equal.
  apply flat_map_ext. intro m. unfold answer_from.
  rewrite reply_from_shift. reflexivity.
Qed.

Lemma events_S (i n : nat) :
  events round_pct t orig i (S n) =
  turn_events round_pct t orig i 0 ++ events round_pct t orig (i + batchSize) n.
Proof.
  unfold events. rewrite flat_map_seq_S. f_equal.
  apply flat_map_ext. intro m. unfold turn_events, progress_from.
  rewrite batch_from_shift.
  replace (i + S m * batchSize) with (i + batchSize + m * batchSize) by lia.
  reflexivity.
Qed.

Lemma loop_summary (a : ref) (fuel : nat) :
  forall (i : nat) (w : world),
    original (vars w) = orig ->
    a <> originalNewsData (vars w) ->
    a < length (arrays (vars w)) ->
    length orig - i <= fuel ->
    exists n, loop_ends round_pct be t i a w n
                (run be (translate_loop round_pct fuel i t a) w).
Proof.
  induction fuel as [|fuel IH]; intros i w Ho Ha Hlen Hf.
  - exists 0. rewrite loop_exit by (rewrite Ho; lia).
    unfold loop_ends. rewrite Ho. cbn [fst snd]. split; [intros m Hm; lia|].
    split; [symmetry; apply pushed_nil|]. left.
    unfold events. cbn. rewrite app_nil_r. repeat split; lia.
  - destruct (Nat.le_gt_cases (length orig) i) as [Hle|Hlt].
    + exists 0. rewrite loop_exit by (rewrite Ho; lia).
      unfold loop_ends. rewrite Ho. cbn [fst snd]. split; [intros m Hm; lia|].
      split; [symmetry; apply pushed_nil|]. left.
      unfold events. cbn. rewrite app_nil_r. repeat split; lia.
    + rewrite loop_turn by (rewrite Ho; exact Hlt). rewrite Ho.
      destruct (batch_reply be (calls w) (slice i (i + batchSize) orig))
        as [its|] eqn:E.
      * set (w' := after_turn round_pct t i a its w).
        assert (Hv' : vars w' =
                      pushed a its (newsGrid (vars w')) (vars w)) by reflexivity.
        assert (Ho' : original (vars w') = orig).
        { rewrite Hv', original_pushed by exact Ha. exact Ho. }
        destruct (IH (i + batchSize) w') as [n Hn].
        { exact Ho'. }
        { rewrite Hv'. exact Ha. }
        { rewrite Hv'. unfold pushed. cbn [arrays set_newsGrid set_arrays].
          rewrite store_length. exact Hlen. }
        { unfold batchSize. lia. }
        exists (S n). revert Hn. unfold loop_ends.
        set (r := run be _ _). rewrite Ho', Ho.
        change (calls w') with (S (calls w)).
        intros (Hall & Hvars & Hend).
        assert (E0 : reply_from be orig i (calls w) 0 = Some its).
        { unfold reply_from. rewrite batch_from_0, Nat.add_0_r. exact E. }
        split.
        { intros [|m] Hm.
          - split; [lia|]. rewrite E0. discriminate.
          - rewrite <- reply_from_shift.
            destruct (Hall m) as [H1 H2]; [lia|]. split; [lia|exact H2]. }
        rewrite answers_S, events_S. unfold answer_from at 1. rewrite E0.
        split.
        { rewrite Hvars, Hv', pushed_pushed by exact Hlen. reflexivity. }
        assert (Et : trace w' = trace w ++ turn_events round_pct t orig i 0).
        { unfold w', after_turn, turn_events, progress_from.
          cbn [trace]. rewrite batch_from_0. cbn [Nat.mul].
          rewrite Nat.add_0_r.
          change (original (set_arrays _ (vars w)))
            with (original (pushed a its (newsGrid (vars w)) (vars w))).
          rewrite original_pushed by exact Ha. rewrite Ho. reflexivity. }
        rewrite Et in Hend.
        destruct Hend as [(H1 & H2 & H3 & H4)|(H1 & H2 & H3 & H4 & H5)].
        { left. repeat split; [lia|exact H2|lia|].
          rewrite H4, <- app_assoc. reflexivity. }
        { right. repeat split; [lia| |exact H3|lia|].
          - rewrite <- reply_from_shift. exact H2.
          - rewrite H5, <- batch_from_shift, <- !app_assoc. reflexivity. }
      * exists 0. unfold loop_ends. cbn [fst snd after_fetch vars calls trace].
        rewrite Ho. split; [intros m Hm; lia|].
        split; [symmetry; apply pushed_nil|]. right.
        unfold events. cbn [seq flat_map]. rewrite batch_from_0.
        repeat split; try lia.
        unfold reply_from. rewrite batch_from_0, Nat.add_0_r. exact E.
Qed.

End Shift.

(** ** [translateNews] as a whole *)

Lemma deref_app_old (s : AppState) (more : list (list FeedItem)) (r : ref) :
  r < length (arrays s) ->
  deref (set_arrays (arrays s ++ more) s) r = deref s r.
Proof. intro H. unfold deref. cbn [arrays set_arrays]. apply app_nth1, H. Qed.

Lemma display_rendered_assign (l : list FeedItem) (s : AppState) :
  display (rendered (assign_display l s)) = l.
Proof.
  unfold display, deref, rendered, assign_display.
  cbn [newsData arrays set_newsGrid set_newsData set_arrays].
  apply nth_middle.
Qed.

Lemma original_rendered_assign (l : list FeedItem) (s : AppState) :
  originalNewsData s < length (arrays s) ->
  original (rendered (assign_display l s)) = original s.
Proof.
  intro H. unfold original, deref, rendered, assign_display.
  cbn [originalNewsData arrays set_newsGrid set_newsData set_arrays].
  apply app_nth1, H.
Qed.

Lemma rendered_ext (s s' : AppState) :
  currentFilter s = currentFilter s' ->
  newsData s = newsData s' ->
  originalNewsData s = originalNewsData s' ->
  currentLang s = currentLang s' ->
  arrays s = arrays s' ->
  rendered s = rendered s'.
Proof.
  destruct s, s'. cbn. intros -> -> -> -> ->. reflexivity.
Qed.

Lemma translateNews_summary (round_pct : nat -> nat -> nat) (be : backend)
    (w : world) :
  originalNewsData (vars w) < length (arrays (vars w)) ->
  exists n, translate_ends round_pct be w n (run be (translateNews round_pct) w).
Proof.
  intro Hwf. unfold translateNews.
  rewrite run_bind, run_get, run_bind, run_set_view, run_try_catch, run_bind,
    run_new_array, run_bind.
  cbn [vars calls trace].
  set (t := currentLang (vars w)).
  set (orig := original (vars w)).
  set (a := length (arrays (set_newsGrid (Translating t None) (vars w)))).
  set (w0 := mkWorld _ _ _).
  assert (Ho : original (vars w0) = orig).
  { unfold w0, original. cbn [vars]. rewrite deref_app_old; [reflexivity|].
    exact Hwf. }
  destruct (@loop_summary round_pct be t orig a (length orig) 0 w0)
    as [n Hn]; [exact Ho| | |lia|].
  { unfold a. cbn. lia. }
  { unfold a, w0. cbn. rewrite length_app. cbn. lia. }
  exists n. revert Hn. unfold loop_ends, translate_ends.
  destruct (run be (translate_loop _ _ _ _ _) w0) as [o w1].
  rewrite Ho. fold orig t. cbn [fst snd]. change (calls w0) with (calls w).
  change (trace w0) with (trace w ++ [EvView (Translating t None)]).
  intros (Hall & Hvars & Hend).
  assert (Harr : arrays (vars w1) =
                 arrays (vars w) ++ [answers be orig 0 (calls w) n]).
  { rewrite Hvars. unfold pushed, w0, deref.
    cbn [vars arrays set_newsGrid set_arrays]. fold a.
    change a with (length (arrays (vars w))).
    rewrite nth_middle. apply store_app_last. }
  assert (Hrest : currentFilter (vars w1) = currentFilter (vars w) /\
                  originalNewsData (vars w1) = originalNewsData (vars w) /\
                  currentLang (vars w1) = currentLang (vars w)).
  { rewrite Hvars. repeat split. }
  destruct Hrest as (Hf & Hor & Hl).
  split; [exact Hall|].
  destruct Hend as [(H1 & H2 & H3 & H4)|(H1 & H2 & H3 & H4 & H5)]; subst o.
  - rewrite run_bind, run_modify, run_renderNews. cbn [fst snd vars calls trace].
    split; [reflexivity|]. left.
    assert (E : rendered (set_newsData a (vars w1)) =
                rendered (assign_display (answers be orig 0 (calls w) n) (vars w))).
    { apply rendered_ext; cbn; auto. }
    pose proof (f_equal newsGrid E) as E'.
    change (newsGrid (rendered ?x)) with (rendering x) in E' at 1.
    rewrite E, E'. split; [exact H1|]. split; [reflexivity|]. split; [exact H3|].
    rewrite H4, <- !app_assoc. reflexivity.
  - rewrite run_bind, run_console_error, run_bind, run_get, run_bind,
      run_new_array, run_bind, run_modify, run_renderNews.
    cbn [fst snd vars calls trace].
    split; [reflexivity|]. right.
    assert (Eo : original (vars w1) = orig).
    { unfold original, deref. rewrite Harr, Hor. apply app_nth1, Hwf. }
    rewrite Eo.
    assert (E : rendered (set_newsData (length (arrays (vars w1)))
                   (set_arrays (arrays (vars w1) ++ [orig]) (vars w1))) =
                rendered (assign_display orig
                   (set_arrays (arrays (vars w) ++ [answers be orig 0 (calls w) n])
                               (vars w)))).
    { apply rendered_ext; cbn; rewrite ?Harr, ?length_app; auto. }
    pose proof (f_equal newsGrid E) as E'.
    change (newsGrid (rendered ?x)) with (rendering x) in E' at 1.
    rewrite E, E'. split; [exact H1|]. split; [exact H2|]. split; [reflexivity|].
    split; [exact H4|].
    rewrite H5, <- !app_assoc. reflexivity.
Qed.

(** ** Batches and answers *)

Lemma firstn_plus (A : Type) (a b : nat) (l : list A) :
  firstn (a + b) l = firstn a l ++ firstn b (skipn a l).
Proof.
  revert l. induction a as [|a IH]; intros [|x l]; cbn; auto.
  - destruct b; reflexivity.
  - rewrite IH. reflexivity.
Qed.

Lemma slice_plus (b n : nat) (l : list FeedItem) :
  slice b (b + n) l = firstn n (skipn b l).
Proof. unfold slice. replace (b + n - b) with n by lia. reflexivity. Qed.

Lemma batches_concat (orig : list FeedItem) (n : nat) :
  flat_map (batch_from orig 0) (seq 0 n) = firstn (n * batchSize) orig.
Proof.
  induction n as [|n IH].
  - reflexivity.
  - rewrite seq_S, flat_map_app, IH. cbn [flat_map Nat.add].
    rewrite app_nil_r. unfold batch_from. cbn [Nat.add]. rewrite slice_plus.
    replace (S n * batchSize) with (n * batchSize + batchSize) by lia.
    rewrite firstn_plus. reflexivity.
Qed.

Lemma answer_urls (be : backend) (orig : list FeedItem) (c m : nat)
    (l : list FeedItem) :
  honours_contract be ->
  reply_from be orig 0 c m = Some l ->
  map url l = map url (batch_from orig 0 m).
Proof.
  intros Hc. unfold reply_from, batch_reply.
  destruct (be (c + m) _) as [r|] eqn:E; [|discriminate].
  destruct (body r) as [[|[its|]]|] eqn:Eb; try discriminate;
    cbn; intros [= <-]; [|reflexivity].
  exact (Hc _ _ _ _ _ E Eb).
Qed.

Lemma answers_urls (be : backend) (orig : list FeedItem) (c n : nat) :
  honours_contract be ->
  (forall m, m < n -> reply_from be orig 0 c m <> None) ->
  map url (answers be orig 0 c n) = map url (firstn (n * batchSize) orig).
Proof.
  intros Hc Hall. rewrite <- batches_concat. unfold answers.
  rewrite !flat_map_concat_map, !concat_map, !map_map. f_equal.
  apply map_ext_in. intros m Hm. apply in_seq in Hm.
  unfold answer_from.
  destruct (reply_from be orig 0 c m) as [l|] eqn:E.
  - exact (answer_urls _ _ _ Hc E).
  - exfalso. apply (Hall m); [lia|exact E].
Qed.

Lemma batch_count_unique (orig : list FeedItem) (n : nat) :
  (forall m, m < n -> m * batchSize < length orig) ->
  length orig <= n * batchSize ->
  n = batch_count orig.
Proof.
  unfold batch_count, batchSize. intros Hall Hle.
  destruct n as [|n].
  - replace (length orig) with 0 by lia. reflexivity.
  - specialize (Hall n (Nat.lt_succ_diag_r n)).
    apply Nat.div_unique with (r := length orig + 9 - 10 * S n); lia.
Qed.

Lemma batch_count_spec (orig : list FeedItem) (m : nat) :
  m < batch_count orig <-> m * batchSize < length orig.
Proof.
  unfold batch_count, batchSize. cbn [Nat.sub].
  pose proof (Nat.div_mod_eq (length orig + 9) 10) as E.
  pose proof (Nat.mod_upper_bound (length orig + 9) 10) as B.
  lia.
Qed.

(** ** How a run of [translateNews] ends *)

Lemma well_formed_original (s : AppState) :
  well_formed s -> originalNewsData s < length (arrays s).
Proof. intros [_ H]. exact H. Qed.

Section Ends.

Variable round_pct : nat -> nat -> nat.
Variable be : backend.
Variable w : world.

(** With the first failing batch known, the run is known. *)
Lemma ends_at_failure (k n : nat) :
  translate_ends round_pct be w n (run be (translateNews round_pct) w) ->
  (forall m, m < k -> reply_from be (original (vars w)) 0 (calls w) m <> None) ->
  k * batchSize < length (original (vars w)) ->
  reply_from be (original (vars w)) 0 (calls w) k = None ->
  n = k /\
  vars (snd (run be (translateNews round_pct) w)) =
    rendered (assign_display (original (vars w))
                (set_arrays (arrays (vars w)
                             ++ [answers be (original (vars w)) 0 (calls w) k])
                            (vars w))) /\
  calls (snd (run be (translateNews round_pct) w)) = calls w + S k /\
  trace (snd (run be (translateNews round_pct) w)) =
    trace w ++ [EvView (Translating (currentLang (vars w)) None)]
            ++ events round_pct (currentLang (vars w)) (original (vars w)) 0 k
            ++ [EvFetch (PostTranslate (batch_from (original (vars w)) 0 k) "ru");
                EvConsoleError;
                EvView (newsGrid (vars (snd (run be (translateNews round_pct) w))))].
Proof.
  unfold translate_ends. intros (Hall & _ & Hend) Hbefore Hk Hfail.
  assert (n = k) as ->.
  { destruct (Nat.lt_trichotomy n k) as [Hlt|[Heq|Hgt]]; [|exact Heq|].
    - exfalso. destruct Hend as [(H1 & _)|(_ & H2 & _)].
      + unfold batchSize in *. nia.
      + exact (Hbefore n Hlt H2).
    - exfalso. destruct (Hall k Hgt) as [_ H]. exact (H Hfail). }
  split; [reflexivity|].
  destruct Hend as [(H1 & _)|(_ & _ & H3 & H4 & H5)]; [lia|].
  auto.
Qed.

(** With every batch answered, the run is known as well. *)
Lemma ends_all_answered (n : nat) :
  translate_ends round_pct be w n (run be (translateNews round_pct) w) ->
  (forall m, m * batchSize < length (original (vars w)) ->
             reply_from be (original (vars w)) 0 (calls w) m <> None) ->
  n = batch_count (original (vars w)) /\
  vars (snd (run be (translateNews round_pct) w)) =
    rendered (assign_display (answers be (original (vars w)) 0 (calls w) n)
                             (vars w)) /\
  calls (snd (run be (translateNews round_pct) w)) = calls w + n /\
  trace (snd (run be (translateNews round_pct) w)) =
    trace w ++ [EvView (Translating (currentLang (vars w)) None)]
            ++ events round_pct (currentLang (vars w)) (original (vars w)) 0 n
            ++ [EvView (newsGrid (vars (snd (run be (translateNews round_pct) w))))].
Proof.
  unfold translate_ends. intros (Hall & _ & Hend) Hans.
  destruct Hend as [(H1 & H2 & H3 & H4)|(H1 & H2 & _)].
  - split; [|auto].
    apply batch_count_unique; [|exact H1].
    intros m Hm. apply (Hall m Hm).
  - exfalso. exact (Hans n H1 H2).
Qed.

End Ends.

Lemma emitted_app (A : Type) (be : backend) (p : prog A) (w : world)
    (evs : list event) :
  trace (snd (run be p w)) = trace w ++ evs -> emitted be p w = evs.
Proof.
  unfold emitted. intros ->.
  rewrite skipn_app, skipn_all, Nat.sub_diag. reflexivity.
Qed.

Lemma requests_of_app (l1 l2 : list event) :
  requests_of (l1 ++ l2) = requests_of l1 ++ requests_of l2.
Proof. apply flat_map_app. Qed.

Lemma requests_of_events (round_pct : nat -> nat -> nat) (t : lang)
    (orig : list FeedItem) (n : nat) :
  requests_of (events round_pct t orig 0 n) =
  map (fun m => PostTranslate (batch_from orig 0 m) "ru") (seq 0 n).
Proof.
  unfold events. induction (seq 0 n) as [|m l IH]; [reflexivity|].
  cbn [flat_map map]. rewrite requests_of_app, IH. reflexivity.
Qed.

Lemma sample_contract (k : nat) (feed : list FeedItem) :
  honours_contract (Sample.failing_at k feed).
Proof.
  intros n batch target r l. unfold Sample.failing_at, Sample.translating, Sample.ok.
  destruct (Nat.eqb n k); [discriminate|].
  intros [= <-]. cbn. intros [= <-].
  rewrite map_map. reflexivity.
Qed.

Lemma sample_well_formed (orig : list FeedItem) (l : lang) :
  well_formed (Sample.state orig l).
Proof. unfold well_formed. cbn. lia. Qed.

(** ** What a run of [translateNews] leaves *)

(** C1, with the condition it needs.  Whatever the snapshot and
    whichever batches fail, a run of [translateNews] against a backend
    that returns, for each batch it answers, items with the urls of the
    batch, ends normally and leaves a display of the length of the
    original with the same urls in the same order; the original is what
    it was.  The script checks nothing of what it is sent back: the
    condition on the backend is what the property rests on. *)
Theorem translate_keeps_length_and_order
    (round_pct : nat -> nat -> nat) (be : backend) (w : world) :
  well_formed (vars w) ->
  honours_contract be ->
  let r := run be (translateNews round_pct) w in
  fst r = Returned tt /\
  original (vars (snd r)) = original (vars w) /\
  length (display (vars (snd r))) = length (original (vars w)) /\
  map url (display (vars (snd r))) = map url (original (vars w)).
Proof.
  intros Hwf Hc r. apply well_formed_original in Hwf.
  destruct (@translateNews_summary round_pct be w Hwf) as [n Hn].
  fold r in Hn. destruct Hn as (Hall & Hret & Hend).
  assert (H : original (vars (snd r)) = original (vars w) /\
              map url (display (vars (snd r))) = map url (original (vars w))).
  { destruct Hend as [(H1 & H2 & _)|(_ & _ & H3 & _)].
    - rewrite H2, display_rendered_assign, original_rendered_assign by exact Hwf.
      split; [reflexivity|].
      rewrite answers_urls; [|exact Hc|intros m Hm; apply (Hall m Hm)].
      rewrite firstn_all2 by exact H1. reflexivity.
    - rewrite H3, display_rendered_assign, original_rendered_assign.
      + split; [|reflexivity]. apply deref_app_old. exact Hwf.
      + cbn. rewrite length_app. lia. }
  destruct H as [Ho Hurl].
  split; [exact Hret|]. split; [exact Ho|]. split; [|exact Hurl].
  rewrite <- (length_map url), Hurl, length_map. reflexivity.
Qed.

Lemma translate_keeps_length_and_order_witness :
  let w := Sample.start (Sample.items 25) Ru in
  let r := run (Sample.failing_at 1 []) (translateNews exact_pct) w in
  well_formed (vars w) /\
  honours_contract (Sample.failing_at 1 []) /\
  length (display (vars (snd r))) = 25 /\
  map url (display (vars (snd r))) = map url (Sample.items 25).
Proof.
  intros w r.
  split; [apply sample_well_formed|]. split; [apply sample_contract|].
  exact (proj2 (proj2 (@translate_keeps_length_and_order exact_pct
                         (Sample.failing_at 1 []) w
                         (sample_well_formed _ _) (sample_contract _ _)))).
Defined.

(** C1, refuted as stated: with every batch answered and no failure,
    twelve items come back as two from a backend that returns one item
    for each batch, and as twelve in another order from one that turns
    each batch round; both runs end normally. *)
Lemma unchecked_answers_break_length_and_order_cex :
  let w := Sample.start (Sample.items 12) Ru in
  let short := run Sample.truncating (translateNews exact_pct) w in
  let turned := run Sample.reversing (translateNews exact_pct) w in
  well_formed (vars w) /\
  fst short = Returned tt /\
  length (original (vars (snd short))) = 12 /\
  length (display (vars (snd short))) = 2 /\
  fst turned = Returned tt /\
  length (display (vars (snd turned))) = length (original (vars (snd turned))) /\
  map url (display (vars (snd turned))) <> map url (original (vars (snd turned))).
Proof.
  split; [apply sample_well_formed|].
  repeat split; vm_compute; try reflexivity; discriminate.
Qed.

(** C2, as the script has it. When the request for batch [k] fails after
    the batches before it were answered, the run stops there: no later
    batch is requested, what was translated so far is dropped, the
    display becomes a copy of the whole original, and [translateNews]
    still ends normally, the failure going to the console only. *)
Theorem failed_batch_aborts_translation
    (round_pct : nat -> nat -> nat) (be : backend) (w : world) (k : nat) :
  let orig := original (vars w) in
  let r := run be (translateNews round_pct) w in
  well_formed (vars w) ->
  (forall m, m < k -> reply_from be orig 0 (calls w) m <> None) ->
  k * batchSize < length orig ->
  reply_from be orig 0 (calls w) k = None ->
  fst r = Returned tt /\
  display (vars (snd r)) = orig /\
  original (vars (snd r)) = orig /\
  newsGrid (vars (snd r)) = rendering (vars (snd r)) /\
  calls (snd r) = calls w + S k /\
  requests_of (emitted be (translateNews round_pct) w) =
    map (fun m => PostTranslate (batch_from orig 0 m) "ru") (seq 0 (S k)) /\
  In EvConsoleError (emitted be (translateNews round_pct) w).
Proof.
  intros orig r Hwf Hbefore Hk Hfail. apply well_formed_original in Hwf.
  destruct (@translateNews_summary round_pct be w Hwf) as [n Hn].
  pose proof Hn as (_ & Hret & _).
  destruct (@ends_at_failure round_pct be w k n Hn Hbefore Hk Hfail)
    as (_ & Hv & Hc & Ht).
  fold r in Hv, Hc, Ht, Hret. fold orig in Hv, Ht.
  apply emitted_app in Ht.
  split; [exact Hret|]. rewrite Hv.
  rewrite display_rendered_assign, original_rendered_assign
    by (cbn; rewrite length_app; lia).
  split; [reflexivity|].
  split; [apply deref_app_old; exact Hwf|].
  split; [reflexivity|].
  split; [exact Hc|].
  split.
  - rewrite Ht, !requests_of_app, requests_of_events, seq_S, map_app.
    reflexivity.
  - rewrite Ht. apply in_or_app. right. apply in_or_app. right.
    right. left. reflexivity.
Qed.

Lemma failed_batch_aborts_translation_witness :
  let be := Sample.failing_at 1 [] in
  let w := Sample.start (Sample.items 25) Ru in
  let r := run be (translateNews exact_pct) w in
  well_formed (vars w) /\
  reply_from be (Sample.items 25) 0 0 1 = None /\
  display (vars (snd r)) = Sample.items 25 /\
  calls (snd r) = 2.
Proof.
  intros be w r.
  assert (Hfail : reply_from be (original (vars w)) 0 (calls w) 1 = None)
    by reflexivity.
  split; [apply sample_well_formed|].
  split; [exact Hfail|].
  destruct (@failed_batch_aborts_translation exact_pct be w 1)
    as (_ & Hd & _ & _ & Hc & _).
  - apply sample_well_formed.
  - intros [|m] Hm; [vm_compute; discriminate|lia].
  - vm_compute. lia.
  - exact Hfail.
  - split; [exact Hd|exact Hc].
Defined.

(** C2, refuted as stated: with twelve items and a backend that fails the
    first request only, the second batch is never requested and its items
    stay untranslated, where the specification's display has them
    translated. *)
Lemma failed_batch_stops_the_run_cex :
  let be := Sample.failing_at 0 [] in
  let w := Sample.start (Sample.items 12) Ru in
  let r := run be (translateNews exact_pct) w in
  reply_from be (Sample.items 12) 0 0 0 = None /\
  reply_from be (Sample.items 12) 0 0 1 =
    Some [Sample.ru (Sample.item 10); Sample.ru (Sample.item 11)] /\
  requests_of (trace (snd r)) = [PostTranslate (Sample.items 10) "ru"] /\
  display (vars (snd r)) = Sample.items 12 /\
  display (vars (snd r)) <> spec_display be (Sample.items 12) 0.
Proof.
  repeat split. vm_compute. discriminate.
Qed.

(** C3, as the script has it. The length of what the backend returns is
    never looked at: when every batch is answered, the display is the
    concatenation of the returned sequences as they came ([data.items], or
    the batch when there is none). *)
Theorem answered_batches_are_taken_as_returned
    (round_pct : nat -> nat -> nat) (be : backend) (w : world) :
  let orig := original (vars w) in
  let r := run be (translateNews round_pct) w in
  well_formed (vars w) ->
  (forall m, m * batchSize < length orig ->
             reply_from be orig 0 (calls w) m <> None) ->
  fst r = Returned tt /\
  display (vars (snd r)) = answers be orig 0 (calls w) (batch_count orig) /\
  original (vars (snd r)) = orig /\
  calls (snd r) = calls w + batch_count orig /\
  ~ In EvConsoleError (emitted be (translateNews round_pct) w).
Proof.
  intros orig r Hwf Hans. apply well_formed_original in Hwf.
  destruct (@translateNews_summary round_pct be w Hwf) as [n Hn].
  pose proof Hn as (_ & Hret & _).
  destruct (@ends_all_answered round_pct be w n Hn Hans) as (-> & Hv & Hc & Ht).
  fold r in Hv, Hc, Ht, Hret. fold orig in Hv, Hc, Ht.
  apply emitted_app in Ht.
  split; [exact Hret|]. rewrite Hv.
  rewrite display_rendered_assign, original_rendered_assign by exact Hwf.
  repeat split; try exact Hc.
  rewrite Ht. intro Hin. cbn [app] in Hin.
  destruct Hin as [Hin|Hin]; [discriminate|].
  apply in_app_or in Hin. destruct Hin as [Hin|[Hin|[]]]; [|discriminate].
  unfold events in Hin. apply in_flat_map in Hin.
  destruct Hin as (m & _ & [Hin|[Hin|[]]]); discriminate.
Qed.

Lemma answered_batches_are_taken_as_returned_witness :
  let w := Sample.start (Sample.items 12) Ru in
  let r := run Sample.truncating (translateNews exact_pct) w in
  well_formed (vars w) /\
  (forall m, m * batchSize < 12 ->
             reply_from Sample.truncating (Sample.items 12) 0 0 m <> None) /\
  display (vars (snd r)) = answers Sample.truncating (Sample.items 12) 0 0 2.
Proof.
  intros w r.
  assert (H : forall m, m * batchSize < length (original (vars w)) ->
      reply_from Sample.truncating (original (vars w)) 0 (calls w) m <> None)
    by (intros m _; discriminate).
  split; [apply sample_well_formed|]. split; [exact H|].
  exact (proj1 (proj2 (@answered_batches_are_taken_as_returned exact_pct
                          Sample.truncating w (sample_well_formed _ _) H))).
Defined.

(** C3, refuted as stated: a backend that returns one item for a batch of
    two is not caught; the display has one item, not the two originals. *)
Lemma short_answer_is_not_detected_cex :
  let w := Sample.start (Sample.items 2) Ru in
  let r := run Sample.truncating (translateNews exact_pct) w in
  reply_from Sample.truncating (Sample.items 2) 0 0 0 = Some [Sample.ru (Sample.item 0)] /\
  display (vars (snd r)) = [Sample.ru (Sample.item 0)] /\
  length (display (vars (snd r))) <> length (original (vars (snd r))) /\
  display (vars (snd r)) <> Sample.items 2.
Proof.
  repeat split; vm_compute; discriminate.
Qed.

(** ** Progress *)

Lemma progress_of_app (l1 l2 : list event) :
  progress_of (l1 ++ l2) = progress_of l1 ++ progress_of l2.
Proof. apply flat_map_app. Qed.

Lemma progress_of_events (round_pct : nat -> nat -> nat) (t : lang)
    (orig : list FeedItem) (n : nat) :
  progress_of (events round_pct t orig 0 n) =
  map (progress_from round_pct orig 0) (seq 0 n).
Proof.
  unfold events. induction (seq 0 n) as [|m l IH]; [reflexivity|].
  cbn [flat_map map]. rewrite progress_of_app, IH. reflexivity.
Qed.

Lemma progress_of_rendering (s : AppState) : progress_of [EvView (rendering s)] = [].
Proof. unfold rendering. destruct (Nat.eqb _ 0); reflexivity. Qed.

Lemma progress_of_rendered (s : AppState) :
  progress_of [EvView (newsGrid (rendered s))] = [].
Proof. apply progress_of_rendering. Qed.

Lemma sorted_map_seq (f : nat -> nat) (a n : nat) :
  (forall i j, i <= j -> f i <= f j) ->
  StronglySorted le (map f (seq a n)).
Proof.
  intro Hf. revert a. induction n as [|n IH]; intro a; cbn.
  - constructor.
  - constructor; [apply IH|].
    apply Forall_map, Forall_forall. intros j Hj. apply in_seq in Hj.
    apply Hf. lia.
Qed.

Lemma exact_pct_mono (a b n : nat) : a <= b -> exact_pct a n <= exact_pct b n.
Proof. intro H. unfold exact_pct. apply Nat.Div0.div_le_mono. lia. Qed.

Lemma exact_pct_full (n : nat) : 0 < n -> exact_pct n n = 100.
Proof.
  intro H. unfold exact_pct. symmetry.
  apply Nat.div_unique with (r := n); lia.
Qed.

Section Progress.

(** [Math.round(a / n * 100)] is computed in doubles; what the progress
    display needs of it is that it grows with [a] and is 100 at [a = n]. *)
Variable round_pct : nat -> nat -> nat.
Hypothesis round_pct_mono :
  forall a b n, a <= b -> round_pct a n <= round_pct b n.
Hypothesis round_pct_full : forall n, 0 < n -> round_pct n n = 100.

Lemma progress_from_claimed (orig : list FeedItem) (k : nat) :
  k * batchSize < length orig ->
  progress_from round_pct orig 0 k = claimed_progress round_pct orig k.
Proof.
  intro Hk. unfold progress_from, claimed_progress, processed. cbn [Nat.add].
  destruct (Nat.le_gt_cases (k * batchSize + batchSize) (length orig)) as [H|H].
  - rewrite (Nat.min_l _ _ H). reflexivity.
  - rewrite (Nat.min_r _ (length orig)) by lia.
    rewrite round_pct_full by lia.
    pose proof (@round_pct_mono (length orig) (k * batchSize + batchSize)
                  (length orig)) as Hm.
    rewrite round_pct_full in Hm by lia. lia.
Qed.

Lemma claimed_progress_mono (orig : list FeedItem) (i j : nat) :
  i <= j -> claimed_progress round_pct orig i <= claimed_progress round_pct orig j.
Proof.
  intro H. unfold claimed_progress, processed.
  apply Nat.min_le_compat_l, round_pct_mono.
  apply Nat.min_le_compat_r. unfold batchSize. nia.
Qed.

Lemma claimed_progress_last (orig : list FeedItem) (k : nat) :
  0 < length orig -> length orig <= k * batchSize + batchSize ->
  claimed_progress round_pct orig k = 100.
Proof.
  intros H0 H. unfold claimed_progress, processed.
  rewrite (Nat.min_r (k * batchSize + batchSize) (length orig)) by exact H.
  rewrite round_pct_full by exact H0.
  reflexivity.
Qed.

(** C4, as the script has it. With [n] the number of batches answered
    before the first failing one (all of them when none fails), a run
    over a snapshot emits exactly [n] progress values, one after each
    answered batch and none for the failing one, the [k]-th being
    [min(100, round(processed / total * 100))]; they never decrease; and
    when every batch of a non-empty snapshot is answered the last is 100. *)
Theorem progress_follows_answered_batches (be : backend) (w : world) :
  let orig := original (vars w) in
  let shown := progress_of (emitted be (translateNews round_pct) w) in
  well_formed (vars w) ->
  exists n,
    n <= batch_count orig /\
    (forall m, m < n -> reply_from be orig 0 (calls w) m <> None) /\
    (n < batch_count orig -> reply_from be orig 0 (calls w) n = None) /\
    shown = map (claimed_progress round_pct orig) (seq 0 n) /\
    StronglySorted le shown /\
    (n = batch_count orig -> 0 < length orig -> last shown 0 = 100).
Proof.
  intros orig shown Hwf. apply well_formed_original in Hwf.
  destruct (@translateNews_summary round_pct be w Hwf) as [n Hn].
  unfold translate_ends in Hn. fold orig in Hn.
  destruct Hn as (Hall & _ & Hend).
  assert (Hshown : shown = map (claimed_progress round_pct orig) (seq 0 n)).
  { assert (E : shown = map (progress_from round_pct orig 0) (seq 0 n)).
    { unfold shown.
      destruct Hend as [(_ & Hv & _ & Ht)|(_ & _ & Hv & _ & Ht)];
        apply emitted_app in Ht; rewrite Ht, Hv;
        rewrite !progress_of_app, progress_of_events.
      - rewrite progress_of_rendered, app_nil_r. reflexivity.
      - match goal with
        | |- context [ [?e1; ?e2; ?e3] ] =>
            change [e1; e2; e3] with ([e1; e2] ++ [e3])
        end.
        rewrite progress_of_app, progress_of_rendered.
        cbn [progress_of flat_map app]. rewrite app_nil_r. reflexivity. }
    rewrite E. apply map_ext_in. intros m Hm. apply in_seq in Hm.
    apply progress_from_claimed. apply (Hall m). lia. }
  assert (Hle : n <= batch_count orig).
  { destruct n as [|n]; [lia|].
    apply Nat.le_succ_l, batch_count_spec, (Hall n). lia. }
  exists n. split; [exact Hle|].
  split; [intros m Hm; apply (Hall m Hm)|].
  split.
  { intro Hlt. destruct Hend as [(H1 & _)|(_ & H2 & _)]; [|exact H2].
    apply batch_count_spec in Hlt. lia. }
  split; [exact Hshown|].
  split.
  { rewrite Hshown. apply sorted_map_seq. intros i j.
    apply claimed_progress_mono. }
  intros -> Hpos. rewrite Hshown.
  assert (Hb : 0 < batch_count orig) by (apply batch_count_spec; cbn; exact Hpos).
  destruct (batch_count orig) as [|b] eqn:Eb; [lia|].
  rewrite seq_S, map_app. cbn [map Nat.add]. rewrite last_last.
  apply claimed_progress_last; [exact Hpos|].
  destruct Hend as [(H1 & _)|(H1 & _)]; [unfold batchSize in *; lia|].
  exfalso. apply batch_count_spec in H1. lia.
Qed.

End Progress.

Lemma progress_follows_answered_batches_witness :
  (forall a b n, a <= b -> exact_pct a n <= exact_pct b n) /\
  (forall n, 0 < n -> exact_pct n n = 100) /\
  well_formed (vars (Sample.start (Sample.items 25) Ru)) /\
  exists n,
    n <= 3 /\
    progress_of (emitted (Sample.translating []) (translateNews exact_pct)
                         (Sample.start (Sample.items 25) Ru)) =
      map (claimed_progress exact_pct (Sample.items 25)) (seq 0 n).
Proof.
  split; [exact exact_pct_mono|]. split; [exact exact_pct_full|].
  split; [apply sample_well_formed|].
  destruct (@progress_follows_answered_batches exact_pct exact_pct_mono
              exact_pct_full (Sample.translating [])
              (Sample.start (Sample.items 25) Ru) (sample_well_formed _ _))
    as (n & Hle & _ & _ & Hshown & _).
  exists n. split; [exact Hle|exact Hshown].
Defined.

(** C4, refuted as stated: with twenty-five items and the second request
    failing, the only progress value emitted is 40: nothing is emitted
    after the failed batch, where the specification has 80, and the last
    value is not 100. *)
Lemma failed_batch_emits_no_progress_cex :
  let be := Sample.failing_at 1 [] in
  let w := Sample.start (Sample.items 25) Ru in
  let shown := progress_of (emitted be (translateNews exact_pct) w) in
  reply_from be (Sample.items 25) 0 0 1 = None /\
  shown = [40] /\
  claimed_progress exact_pct (Sample.items 25) 1 = 80 /\
  last shown 0 <> 100.
Proof.
  repeat split. vm_compute. discriminate.
Qed.

(** ** [loadNews] *)

Lemma extends_refl (s : AppState) : extends s s.
Proof. exists []. symmetry. apply app_nil_r. Qed.

Lemma extends_same (s s' : AppState) : arrays s' = arrays s -> extends s s'.
Proof. intro H. exists []. rewrite H. symmetry. apply app_nil_r. Qed.

Lemma extends_trans (s1 s2 s3 : AppState) :
  extends s1 s2 -> extends s2 s3 -> extends s1 s3.
Proof.
  intros [m1 H1] [m2 H2]. exists (m1 ++ m2). rewrite H2, H1, app_assoc.
  reflexivity.
Qed.

Lemma extends_deref (s s' : AppState) (r : ref) :
  extends s s' -> r < length (arrays s) -> deref s' r = deref s r.
Proof. intros [more H] Hr. unfold deref. rewrite H. apply app_nth1, Hr. Qed.

Lemma extends_length (s s' : AppState) :
  extends s s' -> length (arrays s) <= length (arrays s').
Proof. intros [more H]. rewrite H, length_app. lia. Qed.

(** What [translateNews] leaves as it was. *)
Lemma translateNews_frame (round_pct : nat -> nat -> nat) (be : backend)
    (w : world) :
  originalNewsData (vars w) < length (arrays (vars w)) ->
  let r := run be (translateNews round_pct) w in
  fst r = Returned tt /\
  currentFilter (vars (snd r)) = currentFilter (vars w) /\
  originalNewsData (vars (snd r)) = originalNewsData (vars w) /\
  currentLang (vars (snd r)) = currentLang (vars w) /\
  extends (vars w) (vars (snd r)) /\
  well_formed (vars (snd r)).
Proof.
  intros Hwf r.
  destruct (@translateNews_summary round_pct be w Hwf) as [n (_ & Hret & Hend)].
  fold r in Hret, Hend. split; [exact Hret|].
  destruct Hend as [(_ & Hv & _)|(_ & _ & Hv & _)]; rewrite Hv;
    unfold rendered, assign_display, well_formed;
    cbn [currentFilter newsData originalNewsData currentLang arrays
         set_newsGrid set_newsData set_arrays];
    repeat split; rewrite ?length_app; cbn [length]; try lia.
  - eexists. reflexivity.
  - eexists. rewrite <- app_assoc. reflexivity.
Qed.

Lemma run_loadNews (round_pct : nat -> nat -> nat) (be : backend)
    (forceRefresh : bool) (w : world) :
  run be (loadNews round_pct forceRefresh) w =
  match be (calls w) (GetNews forceRefresh) with
  | Some resp =>
      match body resp with
      | Some (JData items) =>
          run be (match currentLang (vars w) with
                  | Ru => translateNews round_pct
                  | En => renderNews
                  end)
              (loaded (or_else items []) forceRefresh w)
      | _ => (Returned tt, load_failed forceRefresh w)
      end
  | None => (Returned tt, load_failed forceRefresh w)
  end.
Proof.
  unfold loadNews, loaded, load_failed.
  rewrite run_try_catch, run_bind, run_get, run_bind, run_set_view, run_bind,
    run_fetch.
  cbn [vars calls trace].
  destruct (be (calls w) (GetNews forceRefresh)) as [resp|];
    [|cbn; rewrite <- !app_assoc; reflexivity].
  rewrite run_bind, run_response_json.
  destruct (body resp) as [[|items]|];
    [cbn; rewrite <- !app_assoc; reflexivity| |
     cbn; rewrite <- !app_assoc; reflexivity].
  rewrite run_bind, run_data_items, run_bind, run_new_array, run_bind,
    run_modify, run_bind, run_get, run_bind, run_new_array, run_bind,
    run_modify, run_bind, run_get.
  cbn [vars calls trace]. rewrite <- !app_assoc. cbn [app].
  set (d := or_else items []).
  set (s0 := set_newsGrid (Loading (currentLang (vars w))) (vars w)).
  assert (Eo : original (set_originalNewsData (length (arrays s0))
                           (set_arrays (arrays s0 ++ [d]) s0)) = d).
  { unfold original, deref. cbn [originalNewsData arrays set_originalNewsData
                                  set_arrays].
    apply nth_middle. }
  rewrite Eo.
  change (set_newsData _ (set_arrays _ (set_originalNewsData _ (set_arrays _ s0))))
    with (assign_display d (assign_original d s0)).
  set (w2 := mkWorld _ _ _).
  change (currentLang (assign_display d (assign_original d s0)))
    with (currentLang (vars w)).
  destruct (currentLang (vars w)).
  - rewrite run_renderNews. reflexivity.
  - destruct (@translateNews_frame round_pct be w2) as [Hret _].
    { unfold w2, assign_display, assign_original. cbn. rewrite !length_app.
      cbn. lia. }
    destruct (run be (translateNews round_pct) w2) as [o w3].
    cbn in Hret. subst o. reflexivity.
Qed.

(** C5. When the [fetch] of [loadNews] rejects or its body is not JSON,
    [loadNews] ends normally with both variables and every array as they
    were, the error message on the page, and exactly one request made. *)
Theorem failed_load_keeps_state
    (round_pct : nat -> nat -> nat) (be : backend) (forceRefresh : bool)
    (w : world) :
  load_failure (be (calls w) (GetNews forceRefresh)) ->
  let r := run be (loadNews round_pct forceRefresh) w in
  let t := currentLang (vars w) in
  fst r = Returned tt /\
  original (vars (snd r)) = original (vars w) /\
  display (vars (snd r)) = display (vars w) /\
  vars (snd r) = set_newsGrid (LoadError t) (vars w) /\
  emitted be (loadNews round_pct forceRefresh) w =
    [EvView (Loading t); EvFetch (GetNews forceRefresh);
     EvConsoleError; EvView (LoadError t)].
Proof.
  intros Hfail r t.
  assert (E : r = (Returned tt, load_failed forceRefresh w)).
  { unfold r. rewrite run_loadNews.
    destruct Hfail as [->|[st ->]]; reflexivity. }
  assert (Ht : trace (snd r) =
               trace w ++ [EvView (Loading t); EvFetch (GetNews forceRefresh);
                           EvConsoleError; EvView (LoadError t)])
    by (rewrite E; reflexivity).
  apply emitted_app in Ht.
  rewrite E. repeat split; exact Ht.
Qed.

Lemma failed_load_keeps_state_witness :
  let be := Sample.constant (Some (mkResponse 502 None)) in
  let w := Sample.start (Sample.items 3) En in
  let r := run be (loadNews exact_pct true) w in
  load_failure (be 0 (GetNews true)) /\
  original (vars (snd r)) = Sample.items 3 /\
  display (vars (snd r)) = Sample.items 3.
Proof.
  intros be w r.
  assert (H : load_failure (be (calls w) (GetNews true)))
    by (right; exists 502; reflexivity).
  split; [exact H|].
  destruct (@failed_load_keeps_state exact_pct be true w H) as (_ & Ho & Hd & _).
  split; [exact Ho|exact Hd].
Defined.

(** C10, as the script has it. Whatever the HTTP status, a body that
    parses to a value other than [null] makes [loadNews] store the
    payload's items (none when [items] is missing) as the original and a
    copy of them as the display, and go on to translate or render them; a
    rejected [fetch], a body that is not JSON and the body [null] take the
    [catch], which leaves both as they were. *)
Theorem load_outcome_by_payload
    (round_pct : nat -> nat -> nat) (be : backend) (forceRefresh : bool)
    (w : world) :
  let r := run be (loadNews round_pct forceRefresh) w in
  match be (calls w) (GetNews forceRefresh) with
  | Some (mkResponse _ (Some (JData items))) =>
      let d := or_else items [] in
      fst r = Returned tt /\
      original (vars (snd r)) = d /\
      match currentLang (vars w) with
      | En => display (vars (snd r)) = d /\
              newsGrid (vars (snd r)) = rendering (vars (snd r))
      | Ru => r = run be (translateNews round_pct) (loaded d forceRefresh w)
      end
  | Some (mkResponse _ (Some JNull))
  | Some (mkResponse _ None)
  | None =>
      fst r = Returned tt /\
      vars (snd r) = set_newsGrid (LoadError (currentLang (vars w))) (vars w)
  end.
Proof.
  intro r. unfold r. rewrite run_loadNews.
  destruct (be (calls w) (GetNews forceRefresh)) as [[st [[|items]|]]|];
    cbn [body]; try (split; reflexivity).
  set (d := or_else items []).
  assert (Hwf : originalNewsData (vars (loaded d forceRefresh w)) <
                length (arrays (vars (loaded d forceRefresh w)))).
  { unfold loaded, assign_display, assign_original. cbn. rewrite !length_app.
    cbn. lia. }
  assert (Ho : original (vars (loaded d forceRefresh w)) = d).
  { unfold loaded, assign_display, assign_original, original, deref.
    cbn [vars originalNewsData arrays set_newsData set_originalNewsData
         set_arrays set_newsGrid].
    rewrite app_nth1 by (rewrite length_app; cbn; lia).
    apply nth_middle. }
  destruct (currentLang (vars w)) eqn:El.
  - rewrite run_renderNews. cbn [fst snd vars].
    split; [reflexivity|]. split; [exact Ho|]. split; [|reflexivity].
    unfold loaded, assign_display, assign_original, display, deref, rendered.
    cbn [vars newsData arrays set_newsData set_originalNewsData
         set_arrays set_newsGrid].
    apply nth_middle.
  - destruct (@translateNews_frame round_pct be (loaded d forceRefresh w) Hwf)
      as (Hret & _ & Hor & _ & Hext & _).
    split; [exact Hret|]. split; [|reflexivity].
    unfold original. rewrite Hor.
    rewrite (extends_deref Hext Hwf). exact Ho.
Qed.

(** C10, refuted as stated: the body [null] parses as JSON, yet the load
    takes the error path and the original is not replaced by the empty
    snapshot. *)
Lemma null_body_takes_error_path_cex :
  let be := Sample.constant (Sample.ok JNull) in
  let w := Sample.start (Sample.items 1) En in
  let r := run be (loadNews exact_pct false) w in
  be 0 (GetNews false) = Some (mkResponse 200 (Some JNull)) /\
  newsGrid (vars (snd r)) = LoadError En /\
  In EvConsoleError (trace (snd r)) /\
  original (vars (snd r)) = Sample.items 1 /\
  original (vars (snd r)) <> [].
Proof.
  repeat split; [vm_compute; auto|vm_compute; discriminate].
Qed.

(** ** The locale switch *)

Lemma run_onLangClick (round_pct : nat -> nat -> nat) (be : backend) (w : world) :
  run be (onLangClick round_pct) w =
  match currentLang (vars w) with
  | En =>
      let w' := mkWorld (set_currentLang Ru (vars w)) (calls w) (trace w) in
      if 0 <? length (original (vars w))
      then run be (translateNews round_pct) w'
      else (Returned tt, w')
  | Ru =>
      let s := rendered (assign_display (original (vars w))
                                        (set_currentLang En (vars w))) in
      (Returned tt, mkWorld s (calls w) (trace w ++ [EvView (newsGrid s)]))
  end.
Proof.
  unfold onLangClick. rewrite run_bind, run_get.
  destruct (currentLang (vars w)) eqn:El;
    rewrite run_bind, run_modify, run_bind, run_get; cbn [vars calls trace].
  - change (original (set_currentLang Ru (vars w))) with (original (vars w)).
    destruct (0 <? length (original (vars w))); reflexivity.
  - rewrite run_bind, run_new_array, run_bind, run_modify, run_renderNews.
    reflexivity.
Qed.

(** C6. From any state in the primary locale, a click on the language
    button (which translates when there is something to translate)
    followed by a second click ends with the display equal to the
    original, element for element, in an array of its own; the second
    click makes no request. *)
Theorem locale_round_trip
    (round_pct : nat -> nat -> nat) (be : backend) (w : world) :
  well_formed (vars w) ->
  currentLang (vars w) = En ->
  let r1 := run be (onLangClick round_pct) w in
  let r2 := run be (onLangClick round_pct) (snd r1) in
  fst r1 = Returned tt /\
  currentLang (vars (snd r1)) = Ru /\
  fst r2 = Returned tt /\
  currentLang (vars (snd r2)) = En /\
  original (vars (snd r2)) = original (vars w) /\
  display (vars (snd r2)) = original (vars (snd r2)) /\
  newsData (vars (snd r2)) <> originalNewsData (vars (snd r2)) /\
  calls (snd r2) = calls (snd r1) /\
  requests_of (emitted be (onLangClick round_pct) (snd r1)) = [].
Proof.
  intros Hwf El r1 r2. apply well_formed_original in Hwf.
  assert (H1 : fst r1 = Returned tt /\ currentLang (vars (snd r1)) = Ru /\
               originalNewsData (vars (snd r1)) = originalNewsData (vars w) /\
               extends (vars w) (vars (snd r1))).
  { unfold r1. rewrite run_onLangClick, El. cbv zeta.
    destruct (0 <? length (original (vars w)));
      [|repeat split; apply extends_same; reflexivity].
    set (w' := mkWorld _ _ _).
    destruct (@translateNews_frame round_pct be w' Hwf)
      as (Hret & _ & Hor & Hl & Hext & _).
    repeat split; assumption. }
  destruct H1 as (Hr1 & Hl1 & Ho1 & Hext).
  set (s1 := vars (snd r1)) in *.
  assert (Hwf1 : originalNewsData s1 < length (arrays s1)).
  { rewrite Ho1. pose proof (extends_length Hext). lia. }
  set (s2 := rendered (assign_display (original s1) (set_currentLang En s1))).
  assert (E2 : r2 = (Returned tt,
                     mkWorld s2 (calls (snd r1))
                             (trace (snd r1) ++ [EvView (newsGrid s2)]))).
  { unfold r2. rewrite run_onLangClick. fold s1. rewrite Hl1. reflexivity. }
  assert (Ht : emitted be (onLangClick round_pct) (snd r1) =
               [EvView (newsGrid s2)]).
  { apply emitted_app. fold r2. rewrite E2. reflexivity. }
  rewrite Ht, E2. cbn [fst snd vars calls].
  assert (Eo : original s2 = original s1).
  { unfold s2. rewrite original_rendered_assign by exact Hwf1. reflexivity. }
  split; [exact Hr1|]. split; [exact Hl1|]. split; [reflexivity|].
  split; [reflexivity|].
  split.
  { rewrite Eo. unfold original. rewrite Ho1.
    apply (extends_deref Hext Hwf). }
  split; [rewrite Eo; apply display_rendered_assign|].
  split; [|split; reflexivity].
  unfold s2, rendered, assign_display.
  cbn [newsData originalNewsData set_newsGrid set_newsData set_arrays
       set_currentLang arrays].
  lia.
Qed.

Lemma locale_round_trip_witness :
  let be := Sample.translating [] in
  let w := Sample.start (Sample.items 12) En in
  let r1 := run be (onLangClick exact_pct) w in
  let r2 := run be (onLangClick exact_pct) (snd r1) in
  well_formed (vars w) /\
  currentLang (vars w) = En /\
  display (vars (snd r2)) = original (vars (snd r2)) /\
  calls (snd r2) = calls (snd r1).
Proof.
  intros be w r1 r2. split; [apply sample_well_formed|]. split; [reflexivity|].
  destruct (@locale_round_trip exact_pct be w (sample_well_formed _ _) eq_refl)
    as (_ & _ & _ & _ & _ & Hd & _ & Hc & _).
  split; [exact Hd|exact Hc].
Defined.

(** ** The original copy *)

(** C7. No operation writes to an array that exists, the original's
    least of all: every operation leaves the store as it was or adds new
    arrays to it.  The variable [originalNewsData] is left as it was by
    [translateNews], [renderNews], the filter buttons and the language
    button, and is assigned by a load whose payload arrived, to a new
    array of the payload's items.  The switch back to the primary locale
    makes the display a new array with the elements of the original. *)
Theorem original_replaced_by_load_only
    (round_pct : nat -> nat -> nat) (be : backend) (w : world) :
  well_formed (vars w) ->
  let unchanged (r : outcome unit * world) :=
    keeps_original (vars w) (vars (snd r)) in
  unchanged (run be (translateNews round_pct) w) /\
  unchanged (run be renderNews w) /\
  (forall f, unchanged (run be (onFilterClick f) w)) /\
  unchanged (run be (onLangClick round_pct) w) /\
  match currentLang (vars w) with
  | Ru => let s := vars (snd (run be (onLangClick round_pct) w)) in
          display s = original s /\ newsData s <> originalNewsData s
  | En => True
  end /\
  (forall forceRefresh,
     let r := run be (loadNews round_pct forceRefresh) w in
     extends (vars w) (vars (snd r)) /\
     (unchanged r \/
      exists st items,
        be (calls w) (GetNews forceRefresh) = Some (mkResponse st (Some (JData items))) /\
        originalNewsData (vars (snd r)) = length (arrays (vars w)) /\
        original (vars (snd r)) = or_else items [])).
Proof.
  intros Hwf unchanged. pose proof (well_formed_original Hwf) as Ho.
  assert (Hun : forall r, originalNewsData (vars (snd r)) = originalNewsData (vars w) ->
                          extends (vars w) (vars (snd r)) -> unchanged r).
  { intros r H1 H2. split; [exact H1|]. split; [exact H2|].
    unfold original. rewrite H1. apply (extends_deref H2 Ho). }
  assert (Htr : forall w', originalNewsData w' = originalNewsData (vars w) ->
                  arrays w' = arrays (vars w) ->
                  forall c tr, unchanged (run be (translateNews round_pct)
                                            (mkWorld w' c tr))).
  { intros s' H1 H2 c tr.
    destruct (@translateNews_frame round_pct be (mkWorld s' c tr))
      as (_ & _ & Hor & _ & [more Hext] & _).
    { cbn. rewrite H1, H2. exact Ho. }
    cbn [vars] in Hor, Hext. apply Hun; [congruence|].
    exists more. rewrite Hext, H2. reflexivity. }
  split.
  { destruct w as [s c tr]. apply Htr; reflexivity. }
  split; [rewrite run_renderNews; apply Hun; [reflexivity|apply extends_same; reflexivity]|].
  split.
  { intro f. unfold onFilterClick.
    rewrite run_bind, run_modify, run_renderNews.
    apply Hun; [reflexivity|apply extends_same; reflexivity]. }
  split.
  { rewrite run_onLangClick. destruct (currentLang (vars w)); cbv zeta.
    - destruct (0 <? length (original (vars w))).
      + apply Htr; reflexivity.
      + apply Hun; [reflexivity|apply extends_same; reflexivity].
    - apply Hun; [reflexivity|]. exists [original (vars w)]. reflexivity. }
  split.
  { destruct (currentLang (vars w)) eqn:El; [exact I|].
    rewrite run_onLangClick, El. cbv zeta. cbn [snd vars].
    split.
    - rewrite display_rendered_assign, original_rendered_assign by exact Ho.
      reflexivity.
    - unfold rendered, assign_display.
      cbn [newsData originalNewsData set_newsGrid set_newsData set_arrays
           set_currentLang arrays].
      lia. }
  intros forceRefresh r. unfold r. rewrite run_loadNews.
  destruct (be (calls w) (GetNews forceRefresh)) as [[st [[|items]|]]|];
    cbn [body];
    try (split; [apply extends_same; reflexivity|left; apply Hun;
                 [reflexivity|apply extends_same; reflexivity]]).
  set (d := or_else items []).
  assert (Hl : extends (vars w) (vars (loaded d forceRefresh w))).
  { exists [d; d]. unfold loaded, assign_display, assign_original.
    cbn [vars arrays set_newsData set_originalNewsData set_arrays set_newsGrid].
    rewrite <- app_assoc. reflexivity. }
  assert (Hwf2 : originalNewsData (vars (loaded d forceRefresh w)) <
                 length (arrays (vars (loaded d forceRefresh w)))).
  { unfold loaded, assign_display, assign_original. cbn. rewrite !length_app.
    cbn. lia. }
  assert (Hd : original (vars (loaded d forceRefresh w)) = d).
  { unfold loaded, assign_display, assign_original, original, deref.
    cbn [vars originalNewsData arrays set_newsData set_originalNewsData
         set_arrays set_newsGrid].
    rewrite app_nth1 by (rewrite length_app; cbn; lia).
    apply nth_middle. }
  destruct (currentLang (vars w)).
  - rewrite run_renderNews. cbn [snd vars]. split; [exact Hl|].
    right. exists st, items. repeat split. exact Hd.
  - destruct (@translateNews_frame round_pct be (loaded d forceRefresh w) Hwf2)
      as (_ & _ & Hor & _ & Hext & _).
    split; [exact (extends_trans Hl Hext)|].
    right. exists st, items. split; [reflexivity|].
    split; [rewrite Hor; reflexivity|].
    unfold original. rewrite Hor, (extends_deref Hext Hwf2). exact Hd.
Qed.

Lemma original_replaced_by_load_only_witness :
  let w := Sample.start (Sample.items 12) Ru in
  let r := run (Sample.translating []) (translateNews exact_pct) w in
  well_formed (vars w) /\
  keeps_original (vars w) (vars (snd r)).
Proof.
  intros w r. split; [apply sample_well_formed|].
  exact (proj1 (@original_replaced_by_load_only exact_pct
                  (Sample.translating []) w (sample_well_formed _ _))).
Defined.

(** The states the script can be in are well formed: the initial one is,
    and every operation keeps them so. *)
Lemma initial_well_formed (l : lang) : well_formed (initial l).
Proof. unfold well_formed. cbn. lia. Qed.

Lemma operations_keep_well_formed
    (round_pct : nat -> nat -> nat) (be : backend) (w : world) :
  well_formed (vars w) ->
  well_formed (vars (snd (run be (translateNews round_pct) w))) /\
  well_formed (vars (snd (run be renderNews w))) /\
  (forall f, well_formed (vars (snd (run be (onFilterClick f) w)))) /\
  well_formed (vars (snd (run be (onLangClick round_pct) w))) /\
  (forall forceRefresh,
     well_formed (vars (snd (run be (loadNews round_pct forceRefresh) w)))).
Proof.
  intro Hwf. pose proof (well_formed_original Hwf) as Ho.
  assert (Htr : forall w', well_formed (vars w') ->
                  well_formed (vars (snd (run be (translateNews round_pct) w')))).
  { intros w' H. apply translateNews_frame, well_formed_original, H. }
  split; [apply Htr, Hwf|].
  split; [rewrite run_renderNews; exact Hwf|].
  split.
  { intro f. unfold onFilterClick.
    rewrite run_bind, run_modify, run_renderNews. exact Hwf. }
  split.
  { rewrite run_onLangClick. destruct (currentLang (vars w)); cbv zeta.
    - destruct (0 <? length (original (vars w))); [apply Htr|]; exact Hwf.
    - destruct Hwf as [H1 H2]. unfold well_formed, rendered, assign_display.
      cbn. rewrite length_app. cbn. lia. }
  intro forceRefresh. rewrite run_loadNews.
  assert (Hl : forall d, well_formed (vars (loaded d forceRefresh w))).
  { intro d. unfold well_formed, loaded, assign_display, assign_original.
    cbn. rewrite !length_app. cbn. lia. }
  destruct (be (calls w) (GetNews forceRefresh)) as [[st [[|items]|]]|];
    cbn [body]; try exact Hwf.
  destruct (currentLang (vars w)).
  - rewrite run_renderNews. apply Hl.
  - apply Htr, Hl.
Qed.

(** ** The projection *)

Lemma subseq_filter (A : Type) (p : A -> bool) (l : list A) :
  subseq (filter p l) l.
Proof.
  induction l as [|x l IH]; cbn; [constructor|].
  destruct (p x); constructor; exact IH.
Qed.

Lemma length_filter_source (f : string) (l : list FeedItem) :
  length (filter (fun it => String.eqb (source it) f) l) =
  count_occ string_dec (map source l) f.
Proof.
  induction l as [|x l IH]; cbn; [reflexivity|].
  destruct (String.eqb_spec (source x) f) as [E|E];
    destruct (string_dec (source x) f) as [E'|E']; try contradiction;
    cbn; rewrite IH; reflexivity.
Qed.

(** C8. With the filter ["all"] the projection is the display itself;
    with any other filter it is the display with exactly the items of
    another source left out, the others in their order; and [renderNews]
    puts the projection on the page (the empty-state message when it is
    empty) and leaves the display as it was. *)
Theorem projection_filters_by_source
    (be : backend) (w : world) (data : list FeedItem) (f : string) :
  (if String.eqb f "all"
   then filtered f data = data /\ length (filtered f data) = length data
   else subseq (filtered f data) data /\
        Forall (fun it => source it = f) (filtered f data) /\
        (forall it, In it data -> source it = f -> In it (filtered f data)) /\
        length (filtered f data) = count_occ string_dec (map source data) f) /\
  let shown := filtered (currentFilter (vars w)) (display (vars w)) in
  let r := run be renderNews w in
  newsGrid (vars (snd r)) =
    match shown with
    | [] => NoNews (currentLang (vars w))
    | _ :: _ => Cards (currentLang (vars w)) shown
    end /\
  display (vars (snd r)) = display (vars w).
Proof.
  split.
  - unfold filtered. destruct (String.eqb f "all"); [split; reflexivity|].
    split; [apply subseq_filter|].
    split.
    { apply Forall_forall. intros it Hin. apply filter_In in Hin.
      apply String.eqb_eq. exact (proj2 Hin). }
    split.
    { intros it Hin Hs. apply filter_In. split; [exact Hin|].
      apply String.eqb_eq. exact Hs. }
    apply length_filter_source.
  - rewrite run_renderNews. cbn [snd vars newsGrid set_newsGrid rendered].
    split; [|reflexivity].
    unfold rendering. destruct (filtered _ _); reflexivity.
Qed.

(** ** Tasks in flight *)

Import Loop.

Lemma translate_loop_unfold (round_pct : nat -> nat -> nat) (fuel i : nat)
    (t : lang) (a : ref) :
  translate_loop round_pct fuel i t a =
  Get (fun s =>
    if i <? length (original s) then
      match fuel with
      | 0 => Spin
      | S fuel' =>
          let batch := slice i (i + batchSize) (original s) in
          resp <- fetch (PostTranslate batch "ru") ;;
          data <- response_json resp ;;
          items <- data_items data ;;
          array_push a (or_else items batch) ;;
          s' <- get ;;
          let progress :=
            Nat.min 100 (round_pct (i + batchSize) (length (original s'))) in
          set_view (Translating t (Some progress)) ;;
          translate_loop round_pct fuel' (i + batchSize) t a
      end
    else Ret tt).
Proof. destruct fuel; reflexivity. Qed.

(** A translation of a non-empty original stops at its first request;
    given an answer with items [T] it stops at the reading of the body;
    and when the body is read in a state whose original has one batch at
    most, it pushes [T] to its own array [a], makes that array the
    display and renders it. *)
Lemma translation_in_flight (round_pct : nat -> nat -> nat) (s : AppState)
    (tr : list event) :
  originalNewsData s < length (arrays s) ->
  0 < length (original s) ->
  let t := currentLang s in
  let a := length (arrays s) in
  let req := PostTranslate (slice 0 (0 + batchSize) (original s)) "ru" in
  exists K,
    advance (translateNews round_pct) s tr =
      (Waiting (OnFetch req K),
       set_arrays (arrays s ++ [[]]) (set_newsGrid (Translating t None) s),
       tr ++ [EvView (Translating t None); EvFetch req]) /\
    forall (st : nat) (T : list FeedItem) (s1 : AppState) (tr1 : list event),
    exists K2,
      advance (K (Some (mkResponse st (Some (JData (Some T)))))) s1 tr1 =
        (Waiting (OnJson (mkResponse st (Some (JData (Some T)))) K2), s1, tr1) /\
      forall (s2 : AppState) (tr2 : list event),
        a <> originalNewsData s2 ->
        length (original s2) <= batchSize ->
        let p := Nat.min 100 (round_pct batchSize (length (original s2))) in
        let s3 := rendered (set_newsData a
                              (pushed a T (Translating t (Some p)) s2)) in
        advance (K2 (Some (JData (Some T)))) s2 tr2 =
          (Done (Returned tt), s3,
           tr2 ++ [EvView (Translating t (Some p)); EvView (newsGrid s3)]).
Proof.
  intros Hwf Hpos t a req. subst t a req.
  assert (Ho : original (set_arrays (arrays s ++ [[]])
                           (set_newsGrid (Translating (currentLang s) None) s))
               = original s).
  { unfold original, deref. cbn [originalNewsData arrays set_arrays set_newsGrid].
    apply app_nth1, Hwf. }
  destruct (length (original s)) as [|fuel] eqn:Ef; [lia|].
  assert (Ht : (0 <? S fuel) = true) by reflexivity.
  eexists. split.
  { unfold translateNews.
    cbn -[batchSize slice Nat.min translate_loop Nat.ltb original].
    rewrite Ef, translate_loop_unfold.
    cbn -[batchSize slice Nat.min translate_loop Nat.ltb original].
    rewrite Ho, Ef, Ht.
    cbn -[batchSize slice Nat.min translate_loop Nat.ltb original].
    rewrite <- app_assoc. reflexivity. }
  intros st T s1 tr1. eexists. split.
  { cbn -[batchSize slice Nat.min translate_loop Nat.ltb original]. reflexivity. }
  intros s2 tr2 Ha Hle p s3. subst p s3.
  assert (Ho2 : original (set_arrays
                             (store (arrays s2) (length (arrays s))
                                    (deref s2 (length (arrays s)) ++ T)) s2)
                = original s2).
  { apply (@original_pushed _ T (newsGrid s2) s2 Ha). }
  apply Nat.ltb_ge in Hle.
  cbn -[batchSize slice Nat.min translate_loop Nat.ltb original deref].
  rewrite translate_loop_unfold.
  cbn -[batchSize slice Nat.min translate_loop Nat.ltb original deref].
  change (original (set_newsGrid ?v ?x)) with (original x).
  rewrite !Ho2, Hle.
  cbn -[batchSize Nat.min original deref rendering display filtered].
  unfold rendered, rendering, pushed.
  cbn -[batchSize Nat.min original deref display filtered].
  destruct (Nat.eqb _ 0); cbn -[batchSize Nat.min original deref display filtered];
    rewrite <- app_assoc; reflexivity.
Qed.

Lemma switch_back (round_pct : nat -> nat -> nat) (s : AppState)
    (tr : list event) :
  currentLang s = Ru ->
  let s' := rendered (assign_display (original s) (set_currentLang En s)) in
  advance (onLangClick round_pct) s tr =
    (Done (Returned tt), s', tr ++ [EvView (newsGrid s')]).
Proof.
  intros El s'. subst s'. unfold onLangClick.
  cbn -[original display filtered]. rewrite El.
  unfold rendered, rendering, assign_display.
  cbn -[original display filtered].
  destruct (Nat.eqb _ 0); reflexivity.
Qed.

Lemma switch_forth (round_pct : nat -> nat -> nat) (s : AppState)
    (tr : list event) :
  currentLang s = En ->
  0 < length (original s) ->
  advance (onLangClick round_pct) s tr =
  advance (translateNews round_pct) (set_currentLang Ru s) tr.
Proof.
  intros El Hpos. apply Nat.ltb_lt in Hpos. unfold onLangClick.
  cbn -[translateNews Nat.ltb original]. rewrite El.
  cbn -[translateNews Nat.ltb original].
  change (original (set_currentLang Ru s)) with (original s).
  rewrite Hpos. reflexivity.
Qed.

(** C9, as the script has it. Nothing invalidates a translation in
    flight. With an original of one batch: after a switch to the
    translated locale and a switch back before the backend has answered,
    the display is the original and the pending translation is
    superseded; when its answer [T] arrives it becomes the display and is
    rendered all the same, in the primary locale. *)
Theorem stale_translation_overwrites_display
    (round_pct : nat -> nat -> nat) (s : AppState) (T : list FeedItem) (st : nat) :
  well_formed s ->
  currentLang s = En ->
  0 < length (original s) <= batchSize ->
  let m2 := exec round_pct (boot s) [LangClick; LangClick] in
  let m4 := exec round_pct m2
              [Reply 0 (Some (mkResponse st (Some (JData (Some T))))); BodyRead 0] in
  display (mstate m2) = original s /\
  currentLang (mstate m2) = En /\
  stale_translation m2 0 /\
  display (mstate m4) = T /\
  currentLang (mstate m4) = En /\
  original (mstate m4) = original s /\
  newsGrid (mstate m4) = rendering (mstate m4) /\
  tasks m4 = [].
Proof.
  intros Hwf El [Hpos Hle]. apply well_formed_original in Hwf.
  destruct (@translation_in_flight round_pct (set_currentLang Ru s) [])
    as (K & HK1 & HK); [exact Hwf|exact Hpos|].
  cbv zeta in HK1, HK.
  change (arrays (set_currentLang Ru s)) with (arrays s) in HK1, HK.
  change (original (set_currentLang Ru s)) with (original s) in HK1.
  change (currentLang (set_currentLang Ru s)) with Ru in HK1, HK.
  set (a := length (arrays s)) in *.
  set (req := PostTranslate _ _) in HK1.
  set (s1 := set_arrays _ _) in HK1.
  set (tr1 := [] ++ _) in HK1.
  assert (E1 : step round_pct (boot s) LangClick =
               mkMachine s1 tr1 [mkTask 0 0 LangClick (OnFetch req K)] 1 0).
  { unfold step, turn, boot. cbn [handler is_request mstate mtrace tasks clock].
    rewrite switch_forth, HK1 by assumption. reflexivity. }
  assert (Ho1 : original s1 = original s).
  { unfold s1, original, deref. cbn. apply app_nth1, Hwf. }
  set (s2 := rendered (assign_display (original s1) (set_currentLang En s1))).
  assert (Harr2 : arrays s2 = arrays s ++ [[]; original s]).
  { unfold s2, s1, rendered, assign_display. cbn [arrays set_newsGrid set_newsData
      set_arrays set_currentLang]. fold s1. rewrite Ho1, <- app_assoc.
    reflexivity. }
  assert (Hor2 : originalNewsData s2 = originalNewsData s) by reflexivity.
  assert (Ho2 : original s2 = original s).
  { unfold original, deref. rewrite Hor2, Harr2. apply app_nth1, Hwf. }
  assert (E2 : exec round_pct (boot s) [LangClick; LangClick] =
               mkMachine s2 (tr1 ++ [EvView (newsGrid s2)])
                         [mkTask 0 0 LangClick (OnFetch req K)] 2 1).
  { unfold exec. cbn [fold_left]. rewrite E1.
    unfold step, turn. cbn [handler is_request mstate mtrace tasks clock].
    rewrite switch_back by reflexivity. reflexivity. }
  set (tr2 := tr1 ++ [EvView (newsGrid s2)]) in *.
  destruct (HK st T s2 tr2) as (K2 & HK2 & HK3).
  specialize (HK3 s2 tr2).
  cbv zeta in HK3. rewrite Ho2 in HK3.
  assert (Ha : a <> originalNewsData s2) by (rewrite Hor2; unfold a; lia).
  specialize (HK3 Ha Hle).
  set (p := Nat.min 100 _) in HK3.
  set (s3 := rendered _) in HK3.
  set (resp := mkResponse st (Some (JData (Some T)))) in *.
  set (M2 := mkMachine s2 tr2 [mkTask 0 0 LangClick (OnFetch req K)] 2 1) in *.
  assert (E3 : step round_pct M2 (Reply 0 (Some resp)) =
               mkMachine s2 tr2 [mkTask 0 0 LangClick (OnJson resp K2)] 3 1).
  { unfold step, turn, M2.
    cbn [find_task tasks tid Nat.eqb mstate mtrace clock latest_request].
    rewrite HK2. reflexivity. }
  assert (E4 : exec round_pct M2 [Reply 0 (Some resp); BodyRead 0] =
               mkMachine s3
                 (tr2 ++ [EvView (Translating Ru (Some p)); EvView (newsGrid s3)])
                 [] 4 1).
  { unfold exec. cbn [fold_left]. rewrite E3. unfold step, turn.
    cbn [find_task tasks tid Nat.eqb mstate mtrace clock latest_request body resp].
    rewrite HK3. reflexivity. }
  assert (Harr3 : arrays s3 = arrays s ++ [T; original s]).
  { unfold s3, rendered, pushed, deref.
    cbn [arrays set_newsGrid set_newsData set_arrays]. rewrite Harr2.
    unfold a. rewrite nth_middle. apply store_app_mid. }
  intros m2 m4. unfold m4, m2. rewrite E2, E4. unfold M2.
  cbn [mstate tasks].
  split; [unfold s2; rewrite display_rendered_assign; exact Ho1|].
  split; [reflexivity|].
  split.
  { exists (mkTask 0 0 LangClick (OnFetch req K)). cbn. repeat split. lia. }
  split.
  { unfold display, deref. rewrite Harr3.
    change (newsData s3) with a. apply nth_middle. }
  split; [reflexivity|].
  split.
  { unfold original, deref. rewrite Harr3.
    change (originalNewsData s3) with (originalNewsData s).
    apply app_nth1, Hwf. }
  split; reflexivity.
Qed.

Lemma stale_translation_overwrites_display_witness :
  let s := Sample.state (Sample.items 2) En in
  let T := map Sample.ru (Sample.items 2) in
  let m := exec exact_pct (boot s)
             [LangClick; LangClick;
              Reply 0 (Some (mkResponse 200 (Some (JData (Some T)))));
              BodyRead 0] in
  well_formed s /\
  currentLang s = En /\
  0 < length (original s) <= batchSize /\
  display (mstate m) = T /\
  currentLang (mstate m) = En.
Proof.
  intros s T m.
  assert (Hlen : 0 < length (original s) <= batchSize)
    by (vm_compute; lia).
  split; [apply sample_well_formed|].
  split; [reflexivity|]. split; [exact Hlen|].
  destruct (@stale_translation_overwrites_display exact_pct s T 200
              (sample_well_formed _ _) eq_refl Hlen)
    as (_ & _ & _ & Hd & Hl & _).
  split; [exact Hd|exact Hl].
Defined.

(** C9, refuted as stated: the guard that would keep a superseded
    translation from writing to the display does not hold of the script.
    After a switch to the translated locale and back, the answer to the
    first switch's request still replaces the display. *)
Lemma stale_result_is_applied_cex : ~ stale_results_discarded exact_pct.
Proof.
  intro H.
  specialize (H (Sample.state (Sample.items 2) En)
                [LangClick; LangClick;
                 Reply 0 (Sample.ok (JData (Some (map Sample.ru (Sample.items 2)))))]
                0 (BodyRead 0)).
  cbv zeta in H.
  assert (Hneq : display (mstate (step exact_pct
            (exec exact_pct (boot (Sample.state (Sample.items 2) En))
               [LangClick; LangClick;
                Reply 0 (Sample.ok (JData (Some (map Sample.ru (Sample.items 2)))))])
            (BodyRead 0))) <>
          display (mstate
            (exec exact_pct (boot (Sample.state (Sample.items 2) En))
               [LangClick; LangClick;
                Reply 0 (Sample.ok (JData (Some (map Sample.ru (Sample.items 2)))))])))
    by (vm_compute; discriminate).
  apply Hneq, H.
  - eexists. split; [reflexivity|]. split; [reflexivity|]. vm_compute. lia.
  - left. reflexivity.
Qed.

(** A reload while a translation is in flight: the first load's
    translation (task 0, three items) is answered after the second load
    (task 3, one item) has replaced the original, and its three items end
    up as the display of a one-item original. *)
Example reload_during_translation :
  let old := Sample.ok (JData (Some (Sample.items 3))) in
  let new := Sample.ok (JData (Some (Sample.items 1))) in
  let m := exec exact_pct (boot (initial Ru))
             [ PageLoad; Reply 0 old; BodyRead 0;
               RefreshClick; Reply 3 new; BodyRead 3;
               Reply 3 (Sample.ok (JData (Some (map Sample.ru (Sample.items 1)))));
               BodyRead 3;
               Reply 0 (Sample.ok (JData (Some (map Sample.ru (Sample.items 3)))));
               BodyRead 0 ] in
  tasks m = [] /\
  original (mstate m) = Sample.items 1 /\
  display (mstate m) = map Sample.ru (Sample.items 3).
Proof. vm_compute. repeat split. Qed.

(** [run] is the event loop with a single task whose requests are
    answered at once. *)
Lemma run_advance (be : backend) (p : prog unit) :
  forall w,
    run be p w =
    match advance p (vars w) (trace w) with
    | (Done o, s, tr) => (o, mkWorld s (calls w) tr)
    | (Waiting (OnFetch req k), s, tr) =>
        run be (k (be (calls w) req)) (mkWorld s (S (calls w)) tr)
    | (Waiting (OnJson r k), s, tr) =>
        run be (k (body r)) (mkWorld s (calls w) tr)
    end.
Proof.
  induction p as [a| | |k IH|s k IH|e k IH|req k IH|r k IH]; intro w; cbn;
    try (destruct w; reflexivity).
  - apply IH.
  - rewrite IH. reflexivity.
  - rewrite IH. reflexivity.
Qed.

(** * Further properties of the feed pipeline *)

(** ** The requests of a translation *)

Lemma batch_count_covers (orig : list FeedItem) :
  length orig <= batch_count orig * batchSize.
Proof.
  unfold batch_count, batchSize. cbn [Nat.sub].
  pose proof (Nat.div_mod_eq (length orig + 9) 10) as E.
  pose proof (Nat.mod_upper_bound (length orig + 9) 10) as B.
  lia.
Qed.

Lemma batch_from_length (orig : list FeedItem) (m : nat) :
  length (batch_from orig 0 m) = Nat.min batchSize (length orig - m * batchSize).
Proof.
  unfold batch_from. cbn [Nat.add]. rewrite slice_plus.
  rewrite length_firstn, length_skipn. reflexivity.
Qed.

(** How many batches a run of [translateNews] requested. *)
Lemma translateNews_requests (round_pct : nat -> nat -> nat) (be : backend)
    (w : world) :
  originalNewsData (vars w) < length (arrays (vars w)) ->
  exists k,
    k <= batch_count (original (vars w)) /\
    requests_of (emitted be (translateNews round_pct) w) =
      map (fun m => PostTranslate (batch_from (original (vars w)) 0 m) "ru")
          (seq 0 k) /\
    ((forall m, m * batchSize < length (original (vars w)) ->
                reply_from be (original (vars w)) 0 (calls w) m <> None) ->
     k = batch_count (original (vars w))).
Proof.
  intro Hwf.
  destruct (@translateNews_summary round_pct be w Hwf) as [n Hn].
  pose proof Hn as (Hall & _ & Hend).
  assert (Hle : n <= batch_count (original (vars w))).
  { destruct n as [|n]; [lia|].
    apply Nat.le_succ_l, batch_count_spec, (Hall n). lia. }
  destruct Hend as [(H1 & _ & _ & Ht)|(H1 & H2 & _ & _ & Ht)];
    apply emitted_app in Ht.
  - exists n. split; [exact Hle|]. split.
    + rewrite Ht, !requests_of_app, requests_of_events. cbn.
      rewrite app_nil_r. reflexivity.
    + intros _. apply batch_count_unique; [|exact H1].
      intros m Hm. apply (Hall m Hm).
  - exists (S n). split; [apply Nat.le_succ_l, batch_count_spec, H1|]. split.
    + rewrite Ht, !requests_of_app, requests_of_events, seq_S, map_app.
      reflexivity.
    + intro Hans. exfalso. exact (Hans n H1 H2).
Qed.

(** X1. The requests of a translation are the batches of the original in
    order, from the first one on and with target ["ru"]; when every batch
    is answered they are all of them.  The batches have between one and
    ten items each and, put end to end, they are the original: every item
    is sent once. *)
Theorem every_item_is_sent_once
    (round_pct : nat -> nat -> nat) (be : backend) (w : world) :
  well_formed (vars w) ->
  let orig := original (vars w) in
  let batch := batch_from orig 0 in
  (exists k,
     k <= batch_count orig /\
     requests_of (emitted be (translateNews round_pct) w) =
       map (fun m => PostTranslate (batch m) "ru") (seq 0 k) /\
     ((forall m, m * batchSize < length orig ->
                 reply_from be orig 0 (calls w) m <> None) ->
      k = batch_count orig)) /\
  flat_map batch (seq 0 (batch_count orig)) = orig /\
  (forall m, m < batch_count orig -> 1 <= length (batch m) <= batchSize).
Proof.
  intros Hwf orig batch. apply well_formed_original in Hwf.
  split; [apply translateNews_requests, Hwf|].
  split.
  - unfold batch. rewrite batches_concat.
    apply firstn_all2, batch_count_covers.
  - intros m Hm. apply batch_count_spec in Hm.
    unfold batch. rewrite batch_from_length. unfold batchSize in *. lia.
Qed.

Lemma every_item_is_sent_once_witness :
  let w := Sample.start (Sample.items 25) Ru in
  well_formed (vars w) /\
  flat_map (batch_from (original (vars w)) 0)
           (seq 0 (batch_count (original (vars w)))) = original (vars w).
Proof.
  intro w. split; [apply sample_well_formed|].
  exact (proj1 (proj2 (@every_item_is_sent_once exact_pct (Sample.translating [])
                         w (sample_well_formed _ _)))).
Defined.

(** ** Bounds on the progress shown *)

Lemma translateNews_progress (round_pct : nat -> nat -> nat) (be : backend)
    (w : world) :
  originalNewsData (vars w) < length (arrays (vars w)) ->
  exists n,
    n <= batch_count (original (vars w)) /\
    progress_of (emitted be (translateNews round_pct) w) =
    map (progress_from round_pct (original (vars w)) 0) (seq 0 n).
Proof.
  intro Hwf.
  destruct (@translateNews_summary round_pct be w Hwf) as [n Hn].
  destruct Hn as (Hall & _ & Hend). exists n.
  split.
  { destruct n as [|n]; [lia|].
    apply Nat.le_succ_l, batch_count_spec, (Hall n). lia. }
  destruct Hend as [(_ & Hv & _ & Ht)|(_ & _ & Hv & _ & Ht)];
    apply emitted_app in Ht; rewrite Ht, Hv;
    rewrite !progress_of_app, progress_of_events.
  - rewrite progress_of_rendered, app_nil_r. reflexivity.
  - match goal with
    | |- context [ [?e1; ?e2; ?e3] ] =>
        change [e1; e2; e3] with ([e1; e2] ++ [e3])
    end.
    rewrite progress_of_app, progress_of_rendered.
    cbn [progress_of flat_map app]. rewrite app_nil_r. reflexivity.
Qed.

(** X2. Whatever [Math.round] does and whatever the backend answers, no
    progress value above 100 is ever shown, and the number of values
    shown is at most the number of batches. *)
Theorem progress_never_exceeds_100
    (round_pct : nat -> nat -> nat) (be : backend) (w : world) :
  well_formed (vars w) ->
  let shown := progress_of (emitted be (translateNews round_pct) w) in
  Forall (fun p => p <= 100) shown /\
  length shown <= batch_count (original (vars w)).
Proof.
  intros Hwf shown. apply well_formed_original in Hwf.
  destruct (@translateNews_progress round_pct be w Hwf) as (n & Hle & Hn).
  unfold shown. rewrite Hn. split.
  - apply Forall_map, Forall_forall.
    intros m _. unfold progress_from. apply Nat.le_min_l.
  - rewrite length_map, length_seq. exact Hle.
Qed.

Lemma progress_never_exceeds_100_witness :
  let w := Sample.start (Sample.items 25) Ru in
  well_formed (vars w) /\
  Forall (fun p => p <= 100)
         (progress_of (emitted (Sample.translating [])
                               (translateNews (fun a n => 1000 * a)) w)).
Proof.
  intro w. split; [apply sample_well_formed|].
  exact (proj1 (@progress_never_exceeds_100 (fun a n => 1000 * a)
                  (Sample.translating []) w (sample_well_formed _ _))).
Defined.

(** ** Empty feeds *)

Lemma filtered_nil (f : string) : filtered f [] = [].
Proof. unfold filtered. destruct (String.eqb f "all"); reflexivity. Qed.

(** X3. On an empty original [translateNews] makes no request and shows
    no progress: it puts the translating message on the page, then the
    empty-state message, and leaves an empty display. *)
Theorem translate_of_empty_feed
    (round_pct : nat -> nat -> nat) (be : backend) (w : world) :
  well_formed (vars w) ->
  original (vars w) = [] ->
  let r := run be (translateNews round_pct) w in
  let t := currentLang (vars w) in
  fst r = Returned tt /\
  display (vars (snd r)) = [] /\
  calls (snd r) = calls w /\
  emitted be (translateNews round_pct) w =
    [EvView (Translating t None); EvView (NoNews t)].
Proof.
  intros Hwf He r t. apply well_formed_original in Hwf.
  destruct (@translateNews_summary round_pct be w Hwf) as [n Hn].
  fold r in Hn. unfold translate_ends in Hn. rewrite He in Hn. fold t in Hn.
  destruct Hn as (Hall & Hret & Hend).
  assert (n = 0) as ->.
  { destruct n as [|n]; [reflexivity|].
    destruct (Hall n) as [H _]; [lia|]. cbn in H. lia. }
  destruct Hend as [(_ & Hv & Hc & Ht)|(H & _)]; [|cbn in H; lia].
  apply emitted_app in Ht.
  split; [exact Hret|]. split; [rewrite Hv; apply display_rendered_assign|].
  split; [rewrite Hc; lia|].
  rewrite Ht, Hv. cbn [events seq flat_map app].
  unfold rendered, rendering. cbn [newsGrid set_newsGrid].
  change (display (assign_display ?l ?s)) with (nth (length (arrays s)) (arrays s ++ [l]) []).
  rewrite nth_middle. cbn [answers seq flat_map]. rewrite filtered_nil.
  reflexivity.
Qed.

Lemma translate_of_empty_feed_witness :
  let w := Sample.start [] Ru in
  well_formed (vars w) /\
  original (vars w) = [] /\
  calls (snd (run (Sample.translating []) (translateNews exact_pct) w)) = 0.
Proof.
  intro w. split; [apply sample_well_formed|]. split; [reflexivity|].
  exact (proj1 (proj2 (proj2 (@translate_of_empty_feed exact_pct
           (Sample.translating []) w (sample_well_formed _ _) eq_refl)))).
Defined.



(** ** The filter buttons *)

Lemma filtered_idempotent (f : string) (l : list FeedItem) :
  filtered f (filtered f l) = filtered f l.
Proof.
  unfold filtered. destruct (String.eqb f "all") eqn:E; [reflexivity|].
  induction l as [|x l IH]; [reflexivity|]. cbn.
  destruct (String.eqb (source x) f) eqn:Ex; cbn; rewrite ?Ex, IH; reflexivity.
Qed.

(** X5. A click on a filter button makes no request and creates no
    array: it sets the filter, leaves both snapshots as they were and
    shows the projection of the display by the new filter.  Clicking the
    same button again changes nothing, and projecting a projection by the
    same filter gives it back. *)
Theorem filter_click_only_projects
    (be : backend) (w : world) (f : string) :
  let r := run be (onFilterClick f) w in
  let r' := run be (onFilterClick f) (snd r) in
  fst r = Returned tt /\
  currentFilter (vars (snd r)) = f /\
  arrays (vars (snd r)) = arrays (vars w) /\
  display (vars (snd r)) = display (vars w) /\
  original (vars (snd r)) = original (vars w) /\
  newsGrid (vars (snd r)) =
    match filtered f (display (vars w)) with
    | [] => NoNews (currentLang (vars w))
    | _ :: _ => Cards (currentLang (vars w)) (filtered f (display (vars w)))
    end /\
  requests_of (emitted be (onFilterClick f) w) = [] /\
  calls (snd r) = calls w /\
  vars (snd r') = vars (snd r) /\
  (forall l, filtered f (filtered f l) = filtered f l).
Proof.
  intros r r'.
  assert (E : r = (Returned tt,
                   mkWorld (rendered (set_currentFilter f (vars w))) (calls w)
                     (trace w ++ [EvView (rendering (set_currentFilter f (vars w)))]))).
  { unfold r, onFilterClick. rewrite run_bind, run_modify, run_renderNews.
    reflexivity. }
  assert (Ht : emitted be (onFilterClick f) w =
               [EvView (rendering (set_currentFilter f (vars w)))]).
  { apply emitted_app. fold r. rewrite E. reflexivity. }
  assert (E' : vars (snd r') = vars (snd r)).
  { unfold r', onFilterClick. rewrite run_bind, run_modify, run_renderNews.
    rewrite E. cbn [snd vars]. destruct (vars w); reflexivity. }
  rewrite Ht. rewrite E in E' |- *. cbn [fst snd vars calls].
  repeat split; try exact E'; try apply filtered_idempotent.
  unfold rendered, rendering. cbn [newsGrid set_newsGrid currentFilter currentLang
    set_currentFilter].
  change (display (set_currentFilter f (vars w))) with (display (vars w)).
  destruct (filtered f (display (vars w))); reflexivity.
Qed.

(** ** Loads *)

(** A run only adds to the trace. *)
Lemma run_trace_grows (A : Type) (be : backend) (p : prog A) :
  forall w, trace (snd (run be p w)) = trace w ++ emitted be p w.
Proof.
  assert (H : forall w, exists evs, trace (snd (run be p w)) = trace w ++ evs).
  { induction p as [a| | |k IH|s k IH|e k IH|req k IH|r k IH]; intro w; cbn;
      try (exists []; rewrite app_nil_r; reflexivity).
    - apply IH.
    - destruct (IH (mkWorld s (calls w) (trace w))) as [evs H]. exists evs.
      exact H.
    - destruct (IH (mkWorld (vars w) (calls w) (trace w ++ [e]))) as [evs H].
      exists (e :: evs). rewrite H. cbn [trace]. rewrite <- app_assoc.
      reflexivity.
    - destruct (IH (be (calls w) req)
                   (mkWorld (vars w) (S (calls w)) (trace w ++ [EvFetch req])))
        as [evs H].
      exists (EvFetch req :: evs). rewrite H. cbn [trace].
      rewrite <- app_assoc. reflexivity.
    - apply IH. }
  intro w. destruct (H w) as [evs E]. pose proof E as E0. apply emitted_app in E0. rewrite E0. exact E.
Qed.

(** Under the contract, [translateNews] keeps the urls. *)
Lemma translateNews_urls (round_pct : nat -> nat -> nat) (be : backend)
    (w : world) :
  originalNewsData (vars w) < length (arrays (vars w)) ->
  honours_contract be ->
  let r := run be (translateNews round_pct) w in
  original (vars (snd r)) = original (vars w) /\
  map url (display (vars (snd r))) = map url (original (vars w)).
Proof.
  intros Hwf Hc r.
  destruct (@translateNews_summary round_pct be w Hwf) as [n Hn].
  fold r in Hn. destruct Hn as (Hall & Hret & Hend).
  destruct Hend as [(H1 & H2 & _)|(_ & _ & H3 & _)].
  - rewrite H2, display_rendered_assign, original_rendered_assign by exact Hwf.
    split; [reflexivity|].
    rewrite answers_urls; [|exact Hc|intros m Hm; apply (Hall m Hm)].
    rewrite firstn_all2 by exact H1. reflexivity.
  - rewrite H3, display_rendered_assign, original_rendered_assign.
    + split; [|reflexivity]. apply deref_app_old. exact Hwf.
    + cbn. rewrite length_app. lia.
Qed.

Lemma loaded_original (d : list FeedItem) (forceRefresh : bool) (w : world) :
  originalNewsData (vars (loaded d forceRefresh w)) <
    length (arrays (vars (loaded d forceRefresh w))) /\
  original (vars (loaded d forceRefresh w)) = d.
Proof.
  split.
  - unfold loaded, assign_display, assign_original. cbn. rewrite !length_app.
    cbn. lia.
  - unfold loaded, assign_display, assign_original, original, deref.
    cbn [vars originalNewsData arrays set_newsData set_originalNewsData
         set_arrays set_newsGrid].
    rewrite app_nth1 by (rewrite length_app; cbn; lia).
    apply nth_middle.
Qed.

(** X6. A load in the translated locale whose payload arrives, against a
    backend that keeps the urls of the batches it answers, ends with the
    payload's items as the original and a display of the same length
    with the same urls in the same order, whatever the HTTP status of
    the feed response and whichever translation requests fail. *)
Theorem load_then_translate_keeps_urls
    (round_pct : nat -> nat -> nat) (be : backend) (forceRefresh : bool)
    (w : world) (st : nat) (items : option (list FeedItem)) :
  currentLang (vars w) = Ru ->
  be (calls w) (GetNews forceRefresh) = Some (mkResponse st (Some (JData items))) ->
  honours_contract be ->
  let r := run be (loadNews round_pct forceRefresh) w in
  fst r = Returned tt /\
  original (vars (snd r)) = or_else items [] /\
  length (display (vars (snd r))) = length (or_else items []) /\
  map url (display (vars (snd r))) = map url (or_else items []).
Proof.
  intros El Hbe Hc r. unfold r. rewrite run_loadNews, Hbe, El. cbn [body].
  destruct (loaded_original (or_else items []) forceRefresh w) as [Hwf Ho].
  destruct (@translateNews_frame round_pct be _ Hwf) as (Hret & _).
  destruct (@translateNews_urls round_pct be _ Hwf Hc) as [H1 H2].
  rewrite Ho in H1, H2.
  split; [exact Hret|]. split; [exact H1|]. split; [|exact H2].
  rewrite <- (length_map url), H2, length_map. reflexivity.
Qed.

Lemma load_then_translate_keeps_urls_witness :
  let be := Sample.failing_at 2 (Sample.items 25) in
  let w := Sample.start [] Ru in
  let r := run be (loadNews exact_pct true) w in
  currentLang (vars w) = Ru /\
  honours_contract be /\
  original (vars (snd r)) = Sample.items 25 /\
  map url (display (vars (snd r))) = map url (Sample.items 25).
Proof.
  intros be w r. split; [reflexivity|]. split; [apply sample_contract|].
  destruct (@load_then_translate_keeps_urls exact_pct be true w 200
              (Some (Sample.items 25)) eq_refl eq_refl (sample_contract _ _))
    as (_ & Ho & _ & Hu).
  split; [exact Ho|exact Hu].
Defined.

(** X7. The first thing a load does is show the loading message, and
    its first request, the only one for the feed, carries the
    [forceRefresh] flag it was given.  In the primary locale, and
    whenever the load fails, that request is the only one; otherwise the
    remaining requests are translation requests with target ["ru"]. *)
Theorem load_request_log
    (round_pct : nat -> nat -> nat) (be : backend) (forceRefresh : bool)
    (w : world) :
  let evs := emitted be (loadNews round_pct forceRefresh) w in
  hd_error evs = Some (EvView (Loading (currentLang (vars w)))) /\
  exists rest,
    requests_of evs = GetNews forceRefresh :: rest /\
    Forall (fun q => exists batch, q = PostTranslate batch "ru") rest /\
    match currentLang (vars w), be (calls w) (GetNews forceRefresh) with
    | Ru, Some (mkResponse _ (Some (JData _))) => True
    | _, _ => rest = []
    end.
Proof.
  intro evs.
  assert (Hfail : trace (load_failed forceRefresh w) =
                  trace w ++ [EvView (Loading (currentLang (vars w)));
                              EvFetch (GetNews forceRefresh); EvConsoleError;
                              EvView (LoadError (currentLang (vars w)))])
    by reflexivity.
  assert (Hf : run be (loadNews round_pct forceRefresh) w =
               (Returned tt, load_failed forceRefresh w) ->
               hd_error evs = Some (EvView (Loading (currentLang (vars w)))) /\
               requests_of evs = [GetNews forceRefresh]).
  { intro E. unfold evs. rewrite (@emitted_app _ be _ w _ (eq_trans
      (f_equal (fun x => trace (snd x)) E) Hfail)). split; reflexivity. }
  pose proof (run_loadNews round_pct be forceRefresh w) as E.
  destruct (be (calls w) (GetNews forceRefresh)) as [[st [[|items]|]]|] eqn:Eb;
    cbn [body] in E;
    try (destruct (Hf E) as [H1 H2]; split; [exact H1|]; exists [];
         split; [exact H2|]; split; [constructor|];
         destruct (currentLang (vars w)); reflexivity).
  set (d := or_else items []) in *.
  destruct (currentLang (vars w)) eqn:El.
  - rewrite run_renderNews in E.
    assert (Ht : trace (snd (run be (loadNews round_pct forceRefresh) w)) =
                 trace w ++ [EvView (Loading En); EvFetch (GetNews forceRefresh);
                             EvView (rendering (vars (loaded d forceRefresh w)))]).
    { rewrite E. unfold loaded. cbn [snd trace]. rewrite El, <- app_assoc.
      reflexivity. }
    apply emitted_app in Ht. unfold evs. rewrite Ht.
    split; [reflexivity|]. exists []. repeat split. constructor.
  - destruct (loaded_original d forceRefresh w) as [Hwf _].
    destruct (@translateNews_requests round_pct be _ Hwf) as (k & _ & Hreq & _).
    assert (Ht : trace (snd (run be (loadNews round_pct forceRefresh) w)) =
                 trace w ++ [EvView (Loading Ru); EvFetch (GetNews forceRefresh)]
                 ++ emitted be (translateNews round_pct) (loaded d forceRefresh w)).
    { rewrite E, run_trace_grows. unfold loaded at 1. cbn [trace].
      rewrite El, <- app_assoc. reflexivity. }
    apply emitted_app in Ht. unfold evs. rewrite Ht.
    split; [reflexivity|].
    exists (requests_of (emitted be (translateNews round_pct)
                                 (loaded d forceRefresh w))).
    split; [rewrite requests_of_app; reflexivity|].
    split; [|exact I].
    rewrite Hreq. apply Forall_map, Forall_forall. intros m _. eexists.
    reflexivity.
Qed.

(** ** What a translation reads *)

(** X8. A translation starts from the original and from nothing else:
    two runs from states with the same original, met by the same
    answers, leave the same display and make the same requests, whatever
    the display, the filter and the page were before. *)
Theorem translation_reads_the_original_only
    (round_pct : nat -> nat -> nat) (be : backend) (w1 w2 : world) :
  well_formed (vars w1) ->
  well_formed (vars w2) ->
  original (vars w1) = original (vars w2) ->
  calls w1 = calls w2 ->
  let r1 := run be (translateNews round_pct) w1 in
  let r2 := run be (translateNews round_pct) w2 in
  display (vars (snd r1)) = display (vars (snd r2)) /\
  calls (snd r1) = calls (snd r2) /\
  requests_of (emitted be (translateNews round_pct) w1) =
  requests_of (emitted be (translateNews round_pct) w2).
Proof.
  intros Hwf1 Hwf2 Ho Hc r1 r2.
  apply well_formed_original in Hwf1. apply well_formed_original in Hwf2.
  destruct (@translateNews_summary round_pct be w1 Hwf1) as [n1 Hn1].
  destruct (@translateNews_summary round_pct be w2 Hwf2) as [n2 Hn2].
  pose proof Hn1 as (Hall1 & _ & Hend1).
  destruct Hend1 as [(H1 & Hv1 & Hc1 & Ht1)|(H1 & Hf1 & Hv1 & Hc1 & Ht1)].
  - assert (Hans : forall m, m * batchSize < length (original (vars w2)) ->
                     reply_from be (original (vars w2)) 0 (calls w2) m <> None).
    { intros m Hm. rewrite <- Ho, <- Hc. apply (Hall1 m).
      rewrite <- Ho in Hm. unfold batchSize in *. nia. }
    destruct (@ends_all_answered round_pct be w2 n2 Hn2 Hans)
      as (E2 & Hv2 & Hc2 & Ht2).
    assert (n1 = n2) as <-.
    { rewrite E2, <- Ho. apply batch_count_unique; [|exact H1].
      intros m Hm. apply (Hall1 m Hm). }
    apply emitted_app in Ht1. apply emitted_app in Ht2.
    unfold r1, r2. rewrite Hv1, Hv2, !display_rendered_assign, Hc1, Hc2, Ht1, Ht2.
    rewrite !requests_of_app, !requests_of_events, Ho, Hc.
    repeat split.
  - assert (Hb : forall m, m < n1 ->
                   reply_from be (original (vars w2)) 0 (calls w2) m <> None).
    { intros m Hm. rewrite <- Ho, <- Hc. apply (Hall1 m Hm). }
    assert (Hk : n1 * batchSize < length (original (vars w2)))
      by (rewrite <- Ho; exact H1).
    assert (Hf2 : reply_from be (original (vars w2)) 0 (calls w2) n1 = None)
      by (rewrite <- Ho, <- Hc; exact Hf1).
    destruct (@ends_at_failure round_pct be w2 n1 n2 Hn2 Hb Hk Hf2)
      as (_ & Hv2 & Hc2 & Ht2).
    apply emitted_app in Ht1. apply emitted_app in Ht2.
    unfold r1, r2. rewrite Hv1, Hv2, !display_rendered_assign, Hc1, Hc2, Ht1, Ht2.
    rewrite !requests_of_app, !requests_of_events, Ho, Hc.
    repeat split.
Qed.

Lemma translation_reads_the_original_only_witness :
  let be := Sample.translating [] in
  let w1 := Sample.start (Sample.items 12) Ru in
  let w2 := mkWorld (mkState "rss" 1 0 En (Loading Ru) [Sample.items 12; []]) 0 [] in
  well_formed (vars w1) /\ well_formed (vars w2) /\
  original (vars w1) = original (vars w2) /\
  display (vars (snd (run be (translateNews exact_pct) w1))) =
  display (vars (snd (run be (translateNews exact_pct) w2))).
Proof.
  intros be w1 w2.
  assert (H1 : well_formed (vars w1)) by apply sample_well_formed.
  assert (H2 : well_formed (vars w2)) by (unfold well_formed; cbn; lia).
  split; [exact H1|]. split; [exact H2|]. split; [reflexivity|].
  exact (proj1 (@translation_reads_the_original_only exact_pct be w1 w2 H1 H2
                  eq_refl eq_refl)).
Defined.

(** ** Failed requests never leave a handler *)

(** X9. In the states of the model (the locale is ['en'] or ['ru'], the
    items have the fields a card reads) and against a backend that
    settles every request, no failure of a request makes a handler end
    in an error: a rejected [fetch], a body that is not JSON, a [null]
    body and a body without items are caught by the [try] blocks of
    [loadNews] and [translateNews] or met by a default, and the batch
    loop reaches its exit test, so that [translateNews], [loadNews], the
    language click and a filter click return normally. *)
Theorem request_failures_are_caught
    (round_pct : nat -> nat -> nat) (be : backend) (w : world) :
  well_formed (vars w) ->
  fst (run be (translateNews round_pct) w) = Returned tt /\
  (forall forceRefresh,
     fst (run be (loadNews round_pct forceRefresh) w) = Returned tt) /\
  fst (run be (onLangClick round_pct) w) = Returned tt /\
  (forall f, fst (run be (onFilterClick f) w) = Returned tt).
Proof.
  intro Hwf. pose proof (well_formed_original Hwf) as Ho.
  split; [apply (@translateNews_frame round_pct be w Ho)|].
  split; [|split].
  - intro forceRefresh. rewrite run_loadNews.
    destruct (be (calls w) (GetNews forceRefresh)) as [[st [[|items]|]]|];
      cbn [body]; try reflexivity.
    destruct (loaded_original (or_else items []) forceRefresh w) as [Hl _].
    destruct (currentLang (vars w)).
    + rewrite run_renderNews. reflexivity.
    + apply (@translateNews_frame round_pct be _ Hl).
  - rewrite run_onLangClick. destruct (currentLang (vars w)); [|reflexivity].
    cbv zeta. destruct (0 <? length (original (vars w))); [|reflexivity].
    apply (@translateNews_frame round_pct be
             (mkWorld (set_currentLang Ru (vars w)) (calls w) (trace w)) Ho).
  - intro f. unfold onFilterClick. rewrite run_bind, run_modify, run_renderNews.
    reflexivity.
Qed.

Lemma request_failures_are_caught_witness :
  let w := Sample.start (Sample.items 25) Ru in
  well_formed (vars w) /\
  fst (run (Sample.failing_at 1 (Sample.items 25)) (loadNews exact_pct true) w)
    = Returned tt.
Proof.
  intro w. split; [apply sample_well_formed|].
  exact (proj1 (proj2 (@request_failures_are_caught exact_pct
           (Sample.failing_at 1 (Sample.items 25)) w (sample_well_formed _ _)))
         true).
Defined.

(** * The theme toggle *)

(** X10. Whatever the page held before, a click on the theme button
    leaves the theme at ["dark"] or ["light"], writes it to the store
    and gives the page the matching look; from then on every click
    changes the theme and two clicks restore the page. *)
Theorem theme_click_toggles (p : Theme.Page) (n : nat) :
  let p1 := Theme.clicks (S n) p in
  (Theme.currentTheme p1 = "dark" \/ Theme.currentTheme p1 = "light") /\
  Theme.stored p1 = Some (Theme.currentTheme p1) /\
  Theme.look p1 =
    (if String.eqb (Theme.currentTheme p1) "light"
     then (Some "light", Theme.Sun) else (None, Theme.Moon)) /\
  Theme.currentTheme (Theme.onThemeClick p1) <> Theme.currentTheme p1 /\
  Theme.onThemeClick (Theme.onThemeClick p1) = p1.
Proof.
  cbn [Theme.clicks]. generalize (Theme.clicks n p). intros [c s a b].
  unfold Theme.onThemeClick, Theme.applyTheme, Theme.look. cbn.
  destruct (String.eqb c "dark"); cbn; repeat split; auto; discriminate.
Qed.

(** X11. When the store holds a theme other than ["dark"] and
    ["light"], the page loads with the dark look and keeps the stored
    value; the first click then selects ["dark"], so that the look does
    not change, and only the second click gives the light look. *)
Theorem unknown_stored_theme (s : string) (attr : option string)
    (btn : Theme.icon) :
  s <> "" -> s <> "dark" -> s <> "light" ->
  let p := Theme.onContentLoaded (Theme.init (Some s) attr btn) in
  Theme.currentTheme p = s /\
  Theme.stored p = Some s /\
  Theme.look p = (None, Theme.Moon) /\
  Theme.currentTheme (Theme.clicks 1 p) = "dark" /\
  Theme.look (Theme.clicks 1 p) = Theme.look p /\
  Theme.look (Theme.clicks 2 p) = (Some "light", Theme.Sun).
Proof.
  intros He Hd Hl.
  apply String.eqb_neq in He. apply String.eqb_neq in Hd.
  apply String.eqb_neq in Hl.
  unfold Theme.onContentLoaded, Theme.init, Theme.stored_or. rewrite He.
  unfold Theme.clicks, Theme.onThemeClick, Theme.applyTheme, Theme.look. cbn.
  rewrite Hl. cbn. rewrite Hd. cbn. repeat split.
Qed.

Lemma unknown_stored_theme_witness :
  let p := Theme.onContentLoaded (Theme.init (Some "blue") (Some "light") Theme.Sun) in
  Theme.look p = (None, Theme.Moon) /\
  Theme.look (Theme.clicks 1 p) = Theme.look p.
Proof.
  intro p.
  assert (H1 : "blue" <> "") by discriminate.
  assert (H2 : "blue" <> "dark") by discriminate.
  assert (H3 : "blue" <> "light") by discriminate.
  destruct (@unknown_stored_theme "blue" (Some "light") Theme.Sun H1 H2 H3)
    as (_ & _ & Ha & _ & Hb & _).
  split; [exact Ha|exact Hb].
Defined.

(** * Time labels *)

(** X12. For a date the browser can read, the label depends on the age
    [now - date] in milliseconds alone, with the same limits in both
    locales: below one minute (a date in the future included) it is the
    just-now phrase; below one hour, the whole minutes; below one day,
    the whole hours; below thirty days, the whole days; from thirty days
    on, the date itself. *)
Theorem time_label_by_age (parse : string -> option Z) (now : Z) (t : lang)
    (s : string) (date : Z) :
  s <> "" ->
  parse s = Some date ->
  let age := (now - date)%Z in
  TimeAgo.formatTimeAgo parse now t s =
    if (age <? 60000)%Z then TimeAgo.JustNow t
    else if (age <? 3600000)%Z then TimeAgo.MinutesAgo t (age / 60000)
    else if (age <? 86400000)%Z then TimeAgo.HoursAgo t (age / 3600000)
    else if (age <? 2592000000)%Z then TimeAgo.DaysAgo t (age / 86400000)
    else TimeAgo.LocaleDate t (Some date).
Proof.
  intros He Hp age. apply String.eqb_neq in He.
  unfold TimeAgo.formatTimeAgo. rewrite He, Hp. fold age.
  assert (H1 : ((age / 60000 <? 1) = (age <? 60000))%Z).
  { destruct (Z.ltb_spec age 60000); [apply Z.ltb_lt|apply Z.ltb_ge];
      Z.to_euclidean_division_equations; lia. }
  assert (H2 : ((age / 60000 <? 60) = (age <? 3600000))%Z).
  { destruct (Z.ltb_spec age 3600000); [apply Z.ltb_lt|apply Z.ltb_ge];
      Z.to_euclidean_division_equations; lia. }
  assert (H3 : ((age / 3600000 <? 24) = (age <? 86400000))%Z).
  { destruct (Z.ltb_spec age 86400000); [apply Z.ltb_lt|apply Z.ltb_ge];
      Z.to_euclidean_division_equations; lia. }
  assert (H4 : ((age / 86400000 <? 30) = (age <? 2592000000))%Z).
  { destruct (Z.ltb_spec age 2592000000); [apply Z.ltb_lt|apply Z.ltb_ge];
      Z.to_euclidean_division_equations; lia. }
  rewrite H1, H2, H3, H4. destruct t; reflexivity.
Qed.

Lemma time_label_by_age_witness :
  TimeAgo.formatTimeAgo (fun _ => Some 1000%Z) 7201000%Z Ru "2024-01-01T00:00:00Z"
  = TimeAgo.HoursAgo Ru 2.
Proof.
  assert (H : "2024-01-01T00:00:00Z" <> "") by discriminate.
  exact (@time_label_by_age (fun _ => Some 1000%Z) 7201000%Z Ru
           "2024-01-01T00:00:00Z" 1000%Z H eq_refl).
Defined.

(** X13. The count in a label is never zero and never reaches the next
    unit: minutes run from 1 to 59, hours from 1 to 23, days from 1 to
    29, for every date string, clock and locale, hence on every card. *)
Theorem time_label_counts_in_range (parse : string -> option Z) (now : Z)
    (t : lang) :
  let in_range l :=
    match l with
    | TimeAgo.MinutesAgo _ n => (1 <= n <= 59)%Z
    | TimeAgo.HoursAgo _ n => (1 <= n <= 23)%Z
    | TimeAgo.DaysAgo _ n => (1 <= n <= 29)%Z
    | _ => True
    end in
  (forall s, in_range (TimeAgo.formatTimeAgo parse now t s)) /\
  (forall item, in_range (TimeAgo.card_time parse now t item)).
Proof.
  intro in_range.
  assert (H : forall s, in_range (TimeAgo.formatTimeAgo parse now t s)).
  { intro s. unfold TimeAgo.formatTimeAgo.
    destruct (String.eqb s ""); [exact I|].
    destruct (parse s) as [date|]; [|exact I].
    cbv zeta. generalize (now - date)%Z. intro age.
    destruct t;
      destruct (Z.ltb_spec (age / 60000) 1); try exact I;
      destruct (Z.ltb_spec (age / 60000) 60); try (cbn; lia);
      destruct (Z.ltb_spec (age / 3600000) 24);
      try (cbn; Z.to_euclidean_division_equations; lia);
      destruct (Z.ltb_spec (age / 86400000) 30);
      try exact I; cbn; Z.to_euclidean_division_equations; lia. }
  split; [exact H|]. intro item. apply H.
Qed.

(** * A filter click while a translation is away *)

Lemma rendering_cases (s : AppState) :
  rendering s =
  match filtered (currentFilter s) (display s) with
  | [] => NoNews (currentLang s)
  | _ :: _ => Cards (currentLang s) (filtered (currentFilter s) (display s))
  end.
Proof.
  unfold rendering. destruct (filtered (currentFilter s) (display s));
    reflexivity.
Qed.

Lemma filter_turn (f : string) (s : AppState) (tr : list event) :
  let s' := rendered (set_currentFilter f s) in
  advance (onFilterClick f) s tr =
    (Done (Returned tt), s', tr ++ [EvView (newsGrid s')]).
Proof.
  intro s'. subst s'. unfold onFilterClick.
  cbn -[original display filtered].
  unfold rendered, rendering.
  cbn -[original display filtered].
  destruct (Nat.eqb _ 0); reflexivity.
Qed.

(** X22. With an original of one batch: a click on a filter button
    between a switch to the translated locale and the answer of the
    backend replaces the translating message by the cards of the display
    there was, untranslated but in the wording of the translated locale,
    and leaves the translation pending; when the answer [T] arrives it
    becomes the display and the page shows its projection by the filter
    that was clicked. *)
Theorem filter_click_during_translation
    (round_pct : nat -> nat -> nat) (s : AppState) (T : list FeedItem)
    (st : nat) (f : string) :
  well_formed s ->
  currentLang s = En ->
  0 < length (original s) <= batchSize ->
  let m2 := exec round_pct (boot s) [LangClick; FilterClick f] in
  let m4 := exec round_pct m2
              [Reply 0 (Some (mkResponse st (Some (JData (Some T))))); BodyRead 0] in
  newsGrid (mstate m2) =
    match filtered f (display s) with
    | [] => NoNews Ru
    | _ :: _ => Cards Ru (filtered f (display s))
    end /\
  display (mstate m2) = display s /\
  length (tasks m2) = 1 /\
  display (mstate m4) = T /\
  original (mstate m4) = original s /\
  currentFilter (mstate m4) = f /\
  newsGrid (mstate m4) =
    match filtered f T with
    | [] => NoNews Ru
    | _ :: _ => Cards Ru (filtered f T)
    end /\
  tasks m4 = [].
Proof.
  intros Hwf0 El [Hpos Hle]. pose proof (well_formed_original Hwf0) as Hwf.
  destruct Hwf0 as [Hnd _].
  destruct (@translation_in_flight round_pct (set_currentLang Ru s) [])
    as (K & HK1 & HK); [exact Hwf|exact Hpos|].
  cbv zeta in HK1, HK.
  change (arrays (set_currentLang Ru s)) with (arrays s) in HK1, HK.
  change (original (set_currentLang Ru s)) with (original s) in HK1.
  change (currentLang (set_currentLang Ru s)) with Ru in HK1, HK.
  set (a := length (arrays s)) in *.
  set (req := PostTranslate _ _) in HK1.
  set (s1 := set_arrays _ _) in HK1.
  set (tr1 := [] ++ _) in HK1.
  assert (E1 : step round_pct (boot s) LangClick =
               mkMachine s1 tr1 [mkTask 0 0 LangClick (OnFetch req K)] 1 0).
  { unfold step, turn, boot. cbn [handler is_request mstate mtrace tasks clock].
    rewrite switch_forth, HK1 by assumption. reflexivity. }
  set (s2 := rendered (set_currentFilter f s1)).
  assert (Harr2 : arrays s2 = arrays s ++ [[]]) by reflexivity.
  assert (Hor2 : originalNewsData s2 = originalNewsData s) by reflexivity.
  assert (Ho2 : original s2 = original s).
  { unfold original, deref. rewrite Hor2, Harr2. apply app_nth1, Hwf. }
  assert (Hd2 : display s2 = display s).
  { unfold display, deref. rewrite Harr2.
    change (newsData s2) with (newsData s). apply app_nth1, Hnd. }
  assert (E2 : exec round_pct (boot s) [LangClick; FilterClick f] =
               mkMachine s2 (tr1 ++ [EvView (newsGrid s2)])
                         [mkTask 0 0 LangClick (OnFetch req K)] 2 0).
  { unfold exec. cbn [fold_left]. rewrite E1.
    unfold step, turn. cbn [handler is_request mstate mtrace tasks clock].
    rewrite filter_turn. reflexivity. }
  set (tr2 := tr1 ++ [EvView (newsGrid s2)]) in *.
  destruct (HK st T s2 tr2) as (K2 & HK2 & HK3).
  specialize (HK3 s2 tr2).
  cbv zeta in HK3. rewrite Ho2 in HK3.
  assert (Ha : a <> originalNewsData s2) by (rewrite Hor2; unfold a; lia).
  specialize (HK3 Ha Hle).
  set (p := Nat.min 100 _) in HK3.
  set (s3 := rendered _) in HK3.
  set (resp := mkResponse st (Some (JData (Some T)))) in *.
  set (M2 := mkMachine s2 tr2 [mkTask 0 0 LangClick (OnFetch req K)] 2 0) in *.
  assert (E3 : step round_pct M2 (Reply 0 (Some resp)) =
               mkMachine s2 tr2 [mkTask 0 0 LangClick (OnJson resp K2)] 3 0).
  { unfold step, turn, M2.
    cbn [find_task tasks tid Nat.eqb mstate mtrace clock latest_request].
    rewrite HK2. reflexivity. }
  assert (E4 : exec round_pct M2 [Reply 0 (Some resp); BodyRead 0] =
               mkMachine s3
                 (tr2 ++ [EvView (Translating Ru (Some p)); EvView (newsGrid s3)])
                 [] 4 0).
  { unfold exec. cbn [fold_left]. rewrite E3. unfold step, turn.
    cbn [find_task tasks tid Nat.eqb mstate mtrace clock latest_request body resp].
    rewrite HK3. reflexivity. }
  assert (Harr3 : arrays s3 = arrays s ++ [T]).
  { unfold s3, rendered, pushed, deref.
    cbn [arrays set_newsGrid set_newsData set_arrays]. rewrite Harr2.
    unfold a. rewrite nth_middle. apply store_app_last. }
  assert (Hd3 : display s3 = T).
  { unfold display, deref. rewrite Harr3.
    change (newsData s3) with a. apply nth_middle. }
  intros m2 m4. unfold m4, m2. rewrite E2, E4. unfold M2.
  cbn [mstate tasks].
  split.
  { change (newsGrid s2) with (rendering (set_currentFilter f s1)).
    rewrite rendering_cases.
    change (currentFilter (set_currentFilter f s1)) with f.
    change (display (set_currentFilter f s1)) with (display s2).
    rewrite Hd2. reflexivity. }
  split; [exact Hd2|]. split; [reflexivity|]. split; [exact Hd3|].
  split.
  { unfold original, deref. rewrite Harr3.
    change (originalNewsData s3) with (originalNewsData s).
    apply app_nth1, Hwf. }
  split; [reflexivity|]. split; [|reflexivity].
  unfold s3 at 1. unfold rendered at 1. cbn [newsGrid set_newsGrid].
  fold s3.
  assert (Er : rendering (set_newsData a (pushed a T (Translating Ru (Some p)) s2))
               = rendering s3) by reflexivity.
  rewrite Er, rendering_cases, Hd3. reflexivity.
Qed.

Lemma filter_click_during_translation_witness :
  let s := Sample.state (Sample.items 2) En in
  let T := map Sample.ru (Sample.items 2) in
  let m := exec exact_pct (boot s)
             [LangClick; FilterClick "nowhere";
              Reply 0 (Some (mkResponse 200 (Some (JData (Some T)))));
              BodyRead 0] in
  well_formed s /\
  currentLang s = En /\
  0 < length (original s) <= batchSize /\
  display (mstate m) = T /\
  newsGrid (mstate m) = NoNews Ru.
Proof.
  intros s T m.
  assert (Hwf : well_formed s) by (unfold well_formed; cbn; lia).
  assert (Hlen : 0 < length (original s) <= batchSize)
    by (cbn; unfold batchSize; lia).
  split; [exact Hwf|]. split; [reflexivity|]. split; [exact Hlen|].
  destruct (@filter_click_during_translation exact_pct s T 200 "nowhere"
              Hwf eq_refl Hlen) as (_ & _ & _ & Hd & _ & _ & Hg & _).
  split; [exact Hd|exact Hg].
Defined.

(** * The page and the display *)

Lemma rendered_in_sync (s : AppState) :
  newsGrid (rendered s) = rendering (rendered s).
Proof. reflexivity. Qed.

Lemma translateNews_in_sync (round_pct : nat -> nat -> nat) (be : backend)
    (w : world) :
  originalNewsData (vars w) < length (arrays (vars w)) ->
  let r := run be (translateNews round_pct) w in
  newsGrid (vars (snd r)) = rendering (vars (snd r)).
Proof.
  intros Hwf r.
  destruct (@translateNews_summary round_pct be w Hwf) as [n Hn].
  fold r in Hn. destruct Hn as (_ & _ & [(_ & Hv & _)|(_ & _ & Hv & _)]);
    rewrite Hv; apply rendered_in_sync.
Qed.

(** X23. When a handler of the feed pipeline has run, the page shows
    the projection of the display by the current filter, in the current
    locale.  The two exceptions: a load that fails leaves the error
    message of the locale, and a switch to the translated locale on an
    empty original writes nothing to the page. *)
Theorem page_shows_the_projection
    (round_pct : nat -> nat -> nat) (be : backend) (w : world) :
  well_formed (vars w) ->
  let in_sync (r : outcome unit * world) :=
    newsGrid (vars (snd r)) = rendering (vars (snd r)) in
  in_sync (run be (translateNews round_pct) w) /\
  (forall f, in_sync (run be (onFilterClick f) w)) /\
  (currentLang (vars w) = Ru \/ original (vars w) <> [] ->
   in_sync (run be (onLangClick round_pct) w)) /\
  (forall forceRefresh,
     match be (calls w) (GetNews forceRefresh) with
     | Some (mkResponse _ (Some (JData _))) =>
         in_sync (run be (loadNews round_pct forceRefresh) w)
     | _ =>
         newsGrid (vars (snd (run be (loadNews round_pct forceRefresh) w))) =
         LoadError (currentLang (vars w))
     end).
Proof.
  intros Hwf in_sync. pose proof (well_formed_original Hwf) as Ho.
  unfold in_sync. split; [apply (translateNews_in_sync round_pct be w Ho)|].
  split; [|split].
  - intro f. unfold onFilterClick. rewrite run_bind, run_modify, run_renderNews.
    apply rendered_in_sync.
  - intro H. rewrite run_onLangClick.
    destruct (currentLang (vars w)) eqn:El; [|apply rendered_in_sync].
    cbv zeta. destruct H as [H|H]; [discriminate|].
    destruct (original (vars w)) as [|x l] eqn:Eo; [congruence|]. cbn [length Nat.ltb Nat.leb].
    apply (translateNews_in_sync round_pct be
             (mkWorld (set_currentLang Ru (vars w)) (calls w) (trace w)) Ho).
  - intro forceRefresh. rewrite run_loadNews.
    destruct (be (calls w) (GetNews forceRefresh)) as [[st [[|items]|]]|];
      cbn [body]; try reflexivity.
    destruct (loaded_original (or_else items []) forceRefresh w) as [Hl _].
    destruct (currentLang (vars w)) eqn:El.
    + rewrite run_renderNews. apply rendered_in_sync.
    + apply (translateNews_in_sync round_pct be _ Hl).
Qed.

Lemma page_shows_the_projection_witness :
  let w := Sample.start (Sample.items 25) Ru in
  let r := run (Sample.failing_at 1 (Sample.items 25)) (translateNews exact_pct) w in
  well_formed (vars w) /\
  newsGrid (vars (snd r)) = rendering (vars (snd r)).
Proof.
  intros w r. split; [apply sample_well_formed|].
  exact (proj1 (@page_shows_the_projection exact_pct
           (Sample.failing_at 1 (Sample.items 25)) w (sample_well_formed _ _))).
Defined.

(** * The settings form *)

Import Settings.

(** ** Arrays *)

Lemma array_set_same (a : list cell) (i : nat) (v : string) :
  nth_error (array_set a i v) i = Some (Some v).
Proof.
  revert a. induction i as [|i IH]; intros [|x a]; cbn; auto.
Qed.

Lemma array_set_length (a : list cell) (i : nat) (v : string) :
  i < length a -> length (array_set a i v) = length a.
Proof.
  revert a. induction i as [|i IH]; intros [|x a] H; cbn in *; try lia.
  rewrite IH; lia.
Qed.

Lemma array_set_other (a : list cell) (i j : nat) (v : string) :
  i < length a -> j <> i ->
  nth_error (array_set a i v) j = nth_error a j.
Proof.
  revert a j. induction i as [|i IH]; intros [|x a] [|j] H Hj; cbn in *;
    try lia; try reflexivity.
  apply IH; lia.
Qed.

Lemma replace_length (A : Type) (a : list A) (i : nat) (x : A) :
  length (replace a i x) = length a.
Proof.
  revert i. induction a as [|y a IH]; intros [|i]; cbn; auto.
Qed.

Lemma replace_same (A : Type) (a : list A) (i : nat) (x : A) :
  i < length a -> nth_error (replace a i x) i = Some x.
Proof.
  revert i. induction a as [|y a IH]; intros [|i] H; cbn in *; try lia; [reflexivity|].
  apply IH. lia.
Qed.

Lemma replace_other (A : Type) (a : list A) (i j : nat) (x : A) :
  j <> i -> nth_error (replace a i x) j = nth_error a j.
Proof.
  revert i j. induction a as [|y a IH]; intros [|i] [|j] H; cbn; auto;
    try lia.
Qed.

Lemma splice1_last (A : Type) (a : list A) (x : A) :
  splice1 (a ++ [x]) (length a) = a.
Proof.
  unfold splice1. rewrite firstn_app, Nat.sub_diag, firstn_all.
  cbn [firstn]. rewrite app_nil_r.
  rewrite skipn_all2; [apply app_nil_r|]. rewrite length_app. cbn. lia.
Qed.

Lemma keep_truthy_strings (s : list string) :
  keep_truthy (map Some s) = map Some (filter truthy s).
Proof.
  induction s as [|x s IH]; [reflexivity|]. cbn.
  destruct (truthy x); cbn; rewrite <- IH; reflexivity.
Qed.

Lemma truthy_true (s : string) : truthy s = true <-> s <> "".
Proof.
  unfold truthy. rewrite negb_true_iff. apply String.eqb_neq.
Qed.

Lemma keep_truthy_clean (a : list cell) :
  exists s, keep_truthy a = map Some s /\ Forall (fun x => x <> "") s.
Proof.
  induction a as [|[x|] a (s & E & F)]; cbn.
  - exists []. split; [reflexivity|constructor].
  - destruct (truthy x) eqn:T.
    + exists (x :: s). cbn. rewrite <- E. split; [reflexivity|].
      constructor; [apply truthy_true; exact T|exact F].
    + exists s. split; [exact E|exact F].
  - exists s. split; [exact E|exact F].
Qed.

Lemma keep_named_clean (a : list Feed) :
  Forall (fun f => name f <> "" /\ url f <> "") (keep_named a).
Proof.
  apply Forall_forall. intros f H. apply filter_In in H. destruct H as [_ H].
  apply andb_true_iff in H. destruct H as [H1 H2].
  split; apply truthy_true; assumption.
Qed.

Lemma filter_all (A : Type) (f : A -> bool) (l : list A) :
  Forall (fun x => f x = true) l -> filter f l = l.
Proof.
  induction 1 as [|x l H _ IH]; [reflexivity|]. cbn. rewrite H, IH. reflexivity.
Qed.

(** ** Reading and writing the config *)

Section FormFacts.

Variable trim : string -> string.

Lemma collect_keeps_absent (i : Input) (c c' : Config) :
  collect trim i c = Ok c' ->
  (subreddits c = None -> subreddits c' = None) /\
  (rss_feeds c = None -> rss_feeds c' = None) /\
  (hackernews_keywords c = None -> hackernews_keywords c' = None).
Proof.
  unfold collect. destruct c as [s f k].
  destruct (data_type i); cbn;
    [destruct s| destruct f as [f|]; [destruct (nth_error f (data_index i))|]
    | destruct f as [f|]; [destruct (nth_error f (data_index i))|]
    | destruct k];
    intro H; inversion H; subst; cbn; repeat split; auto; discriminate.
Qed.

Lemma forEach_keeps_absent (l : list Input) :
  forall c c', forEach trim l c = Ok c' -> incomplete c -> incomplete c'.
Proof.
  induction l as [|i l IH]; intros c c' H Hc; cbn in H.
  - inversion H; subst. exact Hc.
  - destruct (collect trim i c) as [c1|c1] eqn:E; [|discriminate].
    apply (IH _ _ H). destruct (collect_keeps_absent _ _ E) as (H1 & H2 & H3).
    destruct Hc as [Hc|[Hc|Hc]]; [left|right; left|right; right]; auto.
Qed.

Lemma drop_empty_incomplete (c : Config) :
  incomplete c -> exists c', drop_empty c = TypeError c'.
Proof.
  destruct c as [[s|] [f|] [k|]]; intros [H|[H|H]]; cbn in H;
    try discriminate; unfold drop_empty; cbn; eexists; reflexivity.
Qed.

Lemma drop_empty_clean (c c' : Config) :
  drop_empty c = Ok c' -> clean c'.
Proof.
  destruct c as [[s|] [f|] [k|]]; unfold drop_empty; cbn; intro H;
    inversion H; subst; clear H.
  destruct (keep_truthy_clean s) as (s' & Es & Fs).
  destruct (keep_truthy_clean k) as (k' & Ek & Fk).
  exists s', (keep_named f), k'. unfold set_hackernews_keywords. cbn.
  rewrite Es, Ek. repeat split; auto. apply keep_named_clean.
Qed.

Lemma read_written_strings (ty : input_type) (s' : list cell) :
  forall (l : list Input) (a : nat),
    slots l = map (fun i => (ty, i)) (seq a (length s')) ->
    (forall x, In x l ->
       nth_error s' (data_index x - a) = Some (Some (trim (value x)))) ->
    s' = strings_typed trim l.
Proof.
  induction s' as [|c s' IH]; intros l a Hs Hr; cbn in Hs.
  - apply map_eq_nil in Hs. subst l. reflexivity.
  - destruct l as [|x l]; [discriminate|]. cbn in Hs.
    injection Hs as _ Hx Hl.
    cbn. f_equal.
    + specialize (Hr x (or_introl eq_refl)). rewrite Hx, Nat.sub_diag in Hr.
      cbn in Hr. congruence.
    + apply (IH l (S a) Hl). intros y Hy.
      assert (Hge : S a <= data_index y).
      { assert (Hin : In (slot y) (map slot l)) by (apply in_map; exact Hy).
        fold (slots l) in Hin, Hl. unfold slots in Hin, Hl.
        rewrite Hl in Hin. apply in_map_iff in Hin.
        destruct Hin as (j & Ej & Hj). apply in_seq in Hj.
        unfold slot in Ej. injection Ej as _ Ej. lia. }
      specialize (Hr y (or_intror Hy)).
      replace (data_index y - a) with (S (data_index y - S a)) in Hr by lia.
      exact Hr.
Qed.

Lemma read_written_feeds (f' : list Feed) :
  forall (l : list Input) (a : nat),
    slots l = flat_map (fun i => [(TRssName, i); (TRssUrl, i)])
                       (seq a (length f')) ->
    (forall x, In x l ->
       match data_type x with
       | TRssName =>
           option_map name (nth_error f' (data_index x - a)) = Some (trim (value x))
       | TRssUrl =>
           option_map url (nth_error f' (data_index x - a)) = Some (trim (value x))
       | _ => True
       end) ->
    f' = feeds_typed trim l.
Proof.
  induction f' as [|ft f' IH]; intros l a Hs Hr; cbn in Hs.
  - apply map_eq_nil in Hs. subst l. reflexivity.
  - destruct l as [|x [|y l]]; try discriminate. cbn in Hs.
    injection Hs as Hxt Hxi Hyt Hyi Hl.
    cbn [feeds_typed]. f_equal.
    + pose proof (Hr x (or_introl eq_refl)) as H1.
      pose proof (Hr y (or_intror (or_introl eq_refl))) as H2.
      rewrite Hxt, Hxi, Nat.sub_diag in H1. rewrite Hyt, Hyi, Nat.sub_diag in H2.
      cbn in H1, H2. destruct ft as [n u]. cbn in H1, H2. congruence.
    + apply (IH l (S a) Hl). intros z Hz.
      assert (Hge : S a <= data_index z).
      { assert (Hin : In (slot z) (map slot l)) by (apply in_map; exact Hz).
        fold (slots l) in Hin, Hl. unfold slots in Hin, Hl.
        rewrite Hl in Hin. apply in_flat_map in Hin.
        destruct Hin as (j & Hj & Ej). apply in_seq in Hj.
        unfold slot in Ej.
        destruct Ej as [Ej|[Ej|[]]]; injection Ej as _ Ej; lia. }
      specialize (Hr z (or_intror (or_intror Hz))).
      replace (data_index z - a) with (S (data_index z - S a)) in Hr by lia.
      exact Hr.
Qed.

Lemma slot_eq_dec (a b : input_type * nat) : {a = b} + {a <> b}.
Proof. repeat decide equality. Defined.

(** One input written: its place holds it, the other places and the
    sizes stay. *)
Lemma collect_fits (ns nf nk : nat) (i : Input) (c : Config) :
  sized ns nf nk c ->
  fits ns nf nk i ->
  exists c',
    collect trim i c = Ok c' /\
    sized ns nf nk c' /\
    read (slot i) c' = Some (trim (value i)) /\
    forall sl, sl <> slot i -> read sl c' = read sl c.
Proof.
  intros (s & f & k & -> & Hs & Hf & Hk) Hi.
  unfold fits in Hi. unfold collect, slot, read.
  destruct (data_type i) eqn:Et; cbn [subreddits rss_feeds hackernews_keywords].
  - eexists. split; [reflexivity|]. split; [|split].
    + exists (array_set s (data_index i) (trim (value i))), f, k.
      rewrite array_set_length by lia. auto.
    + cbn. rewrite array_set_same. reflexivity.
    + intros [ty j] Hne. cbn. destruct ty; try reflexivity.
      rewrite array_set_other; [reflexivity|lia|congruence].
  - destruct (nth_error f (data_index i)) as [ft|] eqn:En;
      [|apply nth_error_None in En; lia].
    eexists. split; [reflexivity|]. split; [|split].
    + exists s, (replace f (data_index i) (mkFeed (trim (value i)) (url ft))), k.
      rewrite replace_length. auto.
    + cbn. rewrite replace_same by lia. reflexivity.
    + intros [ty j] Hne. cbn. destruct ty; try reflexivity.
      * rewrite replace_other; [reflexivity|congruence].
      * destruct (Nat.eq_dec j (data_index i)) as [->|Hj].
        -- rewrite replace_same by lia. rewrite En. reflexivity.
        -- rewrite replace_other by exact Hj. reflexivity.
  - destruct (nth_error f (data_index i)) as [ft|] eqn:En;
      [|apply nth_error_None in En; lia].
    eexists. split; [reflexivity|]. split; [|split].
    + exists s, (replace f (data_index i) (mkFeed (name ft) (trim (value i)))), k.
      rewrite replace_length. auto.
    + cbn. rewrite replace_same by lia. reflexivity.
    + intros [ty j] Hne. cbn. destruct ty; try reflexivity.
      * destruct (Nat.eq_dec j (data_index i)) as [->|Hj].
        -- rewrite replace_same by lia. rewrite En. reflexivity.
        -- rewrite replace_other by exact Hj. reflexivity.
      * rewrite replace_other; [reflexivity|congruence].
  - eexists. split; [reflexivity|]. split; [|split].
    + exists s, f, (array_set k (data_index i) (trim (value i))).
      rewrite array_set_length by lia. auto.
    + cbn. rewrite array_set_same. reflexivity.
    + intros [ty j] Hne. cbn. destruct ty; try reflexivity.
      rewrite array_set_other; [reflexivity|lia|congruence].
Qed.

(** All inputs written, in any order and any number of times: each
    place holds what its input holds. *)
Lemma forEach_fits (ns nf nk : nat) (l : list Input) :
  forall c,
    sized ns nf nk c ->
    (forall x, In x l -> fits ns nf nk x) ->
    (forall x y, In x l -> In y l -> slot x = slot y -> value x = value y) ->
    exists c',
      forEach trim l c = Ok c' /\
      sized ns nf nk c' /\
      (forall x, In x l -> read (slot x) c' = Some (trim (value x))) /\
      (forall sl, ~ In sl (slots l) -> read sl c' = read sl c).
Proof.
  induction l as [|i l IH]; intros c Hc Hfit Hfun.
  - exists c. cbn. repeat split; auto. intros x [].
  - destruct (@collect_fits ns nf nk i c Hc (Hfit i (or_introl eq_refl)))
      as (c1 & E1 & Hc1 & Hw1 & Ho1).
    destruct (IH c1 Hc1 (fun x H => Hfit x (or_intror H))
                 (fun x y Hx Hy => Hfun x y (or_intror Hx) (or_intror Hy)))
      as (c' & E' & Hc' & Hw' & Ho').
    exists c'. cbn [forEach]. rewrite E1. split; [exact E'|].
    split; [exact Hc'|]. split.
    + intros x [<-|Hx]; [|apply Hw'; exact Hx].
      destruct (in_dec slot_eq_dec (slot i) (slots l)) as [Hin|Hout].
      * apply in_map_iff in Hin. destruct Hin as (y & Ey & Hy).
        rewrite <- Ey, (Hw' y Hy).
        rewrite (Hfun y i (or_intror Hy) (or_introl eq_refl) Ey). reflexivity.
      * rewrite (Ho' _ Hout). exact Hw1.
    + intros sl Hsl. cbn in Hsl.
      rewrite Ho' by (intro H; apply Hsl; right; exact H).
      apply Ho1. intro H. apply Hsl. left. symmetry. exact H.
Qed.

End FormFacts.

(** ** The rows of a rendered form *)

Lemma NoDup_string_slots (ty : input_type) (n : nat) :
  forall a, NoDup (map (fun i => (ty, i)) (seq a n)).
Proof.
  induction n as [|n IH]; intro a; cbn; constructor; [|apply IH].
  intro H. apply in_map_iff in H. destruct H as (j & Ej & Hj).
  apply in_seq in Hj. injection Ej as Ej. lia.
Qed.

Lemma NoDup_feed_slots (n : nat) :
  forall a, NoDup (flat_map (fun i => [(TRssName, i); (TRssUrl, i)]) (seq a n)).
Proof.
  induction n as [|n IH]; intro a; cbn; [constructor|].
  constructor; [|constructor; [|apply IH]].
  - intros [H|H]; [discriminate|]. apply in_flat_map in H.
    destruct H as (j & Hj & [E|[E|[]]]); apply in_seq in Hj;
      injection E as E; lia.
  - intro H. apply in_flat_map in H.
    destruct H as (j & Hj & [E|[E|[]]]); apply in_seq in Hj;
      injection E as E; lia.
Qed.

Lemma NoDup_map_injective (A B : Type) (f : A -> B) (l : list A) :
  NoDup (map f l) ->
  forall x y, In x l -> In y l -> f x = f y -> x = y.
Proof.
  induction l as [|z l IH]; intros Hn x y Hx Hy E; [destruct Hx|].
  cbn in Hn. inversion Hn as [|? ? Hz Hl]; subst.
  destruct Hx as [<-|Hx], Hy as [<-|Hy]; auto.
  - exfalso. apply Hz. rewrite E. apply in_map. exact Hy.
  - exfalso. apply Hz. rewrite <- E. apply in_map. exact Hx.
Qed.

Lemma rows_slots (p : Page) :
  rows_match p ->
  slots (subredditsList p ++ rssFeedsList p ++ keywordsList p) =
    map (fun i => (TSubreddits, i))
        (seq 0 (length (or_empty (subreddits (config p))))) ++
    flat_map (fun i => [(TRssName, i); (TRssUrl, i)])
             (seq 0 (length (or_empty (rss_feeds (config p))))) ++
    map (fun i => (TKeywords, i))
        (seq 0 (length (or_empty (hackernews_keywords (config p))))).
Proof.
  intros (H1 & H2 & H3). unfold slots in *. rewrite !map_app, H1, H2, H3.
  reflexivity.
Qed.

Lemma rows_fit (p : Page) :
  rows_match p ->
  forall x, In x (subredditsList p ++ rssFeedsList p ++ keywordsList p) ->
    fits (length (or_empty (subreddits (config p))))
         (length (or_empty (rss_feeds (config p))))
         (length (or_empty (hackernews_keywords (config p)))) x.
Proof.
  intros Hm x Hx.
  assert (Hin : In (slot x)
                  (slots (subredditsList p ++ rssFeedsList p ++ keywordsList p)))
    by (apply in_map; exact Hx).
  rewrite (rows_slots Hm) in Hin. unfold fits, slot in *.
  apply in_app_or in Hin. destruct Hin as [Hin|Hin].
  - apply in_map_iff in Hin. destruct Hin as (j & Ej & Hj).
    apply in_seq in Hj. injection Ej as Et Ei. rewrite <- Et. lia.
  - apply in_app_or in Hin. destruct Hin as [Hin|Hin].
    + apply in_flat_map in Hin.
      destruct Hin as (j & Hj & [E|[E|[]]]); apply in_seq in Hj;
        injection E as Et Ei; rewrite <- Et; lia.
    + apply in_map_iff in Hin. destruct Hin as (j & Ej & Hj).
      apply in_seq in Hj. injection Ej as Et Ei. rewrite <- Et. lia.
Qed.

Lemma rows_unique (p : Page) :
  rows_match p ->
  forall x y,
    In x (subredditsList p ++ rssFeedsList p ++ keywordsList p) ->
    In y (subredditsList p ++ rssFeedsList p ++ keywordsList p) ->
    slot x = slot y -> x = y.
Proof.
  intro Hm. apply NoDup_map_injective. fold (slots (subredditsList p ++ rssFeedsList p ++ keywordsList p)).
  rewrite (rows_slots Hm).
  apply NoDup_app; [apply NoDup_string_slots| |].
  - apply NoDup_app; [apply NoDup_feed_slots|apply NoDup_string_slots|].
    intros sl H1 H2. apply in_flat_map in H1. apply in_map_iff in H2.
    destruct H1 as (j & _ & [E|[E|[]]]), H2 as (j' & E' & _); congruence.
  - intros sl H1 H2. apply in_map_iff in H1. destruct H1 as (j & E & _).
    apply in_app_or in H2. destruct H2 as [H2|H2].
    + apply in_flat_map in H2.
      destruct H2 as (j' & _ & [E'|[E'|[]]]); congruence.
    + apply in_map_iff in H2. destruct H2 as (j' & E' & _). congruence.
Qed.

(** ** [saveSettings] on a rendered form *)

(** With the three lists there and the rows those of the config, the
    part of [saveSettings] before the request ends normally, and the
    config it leaves is what the rows spell without the blank ones. *)
Lemma save_request_rows (trim : string -> string)
    (document_order : list Input -> list Input -> list Input -> list Input)
    (p : Page) :
  lists_the_inputs document_order ->
  ~ incomplete (config p) ->
  rows_match p ->
  saveSettings_request trim document_order p = Ok (set_config (kept trim p) p).
Proof.
  intros Hord Hc Hm.
  set (ns := length (or_empty (subreddits (config p)))).
  set (nf := length (or_empty (rss_feeds (config p)))).
  set (nk := length (or_empty (hackernews_keywords (config p)))).
  assert (Hs : sized ns nf nk (config p)).
  { unfold ns, nf, nk. destruct (config p) as [[s|] [f|] [k|]];
      try (exfalso; apply Hc; unfold incomplete; cbn; tauto).
    exists s, f, k. cbn. auto. }
  set (rows := subredditsList p ++ rssFeedsList p ++ keywordsList p).
  assert (Hin : forall x, In x (querySelectorAll document_order p) <-> In x rows)
    by (intro x; apply Hord).
  destruct (@forEach_fits trim ns nf nk (querySelectorAll document_order p)
              (config p) Hs) as (c' & E & Hs' & Hw & _).
  { intros x Hx. apply (rows_fit Hm). apply Hin. exact Hx. }
  { intros x y Hx Hy Exy. f_equal.
    apply (rows_unique Hm); [apply Hin; exact Hx|apply Hin; exact Hy|exact Exy]. }
  assert (Hw' : forall x, In x rows -> read (slot x) c' = Some (trim (value x)))
    by (intros x Hx; apply Hw, Hin; exact Hx).
  destruct Hs' as (s' & f' & k' & -> & Ls & Lf & Lk).
  destruct Hm as (M1 & M2 & M3). fold ns in M1. fold nf in M2. fold nk in M3.
  assert (Es : s' = strings_typed trim (subredditsList p)).
  { apply (@read_written_strings trim TSubreddits s' (subredditsList p) 0).
    - rewrite Ls. exact M1.
    - intros x Hx.
      assert (Ht : data_type x = TSubreddits).
      { assert (H : In (slot x) (slots (subredditsList p)))
          by (apply in_map; exact Hx).
        rewrite M1 in H. apply in_map_iff in H. destruct H as (j & Ej & _).
        unfold slot in Ej. congruence. }
      specialize (Hw' x (in_or_app _ _ _ (or_introl Hx))).
      unfold read, slot in Hw'. cbn in Hw'. rewrite Ht in Hw'.
      rewrite Nat.sub_0_r.
      destruct (nth_error s' (data_index x)) as [[v|]|]; try discriminate.
      injection Hw' as ->. reflexivity. }
  assert (Ek : k' = strings_typed trim (keywordsList p)).
  { apply (@read_written_strings trim TKeywords k' (keywordsList p) 0).
    - rewrite Lk. exact M3.
    - intros x Hx.
      assert (Ht : data_type x = TKeywords).
      { assert (H : In (slot x) (slots (keywordsList p)))
          by (apply in_map; exact Hx).
        rewrite M3 in H. apply in_map_iff in H. destruct H as (j & Ej & _).
        unfold slot in Ej. congruence. }
      specialize (Hw' x (in_or_app _ _ _ (or_intror (in_or_app _ _ _ (or_intror Hx))))).
      unfold read, slot in Hw'. cbn in Hw'. rewrite Ht in Hw'.
      rewrite Nat.sub_0_r.
      destruct (nth_error k' (data_index x)) as [[v|]|]; try discriminate.
      injection Hw' as ->. reflexivity. }
  assert (Ef : f' = feeds_typed trim (rssFeedsList p)).
  { apply (@read_written_feeds trim f' (rssFeedsList p) 0).
    - rewrite Lf. exact M2.
    - intros x Hx.
      specialize (Hw' x (in_or_app _ _ _ (or_intror (in_or_app _ _ _ (or_introl Hx))))).
      unfold read, slot in Hw'. cbn in Hw'. rewrite Nat.sub_0_r.
      destruct (data_type x); auto. }
  unfold saveSettings_request. rewrite E, Es, Ef, Ek. reflexivity.
Qed.

(** X14. When one of the three lists is missing from [config] (as in
    the [{}] the script starts with), [saveSettings] ends in a
    [TypeError] before it sends anything, whatever the form holds: no
    request, no message, no reload. *)
Theorem save_needs_all_three_lists (trim : string -> string)
    (document_order : list Input -> list Input -> list Input -> list Input)
    (reply : option response) (p : Page) :
  incomplete (config p) ->
  exists p', saveSettings trim document_order reply p = (TypeError p', []).
Proof.
  intro Hc. unfold saveSettings, saveSettings_request.
  destruct (forEach trim (querySelectorAll document_order p) (config p))
    as [c|c] eqn:E; [|eexists; reflexivity].
  destruct (drop_empty_incomplete (forEach_keeps_absent _ _ E Hc)) as [c' ->].
  eexists. reflexivity.
Qed.

Lemma save_needs_all_three_lists_witness :
  let p := mkPage (mkConfig (Some [Some "rust"]) None (Some []))
                  [mkInput TSubreddits 0 "rust"] [] [] true in
  incomplete (config p) /\
  exists p', saveSettings (fun s => s) (fun a b c => a ++ b ++ c)
               (Some (mkResponse 200 None)) p = (TypeError p', []).
Proof.
  intro p.
  assert (H : incomplete (config p)) by (right; left; reflexivity).
  split; [exact H|].
  exact (@save_needs_all_three_lists (fun s => s) (fun a b c => a ++ b ++ c)
           (Some (mkResponse 200 None)) p H).
Defined.

(** X15. Whatever the form holds, a config that [saveSettings] posts
    has its three lists, no hole and no empty string among its
    subreddits and keywords, and no feed whose name or url is empty; and
    it is the config the page keeps. *)
Theorem posted_config_is_clean (trim : string -> string)
    (document_order : list Input -> list Input -> list Input -> list Input)
    (reply : option response) (p : Page) (body : Config) :
  In (PostConfig body) (snd (saveSettings trim document_order reply p)) ->
  clean body /\
  exists p', fst (saveSettings trim document_order reply p) = Ok p' /\
             config p' = body.
Proof.
  unfold saveSettings, saveSettings_request.
  destruct (forEach trim (querySelectorAll document_order p) (config p))
    as [c|c]; [|intros []].
  destruct (drop_empty c) as [c'|c'] eqn:E; [|intros []].
  destruct reply as [r|]; cbn.
  - intros [H|[H|[]]]; [|discriminate]. injection H as <-.
    split; [apply (drop_empty_clean _ E)|]. eexists. split; reflexivity.
  - intros [H|[H|[H|[]]]]; try discriminate. injection H as <-.
    split; [apply (drop_empty_clean _ E)|]. eexists. split; reflexivity.
Qed.

Lemma posted_config_is_clean_witness :
  let p := mkPage (mkConfig (Some [Some "rust"; Some "ml"]) (Some []) (Some [Some "ai"]))
                  [mkInput TSubreddits 0 ""; mkInput TSubreddits 1 "coq"] []
                  [mkInput TKeywords 0 "llm"] true in
  let body := mkConfig (Some [Some "coq"]) (Some []) (Some [Some "llm"]) in
  In (PostConfig body)
     (snd (saveSettings (fun s => s) (fun a b c => a ++ b ++ c) None p)) /\
  clean body.
Proof.
  intros p body.
  assert (H : In (PostConfig body)
                (snd (saveSettings (fun s => s) (fun a b c => a ++ b ++ c) None p)))
    by (left; reflexivity).
  split; [exact H|].
  exact (proj1 (@posted_config_is_clean (fun s => s) (fun a b c => a ++ b ++ c)
                  None p body H)).
Defined.

(** X16. On a form whose rows are those of its config, with the three
    lists there, [saveSettings] posts what the rows show: every field
    trimmed, rows left blank dropped, the order kept.  If the request is
    answered, with whatever status, the modal is closed and a forced
    reload of the feed is started; if it fails, an error is logged and
    an alert shown, the modal stays as it is and nothing is reloaded.
    Either way the page keeps the posted config. *)
Theorem save_posts_what_the_rows_show (trim : string -> string)
    (document_order : list Input -> list Input -> list Input -> list Input)
    (reply : option response) (p : Page) :
  lists_the_inputs document_order ->
  ~ incomplete (config p) ->
  rows_match p ->
  let q := set_config (kept trim p) p in
  saveSettings trim document_order reply p =
    match reply with
    | Some _ => (Ok (closeSettings q), [PostConfig (kept trim p); LoadNews true])
    | None => (Ok q, [PostConfig (kept trim p); ConsoleError; Alert])
    end.
Proof.
  intros Hord Hc Hm q. unfold saveSettings.
  rewrite (save_request_rows trim Hord Hc Hm). fold q.
  destruct reply; reflexivity.
Qed.

Lemma lists_in_render_order :
  lists_the_inputs (fun a b c => a ++ b ++ c).
Proof. intros a b c x. reflexivity. Qed.

Lemma save_posts_what_the_rows_show_witness :
  let p := mkPage (mkConfig (Some [Some "rust"; Some "ml"])
                            (Some [mkFeed "HN" "https://hn.example/rss"])
                            (Some []))
                  [mkInput TSubreddits 0 "rust"; mkInput TSubreddits 1 ""]
                  [mkInput TRssName 0 "Hacker News";
                   mkInput TRssUrl 0 "https://hn.example/rss"]
                  [] true in
  let body := mkConfig (Some [Some "rust"])
                       (Some [mkFeed "Hacker News" "https://hn.example/rss"])
                       (Some []) in
  snd (saveSettings (fun s => s) (fun a b c => a ++ b ++ c)
         (Some (mkResponse 500 None)) p) = [PostConfig body; LoadNews true].
Proof.
  intros p body.
  assert (Hc : ~ incomplete (config p))
    by (intros [H|[H|H]]; discriminate H).
  assert (Hm : rows_match p) by (repeat split).
  exact (f_equal snd
           (@save_posts_what_the_rows_show (fun s => s) (fun a b c => a ++ b ++ c)
              (Some (mkResponse 500 None)) p lists_in_render_order Hc Hm)).
Defined.

(** ** Rendered rows *)

Section Rendered.

Variable trim : string -> string.
Variable attribute_value : string -> string.

Lemma string_rows_slots (ty : input_type) (s : list string) :
  forall a,
    slots (string_rows attribute_value ty a (map Some s)) =
    map (fun i => (ty, i)) (seq a (length s)).
Proof.
  induction s as [|x s IH]; intro a; [reflexivity|].
  cbn. unfold slots in IH. rewrite IH. reflexivity.
Qed.

Lemma string_rows_typed (ty : input_type) (s : list string) :
  forall a,
    strings_typed trim (string_rows attribute_value ty a (map Some s)) =
    map (fun x => Some (trim (input_value attribute_value x))) s.
Proof.
  induction s as [|x s IH]; intro a; [reflexivity|].
  cbn. unfold strings_typed in IH. rewrite IH. reflexivity.
Qed.

Lemma feed_rows_slots (f : list Feed) :
  forall a,
    slots (feed_rows attribute_value a f) =
    flat_map (fun i => [(TRssName, i); (TRssUrl, i)]) (seq a (length f)).
Proof.
  induction f as [|x f IH]; intro a; [reflexivity|].
  cbn. unfold slots in IH. rewrite IH. reflexivity.
Qed.

Lemma feed_rows_typed (f : list Feed) :
  forall a,
    feeds_typed trim (feed_rows attribute_value a f) =
    map (fun x => mkFeed (trim (input_value attribute_value (name x)))
                         (trim (input_value attribute_value (url x)))) f.
Proof.
  induction f as [|x f IH]; intro a; [reflexivity|].
  cbn. rewrite IH. reflexivity.
Qed.

(** A save on a form just rendered from a config without holes. *)
Lemma save_request_rendered
    (document_order : list Input -> list Input -> list Input -> list Input)
    (p : Page) (s k : list string) (f : list Feed) :
  lists_the_inputs document_order ->
  config p = mkConfig (Some (map Some s)) (Some f) (Some (map Some k)) ->
  let q := renderSettingsLists attribute_value p in
  saveSettings_request trim document_order q =
    Ok (set_config
          (mkConfig
             (Some (keep_truthy
                      (map (fun x => Some (trim (input_value attribute_value x))) s)))
             (Some (keep_named
                      (map (fun x => mkFeed (trim (input_value attribute_value (name x)))
                                            (trim (input_value attribute_value (url x)))) f)))
             (Some (keep_truthy
                      (map (fun x => Some (trim (input_value attribute_value x))) k))))
          q).
Proof.
  intros Hord Hc q.
  assert (Hq : config q = config p) by reflexivity.
  rewrite (@save_request_rows trim document_order q Hord).
  - unfold kept, q, renderSettingsLists.
    cbn [subredditsList rssFeedsList keywordsList]. rewrite Hc.
    cbn [subreddits rss_feeds hackernews_keywords or_empty].
    rewrite !string_rows_typed, feed_rows_typed. reflexivity.
  - rewrite Hq, Hc. intros [H|[H|H]]; discriminate H.
  - unfold rows_match, q, renderSettingsLists.
    cbn [subredditsList rssFeedsList keywordsList config]. rewrite Hc.
    cbn [subreddits rss_feeds hackernews_keywords or_empty].
    rewrite !string_rows_slots, feed_rows_slots, !length_map. repeat split.
Qed.

Lemma keep_truthy_app (a b : list cell) :
  keep_truthy (a ++ b) = keep_truthy a ++ keep_truthy b.
Proof. apply filter_app. Qed.

Lemma keep_named_app (a b : list Feed) :
  keep_named (a ++ b) = keep_named a ++ keep_named b.
Proof. apply filter_app. Qed.

Lemma input_value_nonempty (x : string) :
  x <> "" -> input_value attribute_value x = attribute_value x.
Proof.
  intro H. apply String.eqb_neq in H. unfold input_value. rewrite H.
  reflexivity.
Qed.

(** Strings that come back from the form as they went in are kept as
    they are. *)
Lemma strings_come_back (s : list string) :
  Forall (fun x => x <> "") s ->
  (forall x, In x s -> trim (attribute_value x) = x) ->
  keep_truthy (map (fun x => Some (trim (input_value attribute_value x))) s) =
  map Some s.
Proof.
  intros Hs Ht. induction s as [|x s IH]; [reflexivity|].
  inversion Hs as [|? ? Hx Hs']; subst. cbn.
  rewrite (input_value_nonempty Hx), (Ht x (or_introl eq_refl)).
  apply truthy_true in Hx. rewrite Hx. unfold keep_truthy in IH.
  rewrite IH; [reflexivity|exact Hs'|]. intros y Hy. apply Ht. right. exact Hy.
Qed.

Lemma feeds_come_back (f : list Feed) :
  Forall (fun x => name x <> "" /\ url x <> "") f ->
  (forall x, In x f -> trim (attribute_value (name x)) = name x /\
                       trim (attribute_value (url x)) = url x) ->
  keep_named (map (fun x => mkFeed (trim (input_value attribute_value (name x)))
                                   (trim (input_value attribute_value (url x)))) f) =
  f.
Proof.
  intros Hf Ht. induction f as [|x f IH]; [reflexivity|].
  inversion Hf as [|? ? [Hn Hu] Hf']; subst. cbn.
  rewrite (input_value_nonempty Hn), (input_value_nonempty Hu).
  destruct (Ht x (or_introl eq_refl)) as [-> ->].
  apply truthy_true in Hn. apply truthy_true in Hu. rewrite Hn, Hu. cbn.
  unfold keep_named in IH. rewrite IH; [destruct x; reflexivity|exact Hf'|].
  intros y Hy. apply Ht. right. exact Hy.
Qed.

Lemma strings_of_parts (s k : list string) (f : list Feed) :
  let c := mkConfig (Some (map Some s)) (Some f) (Some (map Some k)) in
  (forall x, In x s -> In x (strings_of c)) /\
  (forall x, In x f -> In (name x) (strings_of c) /\ In (url x) (strings_of c)) /\
  (forall x, In x k -> In x (strings_of c)).
Proof.
  intro c. unfold strings_of, c. cbn [subreddits rss_feeds hackernews_keywords or_empty].
  split; [|split].
  - intros x Hx. apply in_or_app. left. apply in_flat_map.
    exists (Some x). split; [apply in_map; exact Hx|left; reflexivity].
  - intros x Hx. split; apply in_or_app; right; apply in_or_app; left;
      apply in_flat_map; exists x; (split; [exact Hx|cbn; auto]).
  - intros x Hx. apply in_or_app. right. apply in_or_app. right.
    apply in_flat_map.
    exists (Some x). split; [apply in_map; exact Hx|left; reflexivity].
Qed.

End Rendered.

(** X17. Opening the form on a config in which nothing is empty and
    saving it at once posts the config unchanged, provided each of its
    strings comes back from its input as it was written
    ([trim (attribute_value x) = x]). *)
Theorem open_then_save_round_trip (trim attribute_value : string -> string)
    (document_order : list Input -> list Input -> list Input -> list Input)
    (r : response) (p : Page) :
  lists_the_inputs document_order ->
  clean (config p) ->
  (forall x, In x (strings_of (config p)) -> trim (attribute_value x) = x) ->
  saveSettings trim document_order (Some r) (openSettings attribute_value p) =
    (Ok (closeSettings (openSettings attribute_value p)),
     [PostConfig (config p); LoadNews true]).
Proof.
  intros Hord (s & f & k & Hc & Hs & Hf & Hk) Ht.
  rewrite Hc in Ht. destruct (strings_of_parts s k f) as (Ps & Pf & Pk).
  unfold saveSettings.
  assert (E : saveSettings_request trim document_order
                (openSettings attribute_value p) =
              Ok (openSettings attribute_value p)).
  { pose proof (@save_request_rendered trim attribute_value document_order
                  (set_modalOverlay true p) s k f Hord Hc) as H.
    cbv zeta in H.
    rewrite strings_come_back, feeds_come_back, strings_come_back in H; auto.
    - unfold openSettings. 
      change (set_modalOverlay true (renderSettingsLists attribute_value p))
        with (renderSettingsLists attribute_value (set_modalOverlay true p)).
      rewrite H. f_equal. unfold renderSettingsLists, set_config, set_modalOverlay.
      cbn. rewrite Hc. reflexivity.
    - intros x Hx. destruct (Pf x Hx). split; apply Ht; assumption. }
  rewrite E. reflexivity.
Qed.

Lemma open_then_save_round_trip_witness :
  let p := mkPage (mkConfig (Some [Some "rust"; Some "ml"])
                            (Some [mkFeed "HN" "https://hn.example/rss"])
                            (Some [Some "ai"]))
                  [] [] [] false in
  snd (saveSettings (fun s => s) (fun a b c => a ++ b ++ c)
         (Some (mkResponse 200 None)) (openSettings (fun s => s) p)) =
  [PostConfig (config p); LoadNews true].
Proof.
  intro p.
  assert (Hc : clean (config p)).
  { exists ["rust"; "ml"], [mkFeed "HN" "https://hn.example/rss"], ["ai"].
    split; [reflexivity|].
    repeat split; repeat constructor; discriminate. }
  exact (f_equal snd
           (@open_then_save_round_trip (fun s => s) (fun s => s)
              (fun a b c => a ++ b ++ c) (mkResponse 200 None) p
              lists_in_render_order Hc (fun x _ => eq_refl))).
Defined.

(** X18. On a config in which nothing is empty, a click on an Add
    button followed by Save posts the config as it was: the new blank
    row is dropped, and so is whatever had been typed into the rows
    before the click, since the click renders them anew from the config. *)
Theorem add_then_save_posts_the_old_config
    (trim attribute_value : string -> string)
    (document_order : list Input -> list Input -> list Input -> list Input)
    (r : response) (type : list_key) (p : Page) :
  lists_the_inputs document_order ->
  clean (config p) ->
  (forall x, In x (strings_of (config p)) -> trim (attribute_value x) = x) ->
  trim "" = "" ->
  let out := saveSettings trim document_order (Some r)
               (addSettingsItem attribute_value type p) in
  snd out = [PostConfig (config p); LoadNews true] /\
  exists q, fst out = Ok q /\ config q = config p /\ modalOverlay q = false.
Proof.
  intros Hord (s & f & k & Hc & Hs & Hf & Hk) Ht He out.
  rewrite Hc in Ht. destruct (strings_of_parts s k f) as (Ps & Pf & Pk).
  assert (Hf' : forall x, In x f -> trim (attribute_value (name x)) = name x /\
                                    trim (attribute_value (url x)) = url x)
    by (intros x Hx; destruct (Pf x Hx); split; apply Ht; assumption).
  assert (Hb : keep_truthy [Some (trim (input_value attribute_value ""))] = [])
    by (unfold input_value; cbn; rewrite He; reflexivity).
  assert (Hbf : keep_named
                  [mkFeed (trim (input_value attribute_value ""))
                          (trim (input_value attribute_value ""))] = [])
    by (unfold input_value; cbn; rewrite He; reflexivity).
  assert (E : exists q0,
             saveSettings_request trim document_order
               (addSettingsItem attribute_value type p) = Ok q0 /\
             config q0 = config p).
  { destruct type.
    - set (P' := set_config (mkConfig (Some (map Some (s ++ [""]))) (Some f)
                                      (Some (map Some k))) p).
      assert (Ea : addSettingsItem attribute_value KSubreddits p =
                   renderSettingsLists attribute_value P').
      { unfold addSettingsItem, P'. rewrite Hc. unfold set_subreddits. cbn.
        rewrite map_app. reflexivity. }
      rewrite Ea.
      pose proof (@save_request_rendered trim attribute_value document_order
                    P' (s ++ [""]) k f Hord eq_refl) as H.
      cbv zeta in H. rewrite H.
      eexists. split; [reflexivity|].
      cbn [config set_config]. rewrite map_app, keep_truthy_app.
      cbn [map]. rewrite Hb, app_nil_r.
      rewrite !strings_come_back, feeds_come_back; auto.
    - set (P' := set_config (mkConfig (Some (map Some s)) (Some (f ++ [mkFeed "" ""]))
                                      (Some (map Some k))) p).
      assert (Ea : addSettingsItem attribute_value KRssFeeds p =
                   renderSettingsLists attribute_value P').
      { unfold addSettingsItem, P'. rewrite Hc. reflexivity. }
      rewrite Ea.
      pose proof (@save_request_rendered trim attribute_value document_order
                    P' s k (f ++ [mkFeed "" ""]) Hord eq_refl) as H.
      cbv zeta in H. rewrite H.
      eexists. split; [reflexivity|].
      cbn [config set_config]. rewrite map_app, keep_named_app.
      cbn [map name url]. rewrite Hbf, app_nil_r.
      rewrite !strings_come_back, feeds_come_back; auto.
    - set (P' := set_config (mkConfig (Some (map Some s)) (Some f)
                                      (Some (map Some (k ++ [""])))) p).
      assert (Ea : addSettingsItem attribute_value KKeywords p =
                   renderSettingsLists attribute_value P').
      { unfold addSettingsItem, P'. rewrite Hc. unfold set_hackernews_keywords.
        cbn. rewrite map_app. reflexivity. }
      rewrite Ea.
      pose proof (@save_request_rendered trim attribute_value document_order
                    P' s (k ++ [""]) f Hord eq_refl) as H.
      cbv zeta in H. rewrite H.
      eexists. split; [reflexivity|].
      cbn [config set_config]. rewrite map_app, keep_truthy_app.
      cbn [map]. rewrite Hb, app_nil_r.
      rewrite !strings_come_back, feeds_come_back; auto. }
  destruct E as (q0 & E & Eq). unfold out, saveSettings. rewrite E.
  cbn [saveSettings_reply fst snd]. rewrite Eq. split; [reflexivity|].
  exists (closeSettings q0). repeat split. exact Eq.
Qed.

Lemma add_then_save_posts_the_old_config_witness :
  let p := mkPage (mkConfig (Some [Some "rust"])
                            (Some [mkFeed "HN" "https://hn.example/rss"])
                            (Some [Some "ai"]))
                  [mkInput TSubreddits 0 "typed but not saved"] [] [] true in
  snd (saveSettings (fun s => s) (fun a b c => a ++ b ++ c)
         (Some (mkResponse 200 None)) (addSettingsItem (fun s => s) KRssFeeds p)) =
  [PostConfig (config p); LoadNews true].
Proof.
  intro p.
  assert (Hc : clean (config p)).
  { exists ["rust"], [mkFeed "HN" "https://hn.example/rss"], ["ai"].
    split; [reflexivity|].
    repeat split; repeat constructor; discriminate. }
  exact (proj1 (@add_then_save_posts_the_old_config (fun s => s) (fun s => s)
                  (fun a b c => a ++ b ++ c) (mkResponse 200 None) KRssFeeds p
                  lists_in_render_order Hc (fun x _ => eq_refl) eq_refl)).
Defined.

(** X19. Add followed by Remove on the row just added gives back the
    form as [renderSettingsLists] draws it for the config there was,
    when the list is present in it. *)
Theorem add_then_remove_restores (attribute_value : string -> string)
    (type : list_key) (p : Page) (n : nat) :
  entries type (config p) = Some n ->
  removeSettingsItem attribute_value type n
    (addSettingsItem attribute_value type p) =
  Ok (renderSettingsLists attribute_value p).
Proof.
  destruct p as [[s f k] a b c m]. unfold entries.
  destruct type; cbn [config subreddits rss_feeds hackernews_keywords].
  - destruct s as [s|]; [|discriminate]. cbn. intro H. injection H as <-.
    unfold removeSettingsItem, addSettingsItem. cbn.
    rewrite splice1_last. reflexivity.
  - destruct f as [f|]; [|discriminate]. cbn. intro H. injection H as <-.
    unfold removeSettingsItem, addSettingsItem. cbn.
    rewrite splice1_last. reflexivity.
  - destruct k as [k|]; [|discriminate]. cbn. intro H. injection H as <-.
    unfold removeSettingsItem, addSettingsItem. cbn.
    rewrite splice1_last. reflexivity.
Qed.

Lemma add_then_remove_restores_witness :
  let p := mkPage (mkConfig (Some [Some "rust"; Some "ml"]) None (Some []))
                  [] [] [] true in
  removeSettingsItem (fun s => s) KSubreddits 2
    (addSettingsItem (fun s => s) KSubreddits p) =
  Ok (renderSettingsLists (fun s => s) p).
Proof.
  intro p.
  exact (@add_then_remove_restores (fun s => s) KSubreddits p 2 eq_refl).
Defined.

(** ** A save after a save that failed *)

Lemma collect_keeps_feed_count (trim : string -> string) (i : Input)
    (c c' : Config) :
  collect trim i c = Ok c' ->
  rss_feeds c <> None /\
  length (or_empty (rss_feeds c')) = length (or_empty (rss_feeds c)) \/
  rss_feeds c = None /\ rss_feeds c' = None.
Proof.
  unfold collect. destruct c as [s f k].
  destruct (data_type i); cbn;
    [destruct s| destruct f as [f|]; [destruct (nth_error f (data_index i))|]
    | destruct f as [f|]; [destruct (nth_error f (data_index i))|]
    | destruct k];
    intro H; inversion H; subst; cbn; rewrite ?replace_length;
    destruct f; auto; left; split; auto; discriminate.
Qed.

(** An input of a feed whose index is beyond the feeds stops the
    [forEach]. *)
Lemma forEach_throws (trim : string -> string) (l : list Input) :
  forall c x,
    In x l ->
    data_type x = TRssName \/ data_type x = TRssUrl ->
    length (or_empty (rss_feeds c)) <= data_index x ->
    exists c', forEach trim l c = TypeError c'.
Proof.
  induction l as [|i l IH]; intros c x Hx Ht Hlen; [destruct Hx|].
  cbn [forEach]. destruct (collect trim i c) as [c1|c1] eqn:E;
    [|eexists; reflexivity].
  destruct Hx as [->|Hx].
  - exfalso. unfold collect in E. destruct c as [s [f|] k]; cbn in *.
    + assert (En : nth_error f (data_index x) = None)
        by (apply nth_error_None; exact Hlen).
      destruct Ht as [Ht|Ht]; rewrite Ht, En in E; discriminate.
    + destruct Ht as [Ht|Ht]; rewrite Ht in E; discriminate.
  - apply (IH c1 x Hx Ht).
    destruct (collect_keeps_feed_count _ _ _ E) as [[_ H]|[H1 H2]].
    + rewrite H. exact Hlen.
    + rewrite H2. cbn. lia.
Qed.

Lemma feeds_typed_length (trim : string -> string) (n : nat) :
  forall l a,
    slots l = flat_map (fun i => [(TRssName, i); (TRssUrl, i)]) (seq a n) ->
    length (feeds_typed trim l) = n.
Proof.
  induction n as [|n IH]; intros l a H; cbn in H.
  - apply map_eq_nil in H. subst l. reflexivity.
  - destruct l as [|x [|y l]]; try discriminate. cbn in H.
    injection H as _ _ _ _ H. cbn [feeds_typed length]. f_equal.
    apply (IH l (S a)). exact H.
Qed.

Lemma filter_drops (A : Type) (f : A -> bool) (l : list A) :
  Exists (fun x => f x = false) l -> length (filter f l) < length l.
Proof.
  induction 1 as [x l H|x l _ IH]; cbn.
  - rewrite H. pose proof (filter_length_le f l). lia.
  - destruct (f x); cbn; lia.
Qed.

(** X20. When a save posts fewer feeds than the form has feed rows
    (a row had an empty name or url) and the request fails, the form is
    left with the rows as they were and the shorter list in [config];
    a second click on Save then ends in a [TypeError] and sends
    nothing. *)
Theorem retry_after_failed_save_throws (trim : string -> string)
    (document_order : list Input -> list Input -> list Input -> list Input)
    (reply : option response) (p : Page) :
  lists_the_inputs document_order ->
  ~ incomplete (config p) ->
  rows_match p ->
  Exists (fun f => name f = "" \/ url f = "") (feeds_typed trim (rssFeedsList p)) ->
  let p1 := set_config (kept trim p) p in
  saveSettings trim document_order None p =
    (Ok p1, [PostConfig (kept trim p); ConsoleError; Alert]) /\
  exists p2, saveSettings trim document_order reply p1 = (TypeError p2, []).
Proof.
  intros Hord Hc Hm Hex p1. split.
  { unfold saveSettings. rewrite (save_request_rows trim Hord Hc Hm).
    reflexivity. }
  set (nf := length (or_empty (rss_feeds (config p)))).
  pose proof Hm as (_ & M2 & _). fold nf in M2.
  pose proof (feeds_typed_length trim nf (rssFeedsList p) 0 M2) as Hlen.
  assert (Hlt : length (keep_named (feeds_typed trim (rssFeedsList p))) < nf).
  { rewrite <- Hlen. apply filter_drops.
    apply Exists_exists in Hex. destruct Hex as (f & Hf & Hblank).
    apply Exists_exists. exists f. split; [exact Hf|].
    apply andb_false_iff. unfold truthy.
    destruct Hblank as [->| ->]; [left|right]; reflexivity. }
  assert (Hin : In (TRssName, nf - 1) (slots (rssFeedsList p))).
  { rewrite M2. apply in_flat_map. exists (nf - 1).
    split; [apply in_seq; lia|left; reflexivity]. }
  apply in_map_iff in Hin. destruct Hin as (x & Ex & Hx).
  unfold slot in Ex. injection Ex as Et Ei.
  assert (Hq : In x (querySelectorAll document_order p1)).
  { apply Hord. apply in_or_app. right. apply in_or_app. left. exact Hx. }
  destruct (@forEach_throws trim (querySelectorAll document_order p1)
              (config p1) x Hq (or_introl Et)) as [c' E].
  { unfold p1, kept. cbn. lia. }
  exists (set_config c' p1). unfold saveSettings, saveSettings_request.
  rewrite E. reflexivity.
Qed.

Lemma retry_after_failed_save_throws_witness :
  let p := mkPage (mkConfig (Some []) (Some [mkFeed "HN" "https://hn.example/rss";
                                             mkFeed "" ""])
                            (Some []))
                  []
                  [mkInput TRssName 0 "HN"; mkInput TRssUrl 0 "https://hn.example/rss";
                   mkInput TRssName 1 "Lobsters"; mkInput TRssUrl 1 ""]
                  [] true in
  exists p1,
    fst (saveSettings (fun s => s) (fun a b c => a ++ b ++ c) None p) = Ok p1 /\
    exists p2, saveSettings (fun s => s) (fun a b c => a ++ b ++ c) None p1 =
               (TypeError p2, []).
Proof.
  intro p.
  assert (Hc : ~ incomplete (config p))
    by (intros [H|[H|H]]; discriminate H).
  assert (Hm : rows_match p) by (repeat split).
  assert (Hex : Exists (fun f => name f = "" \/ url f = "")
                  (feeds_typed (fun s => s) (rssFeedsList p)))
    by (right; left; right; reflexivity).
  destruct (@retry_after_failed_save_throws (fun s => s)
              (fun a b c => a ++ b ++ c) None p lists_in_render_order Hc Hm Hex)
    as [H1 H2].
  exists (set_config (kept (fun s => s) p) p).
  split; [rewrite H1; reflexivity|exact H2].
Defined.

(** ** A config that never arrived *)

Lemma add_keeps_other_absent (attribute_value : string -> string)
    (type missing : list_key) (p : Page) :
  type <> missing ->
  entries missing (config p) = None ->
  entries missing (config (addSettingsItem attribute_value type p)) = None.
Proof.
  destruct p as [[s f k] a b c m].
  destruct type, missing; cbn; intros Hne H; try congruence;
    destruct s, f, k; cbn in *; congruence.
Qed.

Lemma add_all_keeps_absent (attribute_value : string -> string)
    (missing : list_key) (types : list list_key) :
  forall p,
    ~ In missing types ->
    entries missing (config p) = None ->
    entries missing (config (add_all attribute_value types p)) = None.
Proof.
  induction types as [|t types IH]; intros p Hn H; [exact H|].
  cbn [add_all]. apply IH; [intro Hin; apply Hn; right; exact Hin|].
  apply add_keeps_other_absent; [|exact H].
  intro E. apply Hn. left. exact E.
Qed.

Lemma absent_incomplete (missing : list_key) (c : Config) :
  entries missing c = None -> incomplete c.
Proof.
  destruct c as [[s|] [f|] [k|]], missing; cbn; intro H; try discriminate;
    unfold incomplete; cbn; auto.
Qed.

(** X21. When the request for the config fails at page load, or its
    body is not JSON, the error is logged and [config] stays the [{}]
    it was.  From then on Save throws before sending anything, whatever
    is typed, unless each of the three Add buttons has been used. *)
Theorem failed_config_load_blocks_saving
    (trim attribute_value : string -> string)
    (document_order : list Input -> list Input -> list Input -> list Input)
    (arrived : option (option Config)) (reply : option response)
    (types : list list_key) (missing : list_key) (p q : Page) :
  config p = empty_config ->
  arrived = None \/ arrived = Some None ->
  ~ In missing types ->
  config q =
    config (add_all attribute_value types
              (openSettings attribute_value (fst (loadConfig arrived p)))) ->
  loadConfig arrived p = (p, [GetConfig; ConsoleError]) /\
  exists q', saveSettings trim document_order reply q = (TypeError q', []).
Proof.
  intros Hp Ha Hmiss Hq.
  assert (El : loadConfig arrived p = (p, [GetConfig; ConsoleError]))
    by (destruct Ha as [-> | ->]; reflexivity).
  split; [exact El|].
  assert (Hc : incomplete (config q)).
  { apply (@absent_incomplete missing). rewrite Hq, El.
    apply add_all_keeps_absent; [exact Hmiss|].
    cbn. rewrite Hp. destruct missing; reflexivity. }
  unfold saveSettings, saveSettings_request.
  destruct (forEach trim (querySelectorAll document_order q) (config q))
    as [c|c] eqn:E; [|eexists; reflexivity].
  destruct (drop_empty_incomplete (forEach_keeps_absent _ _ E Hc)) as [c' ->].
  eexists. reflexivity.
Qed.

Lemma failed_config_load_blocks_saving_witness :
  let p := mkPage empty_config [] [] [] false in
  let q := add_all (fun s => s) [KSubreddits; KKeywords]
             (openSettings (fun s => s) (fst (loadConfig None p))) in
  exists q', saveSettings (fun s => s) (fun a b c => a ++ b ++ c)
               (Some (mkResponse 200 None)) q = (TypeError q', []).
Proof.
  intros p q.
  assert (Hm : ~ In KRssFeeds [KSubreddits; KKeywords])
    by (intros [H|[H|[]]]; discriminate H).
  exact (proj2 (@failed_config_load_blocks_saving (fun s => s) (fun s => s)
                  (fun a b c => a ++ b ++ c) None (Some (mkResponse 200 None))
                  [KSubreddits; KKeywords] KRssFeeds p q eq_refl
                  (or_introl eq_refl) Hm eq_refl)).
Defined.
